(** * wordmmm: a directory word-count utility

    A shallow embedding of [src/wordmmm.py] together with the parts of the
    Python runtime it calls ([str.split], [str.strip], [dict], [sum],
    [sorted], [int / int], number formatting, the [statistics] module,
    [os.listdir], [os.path.join], [os.path.isfile], [open]/[read]), and the
    theorems that relate the program to its specification.

    Layout: Part I holds every definition, one module per Python name space;
    Part II holds the lemmas and theorems. *)

From Stdlib Require Import Ascii String.
From Stdlib Require DecimalString.
From Stdlib Require Import ZArith NArith List Bool Lia.
From Stdlib Require Import Permutation Sorted QArith Qround Qpower Qfield Qabs.
Import ListNotations.

Local Open Scope Z_scope.

(* ================================================================== *)
(** * Part I: definitions *)
(* ================================================================== *)

(** ** Python [str]: a sequence of Unicode code points *)

Module PyStr.

Definition char := N.
Definition str := list char.

(** ASCII literals of the source text. *)
Definition lit (s : string) : str := map N_of_ascii (list_ascii_of_string s).

(** [str.isspace] on one code point, the predicate [str.split()] and
    [str.strip()] use: U+0009..U+000D, U+001C..U+0020, U+0085, U+00A0,
    U+1680, U+2000..U+200A, U+2028, U+2029, U+202F, U+205F, U+3000. *)
Definition isspace (c : char) : bool :=
  (((9 <=? c) && (c <=? 13)) || ((28 <=? c) && (c <=? 32))
   || (c =? 133) || (c =? 160) || (c =? 5760)
   || ((8192 <=? c) && (c <=? 8202))
   || (c =? 8232) || (c =? 8233) || (c =? 8239) || (c =? 8287)
   || (c =? 12288))%N.

(** [text.split()]: one pass over the text.  [w] is the token being read,
    most recent character first; it is empty while white space is
    skipped.  A token is emitted when white space or the end of the text
    follows it. *)
Fixpoint split_from (w : str) (s : str) : list str :=
  match s with
  | [] => match w with [] => [] | _ :: _ => [rev w] end
  | c :: s' =>
      if isspace c
      then match w with
           | [] => split_from [] s'
           | _ :: _ => rev w :: split_from [] s'
           end
      else split_from (c :: w) s'
  end.

Definition split (s : str) : list str := split_from [] s.

(** [len] of a list, as a Python int. *)
Definition len {A : Type} (l : list A) : Z := Z.of_nat (length l).

(** [s.lstrip()], [s.rstrip()] and [s.strip()] with no argument. *)
Fixpoint lstrip (s : str) : str :=
  match s with
  | [] => []
  | c :: s' => if isspace c then lstrip s' else s
  end.

Definition rstrip (s : str) : str := rev (lstrip (rev s)).

Definition strip (s : str) : str := rstrip (lstrip s).

Definition eqb (a b : str) : bool :=
  if list_eq_dec N.eq_dec a b then true else false.

(** [s.startswith(p)] and [s.endswith(p)]. *)
Fixpoint startswith (s p : str) : bool :=
  match p, s with
  | [], _ => true
  | _ :: _, [] => false
  | a :: p', b :: s' => (a =? b)%N && startswith s' p'
  end.

Definition endswith (s p : str) : bool := startswith (rev s) (rev p).

End PyStr.

Import PyStr.

(** ** Python exceptions *)

Module PyExc.

(** The exception classes the program can meet.  All of them derive from
    [Exception]; [StatisticsError] is what [statistics] raises. *)
Inductive exc_class : Type :=
| FileNotFoundError
| NotADirectoryError
| PermissionError
| IsADirectoryError
| OSError
| UnicodeDecodeError
| UnicodeEncodeError
| ValueError
| MemoryError
| ZeroDivisionError
| OverflowError
| StatisticsError.

(** A raised exception: its class and [str(e)]. *)
Record exc : Type := Exc { exc_cls : exc_class; exc_str : str }.

(** [isinstance(e, Exception)], the test of [except Exception]. *)
Definition is_Exception (e : exc) : bool := true.

(** [isinstance(e, statistics.StatisticsError)]. *)
Definition is_StatisticsError (e : exc) : bool :=
  match exc_cls e with StatisticsError => true | _ => false end.

(** The result of evaluating an expression: a value or a raised
    exception. *)
Inductive result (A : Type) : Type :=
| Return (a : A)
| Raise (e : exc).
Arguments Return {A} a.
Arguments Raise {A} e.

End PyExc.

Import PyExc.

(** ** Python numbers: [int], [float] and their text forms *)

Module PyNum.

(** [str(n)] for an int: decimal digits, [-] for negatives. *)
Definition str_of_int (z : Z) : str :=
  lit (DecimalString.NilZero.string_of_int (Z.to_int z)).

(** A finite binary64 value [(-1)^neg * mant * 2^expo], as CPython's
    [float] holds it.  Canonical: [0 <= mant < 2^53],
    [-1074 <= expo <= 971], and [mant < 2^52] only when [expo = -1074]. *)
Record float : Type := Float { fneg : bool; fmant : Z; fexp : Z }.

(** The exact value of a float. *)
Definition pow2Q (k : Z) : Q := Qpower (inject_Z 2) k.

Definition float_abs (f : float) : Q := (inject_Z (fmant f) * pow2Q (fexp f))%Q.

Definition float_value (f : float) : Q :=
  if fneg f then Qopp (float_abs f) else float_abs f.

(** The integer nearest to [p / q] for [q > 0], ties to the even one. *)
Definition round_half_even (p q : Z) : Z :=
  let d := p / q in
  match 2 * (p mod q) ?= q with
  | Lt => d
  | Gt => d + 1
  | Eq => if Z.even d then d else d + 1
  end.

(** [p / q / 2^e] as a fraction of integers. *)
Definition scale2 (p q e : Z) : Z * Z :=
  if 0 <=? e then (p, q * 2 ^ e) else (p * 2 ^ (- e), q).

(** [floor (log2 (p / q))] for [p, q > 0]. *)
Definition floor_log2 (p q : Z) : Z :=
  let d := Z.log2 p - Z.log2 q in
  let '(p', q') := scale2 p q d in
  if q' <=? p' then d else d - 1.

(** Round the positive rational [p / q] to the nearest binary64 value,
    ties to even; [None] when the result exceeds the largest finite
    float.  53 bits of mantissa, least exponent -1074. *)
Definition round_binary64 (p q : Z) : option (Z * Z) :=
  let e := Z.max (floor_log2 p q - 52) (-1074) in
  let '(p', q') := scale2 p q e in
  let m := round_half_even p' q' in
  let '(m, e) := if m =? 2 ^ 53 then (2 ^ 52, e + 1) else (m, e) in
  if 971 <? e then None else Some (m, e).

(** [a / b] on ints (true division): correctly rounded. *)
Definition int_true_divide (a b : Z) : result float :=
  if b =? 0 then Raise (Exc ZeroDivisionError (lit "division by zero"))
  else
    let negate := xorb (a <? 0) (b <? 0) in
    if a =? 0 then Return (Float negate 0 (-1074))
    else match round_binary64 (Z.abs a) (Z.abs b) with
         | Some (m, e) => Return (Float negate m e)
         | None =>
             Raise (Exc OverflowError
                      (lit "integer division result too large for a float"))
         end.

(** [float(n)] for an int. *)
Definition float_of_int (a : Z) : result float :=
  if a =? 0 then Return (Float false 0 (-1074))
  else match round_binary64 (Z.abs a) 1 with
       | Some (m, e) => Return (Float (a <? 0) m e)
       | None =>
           Raise (Exc OverflowError (lit "int too large to convert to float"))
       end.

(** The number of hundredths shown by [format(x, '.2f')]: [100 * |x|]
    rounded to the nearest integer, ties to even. *)
Definition hundredths (f : float) : Z :=
  let '(p, q) := scale2 (100 * fmant f) 1 (- fexp f) in
  round_half_even p q.

Definition two_digits (n : Z) : str :=
  if n <? 10 then lit "0" ++ str_of_int n else str_of_int n.

Definition sign_str (neg : bool) : str := if neg then lit "-" else [].

(** Fixed-point text of [h] hundredths. *)
Definition show_hundredths (neg : bool) (h : Z) : str :=
  sign_str neg ++ str_of_int (h / 100) ++ lit "." ++ two_digits (h mod 100).

(** [format(x, '.2f')] on a float. *)
Definition format_2f (f : float) : str :=
  show_hundredths (fneg f) (hundredths f).

(** *** [repr(x)] on a float: the shortest decimal that reads back as [x] *)

Definition pow10Q (k : Z) : Q := Qpower (inject_Z 10) k.

(** The interval of reals that round to the positive float [m * 2^e]:
    half-way to its neighbours, the end points included when [m] is
    even.  The lower neighbour is closer at a power of two. *)
Definition round_interval (m e : Z) : Q * Q :=
  let below :=
    if (m =? 2 ^ 52) && (-1074 <? e) then pow2Q (e - 2) else pow2Q (e - 1) in
  let x := (inject_Z m * pow2Q e)%Q in
  ((x - below)%Q, (x + pow2Q (e - 1))%Q).

Definition in_interval (m e : Z) (c : Q) : bool :=
  let '(lo, hi) := round_interval m e in
  if Z.even m then Qle_bool lo c && Qle_bool c hi
  else negb (Qle_bool c lo) && negb (Qle_bool hi c).

(** Digit generation: at the decimal position [q], the multiples of
    [10^q] just below and just above [x] are tried; the first position,
    from the top, where one of them reads back as [x] gives the digits
    [D] (the nearer candidate, the even one on a tie) and the result
    [D * 10^q]. *)
Fixpoint shortest_digits (fuel : nat) (m e q : Z) : Z * Z :=
  let x := (inject_Z m * pow2Q e)%Q in
  let s := pow10Q q in
  let d := Qfloor (x / s) in
  let c_lo := (inject_Z d * s)%Q in
  let c_hi := (inject_Z (d + 1) * s)%Q in
  let lo_ok := (0 <? d) && in_interval m e c_lo in
  let hi_ok := in_interval m e c_hi in
  let pick :=
    if lo_ok && hi_ok then
      match Qcompare (x - c_lo) (c_hi - x) with
      | Lt => Some d
      | Gt => Some (d + 1)
      | Eq => Some (if Z.even d then d else d + 1)
      end
    else if lo_ok then Some d
    else if hi_ok then Some (d + 1)
    else None in
  match pick, fuel with
  | Some D, _ => (D, q)
  | None, O => (d, q)
  | None, S fuel' => shortest_digits fuel' m e (q - 1)
  end.

(** A decimal position above the float [m * 2^e]: [10^q > 2^b >= hi]. *)
Definition top_position (m e : Z) : Z :=
  let b := Z.log2 m + e + 2 in
  (if 0 <=? b then b * 30103 / 100000 else b * 30102 / 100000) + 2.

Definition zeros (n : Z) : str := repeat 48%N (Z.to_nat n).

(** Lay the digits out as [float.__repr__] does: fixed notation when the
    decimal point falls within [-4 < decpt <= 16], else exponent
    notation with at least two exponent digits. *)
Definition layout_repr (digits : str) (decpt : Z) : str :=
  let nd := len digits in
  if (-4 <? decpt) && (decpt <=? 16) then
    if decpt <=? 0 then lit "0." ++ zeros (- decpt) ++ digits
    else if nd <=? decpt then digits ++ zeros (decpt - nd) ++ lit ".0"
    else firstn (Z.to_nat decpt) digits ++ lit "."
         ++ skipn (Z.to_nat decpt) digits
  else
    let x := decpt - 1 in
    firstn 1 digits
    ++ (if 1 <? nd then lit "." ++ skipn 1 digits else [])
    ++ lit "e" ++ (if x <? 0 then lit "-" else lit "+")
    ++ two_digits (Z.abs x).

Definition float_repr (f : float) : str :=
  sign_str (fneg f) ++
  if fmant f =? 0 then lit "0.0"
  else
    let '(D, q) :=
      shortest_digits 400 (fmant f) (fexp f)
                      (top_position (fmant f) (fexp f)) in
    let digits := str_of_int D in
    layout_repr digits (len digits + q).

(** A Python number as the report holds it. *)
Inductive number : Type :=
| PyInt (z : Z)
| PyFloat (f : float).

(** [str(x)], which is what [f"{x}"] inserts. *)
Definition str_of_number (x : number) : str :=
  match x with
  | PyInt z => str_of_int z
  | PyFloat f => float_repr f
  end.

(** [f"{x:.2f}"]: an int is converted to float first. *)
Definition format_number_2f (x : number) : result str :=
  match x with
  | PyInt z =>
      match float_of_int z with
      | Return f => Return (format_2f f)
      | Raise e => Raise e
      end
  | PyFloat f => Return (format_2f f)
  end.

End PyNum.

Import PyNum.

(** ** Built-in functions and [dict] *)

Module PyBuiltins.

(** [sum(xs)] over ints. *)
Definition sum (xs : list Z) : Z := fold_left Z.add xs 0.

(** [sorted(xs)] over ints: a stable sort, here by insertion. *)
Fixpoint insert (x : Z) (l : list Z) : list Z :=
  match l with
  | [] => [x]
  | y :: l' => if x <=? y then x :: y :: l' else y :: insert x l'
  end.

Definition sorted (xs : list Z) : list Z := fold_right insert [] xs.

(** [xs[i]] for [0 <= i < len(xs)]; the callers below stay in range. *)
Definition getitem (xs : list Z) (i : Z) : Z := nth (Z.to_nat i) xs 0.

(** A [dict] keeps its items in insertion order; assigning to a key that
    is present replaces the value where the key already stands.  Keys
    are compared with [==], which on [str] and [int] is equality. *)
Abbreviation dict K V := (list (K * V)) (only parsing).

Class Hashable (K : Type) : Type := {
  key_eqb : K -> K -> bool;
  key_eqb_eq : forall a b : K, key_eqb a b = true <-> a = b
}.

#[export] Instance str_hashable : Hashable str.
Proof.
  refine {| key_eqb := PyStr.eqb |}.
  intros a b. unfold PyStr.eqb.
  destruct (list_eq_dec N.eq_dec a b); split; intros; congruence.
Defined.

#[export] Instance int_hashable : Hashable Z :=
  {| key_eqb := Z.eqb; key_eqb_eq := Z.eqb_eq |}.

Section Dict.
Context {K V : Type} `{Hashable K}.

Fixpoint setitem (d : dict K V) (k : K) (v : V) : dict K V :=
  match d with
  | [] => [(k, v)]
  | (k', v') :: d' =>
      if key_eqb k' k then (k', v) :: d' else (k', v') :: setitem d' k v
  end.

Fixpoint get (d : dict K V) (k : K) (default : V) : V :=
  match d with
  | [] => default
  | (k', v') :: d' => if key_eqb k' k then v' else get d' k default
  end.

Definition items (d : dict K V) : list (K * V) := d.
Definition keys (d : dict K V) : list K := map fst d.
Definition values (d : dict K V) : list V := map snd d.
End Dict.

End PyBuiltins.

Import PyBuiltins.

(** ** The [statistics] module, on lists of ints *)

Module statistics.

Definition error (msg : string) : exc := Exc StatisticsError (lit msg).

(** [mean(data)]: the exact fraction [total / n] in lowest terms, kept an
    int when the denominator is one and converted to float otherwise
    ([_convert(total / n, int)]). *)
Definition mean (data : list Z) : result number :=
  let total := sum data in
  let n := len data in
  if n <? 1 then Raise (error "mean requires at least one data point")
  else
    let g := Z.gcd total n in
    let numerator := total / g in
    let denominator := n / g in
    if denominator =? 1 then Return (PyInt numerator)
    else match int_true_divide numerator denominator with
         | Return f => Return (PyFloat f)
         | Raise e => Raise e
         end.

(** [median(data)]. *)
Definition median (data : list Z) : result number :=
  let data := sorted data in
  let n := len data in
  if n =? 0 then Raise (error "no median for empty data")
  else if n mod 2 =? 1 then Return (PyInt (getitem data (n / 2)))
  else
    let i := n / 2 in
    match int_true_divide (getitem data (i - 1) + getitem data i) 2 with
    | Return f => Return (PyFloat f)
    | Raise e => Raise e
    end.

(** [mapping[elem] = mapping.get(elem, 0) + 1], the step of
    [Counter.update]. *)
Definition count_step (mapping : dict Z Z) (elem : Z) : dict Z Z :=
  setitem mapping elem (get mapping elem 0 + 1).

(** [Counter(iter(data))]: each value with the number of times it
    occurs, in order of first occurrence. *)
Definition Counter (data : list Z) : dict Z Z :=
  fold_left count_step data [].

(** [max(it, key=itemgetter(1))] after its first item: the running best
    is replaced only by an item of strictly greater count, so of several
    items with the greatest count the first one met wins. *)
Definition max_by_count (best : Z * Z) (rest : list (Z * Z)) : Z * Z :=
  fold_left (fun b item => if snd b <? snd item then item else b) rest best.

(** [Counter.most_common(1)], that is [heapq.nlargest(1, items, key)]. *)
Definition most_common_1 (c : list (Z * Z)) : list (Z * Z) :=
  match c with
  | [] => []
  | item :: rest => [max_by_count item rest]
  end.

(** [mode(data)] since Python 3.8: the first mode met; it raises only on
    empty data. *)
Definition mode (data : list Z) : result Z :=
  match most_common_1 (Counter data) with
  | item :: _ => Return (fst item)
  | [] => Raise (error "no mode for empty data")
  end.

(** *** [mode] before Python 3.8

    The older [mode] raised [StatisticsError] when several values
    shared the greatest count; it is kept here to compare with. *)

(** [Counter.most_common()]: the items by decreasing count, items of
    equal count in their original order ([sorted] is stable, also with
    [reverse=True]). *)
Fixpoint insert_by_count (x : Z * Z) (l : list (Z * Z)) : list (Z * Z) :=
  match l with
  | [] => [x]
  | y :: l' =>
      if snd y <=? snd x then x :: y :: l' else y :: insert_by_count x l'
  end.

Definition most_common (c : list (Z * Z)) : list (Z * Z) :=
  fold_right insert_by_count [] c.

(** The order of that table. *)
Definition by_count_desc (a b : Z * Z) : Prop := snd b <= snd a.

(** The loop of [_counts]: the table is cut at the first item whose
    count differs from [maxfreq]. *)
Fixpoint same_count_prefix (maxfreq : Z) (table : list (Z * Z))
  : list (Z * Z) :=
  match table with
  | [] => []
  | item :: rest =>
      if snd item =? maxfreq then item :: same_count_prefix maxfreq rest
      else []
  end.

Definition _counts (data : list Z) : list (Z * Z) :=
  match most_common (Counter data) with
  | [] => []
  | first :: rest => first :: same_count_prefix (snd first) rest
  end.

Definition mode_before_38 (data : list Z) : result Z :=
  match _counts data with
  | [item] => Return (fst item)
  | [] => Raise (error "no mode for empty data")
  | table =>
      Raise (Exc StatisticsError
                 (lit "no unique mode; found " ++ str_of_int (len table)
                  ++ lit " equally common values"))
  end.

End statistics.

(** ** The file system, [os] and [open] *)

Module os.

(** What a path names.  A regular file carries the outcome of
    [open(path, 'r', encoding='utf-8')] followed by [read()]: the decoded
    text, or the exception raised by the open, the read or the decoding.
    A directory carries the outcome of listing it. *)
Inductive node : Type :=
| RegularFile (content : result str)
| Directory (listing : result (list str))
| Special
| Symlink (target : str).

(** The file system seen by one run; [strerror] words the operating
    system's error for a path, and [read_special] is the outcome of
    opening and reading a special file (the empty text for [/dev/null],
    an [OSError] for a socket). *)
Record filesystem : Type := {
  lookup : str -> option node;
  strerror : exc_class -> str -> str;
  read_special : str -> result str
}.

(** [os.stat]: follows symbolic links, at most 40 of them. *)
Fixpoint follow (fuel : nat) (fs : filesystem) (path : str) : option node :=
  match lookup fs path with
  | Some (Symlink target) =>
      match fuel with
      | O => None
      | S fuel' => follow fuel' fs target
      end
  | other => other
  end.

Definition stat (fs : filesystem) (path : str) : option node :=
  follow 40 fs path.

Definition os_error (fs : filesystem) (c : exc_class) (path : str) : exc :=
  Exc c (strerror fs c path).

(** [os.listdir(path)]. *)
Definition listdir (fs : filesystem) (path : str) : result (list str) :=
  match stat fs path with
  | Some (Directory listing) => listing
  | Some _ => Raise (os_error fs NotADirectoryError path)
  | None => Raise (os_error fs FileNotFoundError path)
  end.

(** [os.path.join(a, b)] (posixpath). *)
Definition join (a b : str) : str :=
  let sep := lit "/" in
  if startswith b sep then b
  else if PyStr.eqb a [] || endswith a sep then a ++ b
  else a ++ sep ++ b.

(** [os.path.isfile(path)]: [S_ISREG] of [os.stat(path)], [False] when
    the stat fails. *)
Definition isfile (fs : filesystem) (path : str) : bool :=
  match stat fs path with
  | Some (RegularFile _) => true
  | _ => false
  end.

(** Whether resolving [path] meets more symbolic links than [os.stat]
    follows ([ELOOP]). *)
Fixpoint link_loop (fuel : nat) (fs : filesystem) (path : str) : bool :=
  match lookup fs path with
  | Some (Symlink target) =>
      match fuel with
      | O => true
      | S fuel' => link_loop fuel' fs target
      end
  | _ => false
  end.

(** [open(path, 'r', encoding='utf-8')] and [f.read()] in one step.  A
    path with a NUL character is refused before the file system is
    asked; a link loop is an [OSError], not a missing file.  The program
    opens only paths that [isfile] accepted, so of the cases that ask the
    file system only the first is ever met. *)
Definition open_read (fs : filesystem) (path : str) : result str :=
  if existsb (N.eqb 0) path
  then Raise (Exc ValueError (lit "embedded null byte"))
  else
    match stat fs path with
    | Some (RegularFile content) => content
    | Some (Directory _) => Raise (os_error fs IsADirectoryError path)
    | Some _ => read_special fs path
    | None =>
        if link_loop 40 fs path
        then Raise (os_error fs OSError path)
        else Raise (os_error fs FileNotFoundError path)
    end.

End os.

Import os.

(** ** Effects: text written to standard output, and exceptions *)

Module IO.

(** A computation yields a value or a raised exception, together with
    the text it wrote to standard output. *)
Definition io (A : Type) : Type := (result A * str)%type.

Definition ret {A : Type} (a : A) : io A := (Return a, []).

Definition bind {A B : Type} (m : io A) (k : A -> io B) : io B :=
  match m with
  | (Return a, out) => let '(r, out') := k a in (r, out ++ out')
  | (Raise e, out) => (Raise e, out)
  end.

(** An expression that writes nothing. *)
Definition lift {A : Type} (r : result A) : io A := (r, []).

Definition write (s : str) : io unit := (Return tt, s).

Definition newline : str := [10%N].

(** [print(s)] on a standard output that takes every text. *)
Definition print (s : str) : io unit := write (s ++ newline).

(** A text stream with the error handler [strict], as [sys.stdout] is
    by default: the characters its encoding has, and [str(e)] of the
    [UnicodeEncodeError] for a text it cannot encode. *)
Record text_stream : Type := {
  encodes : char -> bool;
  encode_error : str -> str
}.

Definition can_encode (f : text_stream) (s : str) : bool :=
  forallb (encodes f) s.

(** [f.write(s)]: the text is encoded as a whole, so nothing of it is
    written when one of its characters cannot be encoded. *)
Definition write_to (f : text_stream) (s : str) : io unit :=
  if can_encode f s then write s
  else (Raise (Exc UnicodeEncodeError (encode_error f s)), []).

(** [print(s, file=f)]: writes [s], then the line end. *)
Definition print_to (f : text_stream) (s : str) : io unit :=
  bind (write_to f s) (fun _ => write_to f newline).

(** [try: body / except <class> as e: handler e]. *)
Definition try_except {A : Type} (body : io A) (catches : exc -> bool)
           (handler : exc -> io A) : io A :=
  match body with
  | (Raise e, out) =>
      if catches e
      then let '(r, out') := handler e in (r, out ++ out')
      else (Raise e, out)
  | (Return a, out) => (Return a, out)
  end.

(** [for x in xs: body], threading the variables the body assigns. *)
Fixpoint for_in {S A : Type} (xs : list A) (body : S -> A -> io S) (s : S)
  : io S :=
  match xs with
  | [] => ret s
  | x :: xs' => bind (body s x) (for_in xs' body)
  end.

Definition outcome {A : Type} (m : io A) : result A := fst m.
Definition stdout {A : Type} (m : io A) : str := snd m.

End IO.

Import IO.

Notation "x <- m ;; k" := (bind m (fun x => k))
  (at level 61, m at next level, right associativity).
Notation "' p <- m ;; k" := (bind m (fun p => k))
  (at level 61, p pattern, m at next level, right associativity).
Notation "m ;; k" := (bind m (fun _ => k))
  (at level 61, right associativity).

(** ** The program: [wordmmm.py] *)

Module wordmmm.

(** What [mode_words] holds: an int, or the marker string. *)
Inductive mode_value : Type :=
| ModeInt (z : Z)
| ModeStr (s : str).

Definition str_of_mode (m : mode_value) : str :=
  match m with
  | ModeInt z => str_of_int z
  | ModeStr s => s
  end.

Definition no_unique_mode : str := lit "No unique mode".

(** [try: mode_words = statistics.mode(word_counts)
    except statistics.StatisticsError: mode_words = "No unique mode"],
    for a given [statistics.mode]. *)
Definition mode_or_marker (mode : list Z -> result Z) (word_counts : list Z)
  : io mode_value :=
  try_except
    (m <- lift (mode word_counts) ;; ret (ModeInt m))
    is_StatisticsError
    (fun _ => ret (ModeStr no_unique_mode)).

Section Program.

Variable fs : filesystem.

Definition count_words_in_file (filepath : str) : io Z :=
  try_except
    (text <- lift (open_read fs filepath) ;;
     ret (len (split text)))
    is_Exception
    (fun e =>
       print (lit "Error reading " ++ filepath ++ lit ": " ++ exc_str e) ;;
       ret 0).

(** The body of the loop over [os.listdir(directory)]; the state is
    the pair of [word_counts] and [file_word_map]. *)
Definition scan_entry (directory : str)
           (vars : list Z * dict str Z) (filename : str)
  : io (list Z * dict str Z) :=
  let '(word_counts, file_word_map) := vars in
  let filepath := join directory filename in
  if isfile fs filepath then
    word_count <- count_words_in_file filepath ;;
    ret (word_counts ++ [word_count],
         setitem file_word_map filename word_count)
  else ret (word_counts, file_word_map).

(** The body of the loop over [file_word_map.items()]. *)
Definition print_file_line (_ : unit) (item : str * Z) : io unit :=
  let '(file, count) := item in
  print (lit "  " ++ file ++ lit ": " ++ str_of_int count ++ lit " words").

(** Lines 25 to 45 of the source: what the function does with
    [word_counts] and [file_word_map] once the loop is over. *)
Definition report (vars : list Z * dict str Z) : io unit :=
  let '(word_counts, file_word_map) := vars in
  match word_counts with
  | [] => print (lit "No readable files found.")
  | _ :: _ =>
      let total_words := sum word_counts in
      mean_words <- lift (statistics.mean word_counts) ;;
      median_words <- lift (statistics.median word_counts) ;;
      mode_words <- mode_or_marker statistics.mode word_counts ;;
      print (newline ++ lit "Word count per file:") ;;
      for_in (items file_word_map) print_file_line tt ;;
      print (newline ++ lit "Summary statistics:") ;;
      print (lit "  Total words: " ++ str_of_int total_words) ;;
      mean_text <- lift (format_number_2f mean_words) ;;
      print (lit "  Mean words per file: " ++ mean_text) ;;
      print (lit "  Median words per file: " ++ str_of_number median_words) ;;
      print (lit "  Mode words per file: " ++ str_of_mode mode_words)
  end.

Definition analyze_directory_word_counts (directory : str) : io unit :=
  let word_counts := [] in
  let file_word_map := [] in
  names <- lift (listdir fs directory) ;;
  vars <- for_in names (scan_entry directory)
                 (word_counts, file_word_map) ;;
  report vars.

(** [__main__]: [input(prompt)] writes the prompt and returns the line
    typed, without its newline. *)
Definition main (typed : str) : io unit :=
  write (lit "Enter the directory path: ") ;;
  let directory_path := strip typed in
  analyze_directory_word_counts directory_path.

End Program.

End wordmmm.

(** ** The program with its standard output made explicit

    The same functions, writing to a given [sys.stdout]: every [print] can
    raise [UnicodeEncodeError], also the one in the handler of
    [count_words_in_file], where nothing catches it. *)

Module wordmmm_stdout.

Import wordmmm.

Section Program.

Variable sys_stdout : text_stream.
Variable fs : filesystem.

Definition count_words_in_file (filepath : str) : io Z :=
  try_except
    (text <- lift (open_read fs filepath) ;;
     ret (len (split text)))
    is_Exception
    (fun e =>
       print_to sys_stdout
                (lit "Error reading " ++ filepath ++ lit ": " ++ exc_str e) ;;
       ret 0).

Definition scan_entry (directory : str)
           (vars : list Z * dict str Z) (filename : str)
  : io (list Z * dict str Z) :=
  let '(word_counts, file_word_map) := vars in
  let filepath := join directory filename in
  if isfile fs filepath then
    word_count <- count_words_in_file filepath ;;
    ret (word_counts ++ [word_count],
         setitem file_word_map filename word_count)
  else ret (word_counts, file_word_map).

Definition print_file_line (_ : unit) (item : str * Z) : io unit :=
  let '(file, count) := item in
  print_to sys_stdout
           (lit "  " ++ file ++ lit ": " ++ str_of_int count ++ lit " words").

Definition report (vars : list Z * dict str Z) : io unit :=
  let '(word_counts, file_word_map) := vars in
  match word_counts with
  | [] => print_to sys_stdout (lit "No readable files found.")
  | _ :: _ =>
      let total_words := sum word_counts in
      mean_words <- lift (statistics.mean word_counts) ;;
      median_words <- lift (statistics.median word_counts) ;;
      mode_words <- mode_or_marker statistics.mode word_counts ;;
      print_to sys_stdout (newline ++ lit "Word count per file:") ;;
      for_in (items file_word_map) print_file_line tt ;;
      print_to sys_stdout (newline ++ lit "Summary statistics:") ;;
      print_to sys_stdout (lit "  Total words: " ++ str_of_int total_words) ;;
      mean_text <- lift (format_number_2f mean_words) ;;
      print_to sys_stdout (lit "  Mean words per file: " ++ mean_text) ;;
      print_to sys_stdout
               (lit "  Median words per file: "
                ++ str_of_number median_words) ;;
      print_to sys_stdout
               (lit "  Mode words per file: " ++ str_of_mode mode_words)
  end.

Definition analyze_directory_word_counts (directory : str) : io unit :=
  let word_counts := [] in
  let file_word_map := [] in
  names <- lift (listdir fs directory) ;;
  vars <- for_in names (scan_entry directory)
                 (word_counts, file_word_map) ;;
  report vars.

Definition main (typed : str) : io unit :=
  write_to sys_stdout (lit "Enter the directory path: ") ;;
  let directory_path := strip typed in
  analyze_directory_word_counts directory_path.

End Program.

End wordmmm_stdout.

Import wordmmm.

(** ** Notions of the specification *)

Module Spec.

(** A word is a maximal run of non-white-space characters.  Position [i]
    starts such a run when the character there is not white space and
    the one before it is, or there is none; [prev_space] says what stands
    before position 0. *)
Definition run_start (prev_space : bool) (s : str) (i : nat) : bool :=
  negb (isspace (nth i s 0%N))
  && match i with
     | O => prev_space
     | S j => isspace (nth j s 0%N)
     end.

Definition word_runs_from (prev_space : bool) (s : str) : Z :=
  len (filter (run_start prev_space s) (seq 0 (length s))).

(** The number of maximal runs of non-white-space characters of a
    text. *)
Definition word_runs (s : str) : Z := word_runs_from true s.

(** The run that starts at position [i]: the characters from there up to
    the next white space or the end of the text. *)
Fixpoint take_run (s : str) : str :=
  match s with
  | [] => []
  | c :: s' => if isspace c then [] else c :: take_run s'
  end.

Definition run_at (s : str) (i : nat) : str := take_run (skipn i s).

Definition runs_from (prev_space : bool) (s : str) : list str :=
  map (run_at s) (filter (run_start prev_space s) (seq 0 (length s))).

(** The maximal runs of non-white-space characters of a text, in
    order. *)
Definition runs (s : str) : list str := runs_from true s.

(** The word count of the file at [path]: its words when it can be read,
    zero otherwise. *)
Definition words_of (fs : filesystem) (path : str) : Z :=
  match open_read fs path with
  | Return text => word_runs text
  | Raise _ => 0
  end.

(** The message of the form [Error reading <path>: <description>], as
    one line. *)
Definition error_line (path : str) (e : exc) : str :=
  lit "Error reading " ++ path ++ lit ": " ++ exc_str e ++ newline.

(** The error text written for the file at [path]: one line when the
    read fails, nothing otherwise. *)
Definition errors_of (fs : filesystem) (path : str) : str :=
  match open_read fs path with
  | Return _ => []
  | Raise e => error_line path e
  end.

(** The entries of a listing that the scan keeps. *)
Definition qualifying (fs : filesystem) (directory : str)
           (names : list str) : list str :=
  filter (fun filename => isfile fs (join directory filename)) names.

(** The counts, the items and the error text a scan of [names] is
    expected to produce: one count and one item per qualifying entry, in
    listing order. *)
Definition scan_counts (fs : filesystem) (directory : str)
           (names : list str) : list Z :=
  map (fun filename => words_of fs (join directory filename))
      (qualifying fs directory names).

Definition scan_items (fs : filesystem) (directory : str)
           (names : list str) : list (str * Z) :=
  map (fun filename => (filename, words_of fs (join directory filename)))
      (qualifying fs directory names).

Definition scan_errors (fs : filesystem) (directory : str)
           (names : list str) : str :=
  concat (map (fun filename => errors_of fs (join directory filename))
              (qualifying fs directory names)).

(** One line of the per-file section of the report. *)
Definition file_line (file : str) (count : Z) : str :=
  lit "  " ++ file ++ lit ": " ++ str_of_int count ++ lit " words" ++ newline.

(** The power of two [2^e], for any integer [e], as the fraction
    [pow2_num e / pow2_den e] of positive integers. *)
Definition pow2_num (e : Z) : Z := 2 ^ Z.max 0 e.
Definition pow2_den (e : Z) : Z := 2 ^ Z.max 0 (- e).

(** The per-file section of the report: its heading after an empty
    line, then one line per item. *)
Definition per_file_text (file_word_map : dict str Z) : str :=
  newline ++ lit "Word count per file:" ++ newline
  ++ concat (map (fun item => file_line (fst item) (snd item))
                 (items file_word_map)).

(** The summary section of the report, with the texts shown for the
    mean, the median and the mode. *)
Definition summary_text (total : Z) (mean median mode : str) : str :=
  newline ++ lit "Summary statistics:" ++ newline
  ++ lit "  Total words: " ++ str_of_int total ++ newline
  ++ lit "  Mean words per file: " ++ mean ++ newline
  ++ lit "  Median words per file: " ++ median ++ newline
  ++ lit "  Mode words per file: " ++ mode ++ newline.

(** The float [m * 2^e] is exactly the fraction [num / den]. *)
Definition exactly (m e num den : Z) : Prop :=
  m * den * pow2_num e = num * pow2_den e.

(** How often [k] occurs in [data]. *)
Definition occurrences (data : list Z) (k : Z) : Z :=
  Z.of_nat (count_occ Z.eq_dec data k).

(** [sys.maxsize]: no [str] and no [list] is longer. *)
Definition maxsize : Z := 2 ^ 63 - 1.

(** Counts that a run can hold: each is the number of words of a [str],
    and they are in a [list]. *)
Definition within_limits (word_counts : list Z) : Prop :=
  len word_counts <= maxsize
  /\ Forall (fun c => 0 <= c <= maxsize) word_counts.

(** The path resolves, through symbolic links if any, to a regular
    file. *)
Definition resolves_to_regular (fs : filesystem) (path : str) : Prop :=
  exists content, stat fs path = Some (RegularFile content).

(** A character that every encoding of a standard output has. *)
Definition is_ascii (c : char) : bool := (c <? 128)%N.

(** The standard output can encode what a run on the listing [names]
    prints: the ASCII characters, the names of the entries that qualify
    and, for those that cannot be read, the directory path and the
    message of the error. *)
Definition can_show (sys_stdout : text_stream) (fs : filesystem)
           (directory : str) (names : list str) : Prop :=
  (forall c, is_ascii c = true -> encodes sys_stdout c = true)
  /\ forall filename,
       In filename names ->
       isfile fs (join directory filename) = true ->
       can_encode sys_stdout filename = true
       /\ forall e,
            open_read fs (join directory filename) = Raise e ->
            can_encode sys_stdout directory = true
            /\ can_encode sys_stdout (exc_str e) = true.

(** A text whose first and last characters, if any, are not white
    space. *)
Definition trimmed (p : str) : Prop :=
  (forall c rest, p = c :: rest -> isspace c = false)
  /\ (forall c rest, p = rest ++ [c] -> isspace c = false).

(** The float [f] is the fraction [num / den] up to the rounding of a
    float: a relative error of at most [2^-53]. *)
Definition rounded (f : float) (num den : Z) : Prop :=
  fneg f = false
  /\ (Qabs (float_value f - (num # Z.to_pos den))
      <= float_value f * (1 # 2 ^ 53))%Q.


(** The standard median of the counts: with [s] the counts in order,
    the middle element when their number is odd, and the average of the
    two middle elements, as a float, when it is even. *)
Definition standard_median (word_counts : list Z) (x : number) : Prop :=
  exists s : list Z,
    Sorted Z.le s /\ Permutation s word_counts
    /\ let n := len s in
       (n mod 2 = 1 -> x = PyInt (nth (Z.to_nat (n / 2)) s 0))
       /\ (n mod 2 = 0 ->
           exists f : float,
             x = PyFloat f
             /\ rounded f (nth (Z.to_nat (n / 2 - 1)) s 0
                           + nth (Z.to_nat (n / 2)) s 0) 2).

(** A value of the counts that none occurs more often than. *)
Definition most_frequent (word_counts : list Z) (v : Z) : Prop :=
  In v word_counts
  /\ forall u, occurrences word_counts u <= occurrences word_counts v.

End Spec.

Import Spec.

(** ** Sample directories *)

Module Samples.

(** [width] hexadecimal digits of [n], in lower case. *)
Fixpoint hex_digits (width : nat) (n : N) : str :=
  match width with
  | O => []
  | S width' =>
      let d := ((n / 16 ^ N.of_nat width') mod 16)%N in
      (if (d <? 10)%N then (48 + d)%N else (87 + d)%N)
        :: hex_digits width' n
  end.

(** Whether [repr] shows the character itself.  Beyond ASCII only the
    controls of Latin-1, the no-break space, the soft hyphen and the
    surrogates are taken as not printable. *)
Definition is_printable (c : char) : bool :=
  ((32 <=? c) && (c <? 127)
   || (160 <? c) && negb (c =? 173)
      && negb ((55296 <=? c) && (c <=? 57343)))%N.

(** [repr(s)] of a [str]: in single quotes, or in double quotes when it
    holds a single quote and no double quote. *)
Definition repr_char (quote : char) (c : char) : str :=
  if ((c =? quote) || (c =? 92))%N then [92%N; c]
  else if (c =? 9)%N then lit "\t"
  else if (c =? 10)%N then lit "\n"
  else if (c =? 13)%N then lit "\r"
  else if is_printable c then [c]
  else if (c <? 256)%N then lit "\x" ++ hex_digits 2 c
  else if (c <? 65536)%N then lit "\u" ++ hex_digits 4 c
  else lit "\U" ++ hex_digits 8 c.

Definition repr_str (s : str) : str :=
  let quote :=
    if existsb (N.eqb 39) s && negb (existsb (N.eqb 34) s)
    then 34%N else 39%N in
  quote :: concat (map (repr_char quote) s) ++ [quote].

(** The operating system's wording of an error on a path, as
    [str(e)] of an [OSError] gives it; the plain [OSError] is the one of
    a link loop. *)
Definition posix_strerror (c : exc_class) (path : str) : str :=
  match c with
  | FileNotFoundError => lit "[Errno 2] No such file or directory: "
  | NotADirectoryError => lit "[Errno 20] Not a directory: "
  | IsADirectoryError => lit "[Errno 21] Is a directory: "
  | PermissionError => lit "[Errno 13] Permission denied: "
  | OSError => lit "[Errno 40] Too many levels of symbolic links: "
  | _ => lit "[Errno 5] Input/output error: "
  end ++ repr_str path.

Local Open Scope string_scope.

(** A file system given by the list of its paths. *)
Definition make_fs (entries : list (string * node)) : filesystem :=
  {| lookup := fun path =>
       match find (fun entry => PyStr.eqb (lit (fst entry)) path) entries with
       | Some entry => Some (snd entry)
       | None => None
       end;
     strerror := posix_strerror;
     read_special := fun _ => Return [] |}.

Definition text_file (content : string) : node :=
  RegularFile (Return (lit content)).

Definition directory_of (names : list string) : node :=
  Directory (Return (map lit names)).

(** The directory of the specification's first example. *)
Definition docs_fs : filesystem :=
  make_fs [ ("docs", directory_of ["a.txt"; "b.txt"]);
            ("docs/a.txt", text_file "one two three");
            ("docs/b.txt", text_file "four five") ].

(** A directory with a sub-directory, a device, a dangling link, a link
    to a regular file, and a file that is not valid UTF-8. *)
Definition mixed_fs : filesystem :=
  make_fs [ ("mixed", directory_of ["notes.txt"; "sub"; "tty"; "gone";
                                    "alias"; "blob"]);
            ("mixed/notes.txt", text_file "alpha beta  gamma");
            ("mixed/sub", directory_of ["inner.txt"]);
            ("mixed/sub/inner.txt", text_file "not counted at all");
            ("mixed/tty", Special);
            ("mixed/gone", Symlink (lit "nowhere"));
            ("mixed/alias", Symlink (lit "mixed/notes.txt"));
            ("mixed/blob",
             RegularFile
               (Raise (Exc UnicodeDecodeError
                         (lit "'utf-8' codec can't decode byte 0xff in position 0: invalid start byte")))) ].

(** A directory without regular files. *)
Definition bare_fs : filesystem :=
  make_fs [ ("bare", directory_of ["sub"; "tty"]);
            ("bare/sub", directory_of []);
            ("bare/tty", Special) ].

(** Counts beyond the 53 bits of a float's mantissa. *)
Definition huge_counts : list Z := [2 ^ 53 + 1].
Definition huge_map : dict str Z := [(lit "big.txt", 2 ^ 53 + 1)].

Definition close_counts : list Z := [2 ^ 53; 2 ^ 53 + 1].
Definition close_map : dict str Z :=
  [(lit "x.txt", 2 ^ 53); (lit "y.txt", 2 ^ 53 + 1)].

(** Expected output, line by line. *)
Definition text_of_lines (lines : list string) : str :=
  concat (map (fun line => (lit line ++ newline)%list) lines).

End Samples.

Import Samples.

(** ** Further sample directories *)

Module MoreSamples.

Local Open Scope string_scope.

Definition locked_file (path : string) : node :=
  RegularFile
    (Raise (Exc PermissionError
                (lit ("[Errno 13] Permission denied: '" ++ path ++ "'")))).

(** A directory whose two files may not be read. *)
Definition locked_fs : filesystem :=
  make_fs [ ("vault", directory_of ["k1"; "k2"]);
            ("vault/k1", locked_file "vault/k1");
            ("vault/k2", locked_file "vault/k2") ].

(** A directory that is reached with and without a trailing slash. *)
Definition slash_fs : filesystem :=
  make_fs [ ("docs", directory_of ["a.txt"; "b.txt"]);
            ("docs/", directory_of ["a.txt"; "b.txt"]);
            ("docs/a.txt", text_file "one two three");
            ("docs/b.txt", text_file "four five") ].

(** Two texts, the two joined by white space, and the first one padded
    with white space. *)
Definition joined_fs : filesystem :=
  make_fs [ ("one", text_file "to be or");
            ("two", text_file "not to be");
            ("both", RegularFile (Return (lit "to be or" ++ [10%N; 9%N]
                                          ++ lit "not to be")%list));
            ("padded", RegularFile (Return ([32%N; 160%N] ++ lit "to be or"
                                            ++ [13%N; 10%N])%list)) ].

(** A standard output in UTF-8 with the error handler [strict]: it has
    every character but the surrogates.  The error names the first run
    of surrogates. *)
Definition is_surrogate (c : char) : bool :=
  ((55296 <=? c) && (c <=? 57343))%N.

Fixpoint prefix_length (p : char -> bool) (s : str) : nat :=
  match s with
  | c :: s' => if p c then S (prefix_length p s') else O
  | [] => O
  end.

Definition utf8_encode_error (s : str) : str :=
  let start := prefix_length (fun c => negb (is_surrogate c)) s in
  let run := prefix_length is_surrogate (skipn start s) in
  ((if Nat.eqb run 1
   then lit "'utf-8' codec can't encode character '\u"
        ++ hex_digits 4 (nth start s 0%N) ++ lit "' in position "
        ++ str_of_int (Z.of_nat start)
    else lit "'utf-8' codec can't encode characters in position "
        ++ str_of_int (Z.of_nat start) ++ lit "-"
        ++ str_of_int (Z.of_nat (start + run - 1)))
   ++ lit ": surrogates not allowed")%list.

Definition utf8_stdout : text_stream :=
  {| encodes := fun c => negb (is_surrogate c);
     encode_error := utf8_encode_error |}.



End MoreSamples.

Import MoreSamples.

(* ================================================================== *)
(** * Part II: lemmas and theorems *)
(* ================================================================== *)

(** ** Text splitting *)

Section Splitting.

Lemma run_start_cons (prev : bool) (c : char) (s : str) (i : nat) :
  run_start prev (c :: s) (S i) = run_start (isspace c) s i.
Proof.
  unfold run_start. destruct i as [|j]; reflexivity.
Qed.

Lemma filter_map_S (f : nat -> bool) (l : list nat) :
  filter f (map S l) = map S (filter (fun i => f (S i)) l).
Proof.
  induction l as [|x l IH]; simpl; [reflexivity|].
  destruct (f (S x)); simpl; now rewrite IH.
Qed.

Lemma word_runs_from_nil (prev : bool) : word_runs_from prev [] = 0.
Proof. reflexivity. Qed.

Lemma word_runs_from_cons (prev : bool) (c : char) (s : str) :
  word_runs_from prev (c :: s)
  = (if negb (isspace c) && prev then 1 else 0)
    + word_runs_from (isspace c) s.
Proof.
  unfold word_runs_from, len.
  change (length (c :: s)) with (S (length s)).
  rewrite <- cons_seq, <- seq_shift.
  cbn [filter]. rewrite filter_map_S.
  rewrite (filter_ext _ (run_start (isspace c) s))
    by (intro i; apply run_start_cons).
  change (run_start prev (c :: s) 0) with (negb (isspace c) && prev).
  destruct (negb (isspace c) && prev); cbn [length];
    rewrite length_map; lia.
Qed.

Lemma word_runs_from_nonneg (prev : bool) (s : str) :
  0 <= word_runs_from prev s.
Proof. unfold word_runs_from, len. lia. Qed.

(** The tokens found by the scan: one for the token being read, if any,
    plus one per run that starts later. *)
Lemma len_split_from (s w : str) :
  len (split_from w s)
  = match w with
    | [] => word_runs_from true s
    | _ :: _ => 1 + word_runs_from false s
    end.
Proof.
  revert w. induction s as [|c s IH]; intro w.
  - destruct w; reflexivity.
  - cbn [split_from]. rewrite !word_runs_from_cons.
    destruct (isspace c) eqn:Hc; cbn [negb andb].
    + destruct w as [|a w].
      * rewrite IH. lia.
      * unfold len in *. cbn [length].
        specialize (IH []). cbn beta iota in IH. lia.
    + rewrite IH. destruct w; lia.
Qed.

Lemma len_split (s : str) : len (split s) = word_runs s.
Proof. unfold split. now rewrite len_split_from. Qed.

Lemma runs_from_cons (prev : bool) (c : char) (s : str) :
  runs_from prev (c :: s)
  = (if negb (isspace c) && prev then [take_run (c :: s)] else [])
    ++ runs_from (isspace c) s.
Proof.
  unfold runs_from.
  change (length (c :: s)) with (S (length s)).
  rewrite <- cons_seq, <- seq_shift.
  cbn [filter]. rewrite filter_map_S.
  rewrite (filter_ext _ (run_start (isspace c) s))
    by (intro i; apply run_start_cons).
  change (run_start prev (c :: s) 0) with (negb (isspace c) && prev).
  destruct (negb (isspace c) && prev); cbn [map app];
    rewrite map_map; reflexivity.
Qed.

(** The tokens of the scan are the maximal runs: the token being read
    grows to the end of its run, and the later runs follow. *)
Lemma split_from_runs (s w : str) :
  split_from w s
  = match w with
    | [] => runs_from true s
    | _ :: _ => (rev w ++ take_run s) :: runs_from false s
    end.
Proof.
  revert w. induction s as [|c s IH]; intro w.
  - destruct w; cbn [split_from take_run]; [reflexivity|].
    now rewrite app_nil_r.
  - cbn [split_from]. rewrite !runs_from_cons. cbn [take_run].
    destruct (isspace c) eqn:Hc; cbn [negb andb app].
    + destruct w as [|a w]; rewrite IH; [reflexivity|].
      now rewrite app_nil_r.
    + rewrite IH. destruct w as [|a w]; [reflexivity|].
      cbn [rev]. now rewrite <- !app_assoc.
Qed.

Lemma split_runs (s : str) : split s = runs s.
Proof. unfold split. now rewrite split_from_runs. Qed.

Lemma len_runs (s : str) : len (runs s) = word_runs s.
Proof.
  unfold runs, runs_from, word_runs, word_runs_from, len.
  now rewrite length_map.
Qed.

Lemma word_runs_from_all_space (prev : bool) (s : str) :
  forallb isspace s = true -> word_runs_from prev s = 0.
Proof.
  revert prev. induction s as [|c s IH]; intros prev H.
  - reflexivity.
  - cbn [forallb] in H. apply andb_true_iff in H as [Hc Hs].
    rewrite word_runs_from_cons, Hc. cbn [negb andb].
    now rewrite IH.
Qed.

(** Every token is a non-empty run free of white space. *)
Lemma split_from_tokens (s w : str) :
  forallb (fun c => negb (isspace c)) w = true ->
  Forall (fun t => t <> [] /\ forallb (fun c => negb (isspace c)) t = true)
         (split_from w s).
Proof.
  assert (Hrev : forall w : str,
             forallb (fun c => negb (isspace c)) w = true ->
             forallb (fun c => negb (isspace c)) (rev w) = true).
  { intros w0 H. rewrite forallb_forall in *. intros x Hx.
    apply H. now apply in_rev. }
  assert (Hne : forall (a : char) (w0 : str), rev (a :: w0) <> []).
  { intros a w0 E. apply (f_equal (@length _)) in E.
    rewrite length_rev in E. discriminate. }
  revert w. induction s as [|c s IH]; intros w Hw; cbn [split_from].
  - destruct w; constructor; auto.
  - destruct (isspace c) eqn:Hc.
    + destruct w; [apply IH; reflexivity|].
      constructor; [auto | apply IH; reflexivity].
    + apply IH. cbn [forallb]. now rewrite Hc.
Qed.

Lemma split_tokens (s : str) :
  Forall (fun t => t <> [] /\ forallb (fun c => negb (isspace c)) t = true)
         (split s).
Proof. apply split_from_tokens. reflexivity. Qed.

End Splitting.

(** ** Sequencing of effects *)

Section Effects.

Lemma bind_ret_l {A B : Type} (a : A) (k : A -> io B) : bind (ret a) k = k a.
Proof. unfold bind, ret. destruct (k a). reflexivity. Qed.

Lemma bind_lift_return {A B : Type} (a : A) (k : A -> io B) :
  bind (lift (Return a)) k = k a.
Proof. apply bind_ret_l. Qed.

Lemma bind_lift_raise {A B : Type} (e : exc) (k : A -> io B) :
  bind (lift (Raise e)) k = (Raise e, []).
Proof. reflexivity. Qed.

Lemma bind_returned {A B : Type} (a : A) (out : str) (k : A -> io B) :
  bind (Return a, out) k = (outcome (k a), out ++ stdout (k a)).
Proof. unfold bind, outcome, stdout. destruct (k a). reflexivity. Qed.

Lemma bind_raised {A B : Type} (e : exc) (out : str) (k : A -> io B) :
  bind (Raise e, out) k = (Raise e, out).
Proof. reflexivity. Qed.

Lemma bind_write {B : Type} (s : str) (k : unit -> io B) :
  bind (write s) k = (outcome (k tt), s ++ stdout (k tt)).
Proof. apply bind_returned. Qed.

Lemma bind_print {B : Type} (s : str) (k : unit -> io B) :
  bind (print s) k = (outcome (k tt), s ++ newline ++ stdout (k tt)).
Proof. unfold print. rewrite bind_write, <- app_assoc. reflexivity. Qed.

Lemma bind_assoc {A B C : Type} (m : io A) (k : A -> io B) (h : B -> io C) :
  bind (bind m k) h = bind m (fun a => bind (k a) h).
Proof.
  destruct m as [[a|e] out]; [|reflexivity].
  unfold bind. destruct (k a) as [[b|e] out1]; [|reflexivity].
  destruct (h b) as [r out2]. now rewrite app_assoc.
Qed.

Lemma bind_ext {A B : Type} (m : io A) (k k' : A -> io B) :
  (forall a, k a = k' a) -> bind m k = bind m k'.
Proof.
  intro H. destruct m as [[a|e] out]; [|reflexivity].
  unfold bind. now rewrite H.
Qed.

(** A loop over a concatenation runs the first part, then the second
    from the state the first part left. *)
Lemma for_in_app {S A : Type} (xs ys : list A) (body : S -> A -> io S)
      (s : S) :
  for_in (xs ++ ys) body s = bind (for_in xs body s) (for_in ys body).
Proof.
  revert s. induction xs as [|x xs IH]; intro s; cbn [for_in app].
  - now rewrite bind_ret_l.
  - rewrite bind_assoc. apply bind_ext. intro s'. apply IH.
Qed.

End Effects.

(** ** Dictionaries *)

Section Dictionaries.

Context {K V : Type} `{Hashable K}.
Implicit Types (d : dict K V) (k : K) (v : V).

Lemma key_eqb_refl k : key_eqb k k = true.
Proof. now apply key_eqb_eq. Qed.

Lemma key_eqb_neq k k' : k <> k' -> key_eqb k k' = false.
Proof.
  intro Hne. destruct (key_eqb k k') eqn:E; [|reflexivity].
  apply key_eqb_eq in E. contradiction.
Qed.

Lemma key_eq_dec k k' : {k = k'} + {k <> k'}.
Proof.
  destruct (key_eqb k k') eqn:E.
  - left. now apply key_eqb_eq.
  - right. intro Heq. apply key_eqb_eq in Heq. congruence.
Qed.

(** Assigning to a key that is absent appends the item. *)
Lemma setitem_fresh d k v :
  ~ In k (keys d) -> setitem d k v = d ++ [(k, v)].
Proof.
  induction d as [|[k' v'] d IH]; intro Hk; cbn [setitem app].
  - reflexivity.
  - cbn [keys map fst In] in Hk.
    rewrite key_eqb_neq by tauto.
    f_equal. apply IH. unfold keys. tauto.
Qed.

(** Assigning to a key that is present keeps the keys as they are. *)
Lemma keys_setitem_present d k v :
  In k (keys d) -> keys (setitem d k v) = keys d.
Proof.
  unfold keys.
  induction d as [|[k' v'] d IH]; intro Hk; cbn [setitem map fst].
  - destruct Hk.
  - destruct (key_eqb k' k) eqn:E; cbn [map fst]; [reflexivity|].
    f_equal. apply IH. destruct Hk as [Hk|Hk]; [|exact Hk].
    subst. now rewrite key_eqb_refl in E.
Qed.

Lemma in_keys_setitem d k v k0 :
  In k0 (keys (setitem d k v)) <-> k0 = k \/ In k0 (keys d).
Proof.
  unfold keys.
  induction d as [|[k' v'] d IH]; cbn [setitem map fst In].
  - intuition congruence.
  - destruct (key_eqb k' k) eqn:E; cbn [map fst In].
    + apply key_eqb_eq in E. subst. intuition congruence.
    + rewrite IH. tauto.
Qed.

Lemma NoDup_keys_setitem d k v :
  NoDup (keys d) -> NoDup (keys (setitem d k v)).
Proof.
  intro Hnd. destruct (in_dec key_eq_dec k (keys d)) as [Hin|Hout].
  - now rewrite keys_setitem_present.
  - rewrite setitem_fresh by assumption. unfold keys in *.
    rewrite map_app. cbn [map fst].
    apply NoDup_app; [assumption | repeat constructor; intros [] |].
    intros x Hx [<-|[]]. contradiction.
Qed.

Lemma get_setitem_same d k v default :
  get (setitem d k v) k default = v.
Proof.
  induction d as [|[k' v'] d IH]; cbn [setitem get].
  - now rewrite key_eqb_refl.
  - destruct (key_eqb k' k) eqn:E; cbn [get]; now rewrite E.
Qed.

Lemma get_setitem_other d k v k0 default :
  k0 <> k -> get (setitem d k v) k0 default = get d k0 default.
Proof.
  intro Hne. induction d as [|[k' v'] d IH]; cbn [setitem get].
  - now rewrite key_eqb_neq by congruence.
  - destruct (key_eqb k' k) eqn:E; cbn [get].
    + apply key_eqb_eq in E. subst k'.
      now rewrite (key_eqb_neq k k0) by congruence.
    + now rewrite IH.
Qed.

(** A key that is present is listed with the value [get] finds. *)
Lemma in_items_get d k default :
  In k (keys d) -> In (k, get d k default) (items d).
Proof.
  unfold keys, items.
  induction d as [|[k' v'] d IH]; cbn [map fst In get]; [tauto|].
  intro Hk. destruct (key_eqb k' k) eqn:E.
  - apply key_eqb_eq in E. subst. now left.
  - right. apply IH. destruct Hk as [Hk|Hk]; [|exact Hk].
    subst. now rewrite key_eqb_refl in E.
Qed.

(** With distinct keys an item is what [get] finds under its key. *)
Lemma get_of_item d k v default :
  NoDup (keys d) -> In (k, v) (items d) -> get d k default = v.
Proof.
  unfold keys, items.
  induction d as [|[k' v'] d IH]; cbn [map fst In get]; [tauto|].
  intros Hnd Hin. inversion Hnd as [|? ? Hk' Hnd']; subst.
  destruct Hin as [Heq|Hin].
  - injection Heq as -> ->. now rewrite key_eqb_refl.
  - rewrite key_eqb_neq; [now apply IH|].
    intros ->. apply Hk'. now apply (in_map fst) in Hin.
Qed.

End Dictionaries.

(** ** Counting the words of one file *)

Section CountWords.

Variable fs : filesystem.

Lemma count_words_in_file_eq (filepath : str) :
  count_words_in_file fs filepath
  = (Return (words_of fs filepath), errors_of fs filepath).
Proof.
  unfold count_words_in_file, words_of, errors_of, error_line.
  destruct (open_read fs filepath) as [text|e].
  - rewrite bind_lift_return. cbn. now rewrite len_split.
  - rewrite bind_lift_raise. unfold try_except, is_Exception.
    rewrite bind_print. cbn [ret outcome stdout fst snd].
    now rewrite !app_nil_r, <- !app_assoc.
Qed.

Lemma words_of_nonneg (filepath : str) : 0 <= words_of fs filepath.
Proof.
  unfold words_of. destruct (open_read fs filepath); [|lia].
  apply word_runs_from_nonneg.
Qed.

End CountWords.

(** ** The loop over the directory listing *)

Section Scan.

Variables (fs : filesystem) (directory : str).

Lemma scan_entry_eq (word_counts : list Z) (file_word_map : dict str Z)
      (filename : str) :
  scan_entry fs directory (word_counts, file_word_map) filename
  = if isfile fs (join directory filename)
    then (Return (word_counts ++ [words_of fs (join directory filename)],
                  setitem file_word_map filename
                          (words_of fs (join directory filename))),
          errors_of fs (join directory filename))
    else (Return (word_counts, file_word_map), []).
Proof.
  unfold scan_entry. destruct (isfile fs (join directory filename)).
  - rewrite count_words_in_file_eq, bind_returned. cbn.
    now rewrite app_nil_r.
  - reflexivity.
Qed.

Lemma qualifying_cons (filename : str) (names : list str) :
  qualifying fs directory (filename :: names)
  = if isfile fs (join directory filename)
    then filename :: qualifying fs directory names
    else qualifying fs directory names.
Proof. reflexivity. Qed.

(** The loop in closed form: the counts and the error text are those of
    the qualifying entries in listing order; the mapping holds exactly
    the old keys and the qualifying names, each qualifying name with its
    count. *)
Lemma scan_general (names : list str) :
  forall (word_counts : list Z) (file_word_map : dict str Z),
  exists file_word_map' : dict str Z,
    for_in names (scan_entry fs directory) (word_counts, file_word_map)
    = (Return (word_counts ++ scan_counts fs directory names,
               file_word_map'),
       scan_errors fs directory names)
    /\ (forall k, In k (keys file_word_map')
                  <-> In k (keys file_word_map)
                      \/ In k (qualifying fs directory names))
    /\ (forall k default,
          In k (qualifying fs directory names) ->
          get file_word_map' k default
          = words_of fs (join directory k))
    /\ (forall k default,
          ~ In k (qualifying fs directory names) ->
          get file_word_map' k default
          = get file_word_map k default).
Proof.
  unfold scan_counts, scan_errors.
  induction names as [|n names IH]; intros wcs m.
  - exists m. cbn. rewrite app_nil_r. intuition.
  - cbn [for_in]. rewrite scan_entry_eq, qualifying_cons.
    destruct (isfile fs (join directory n)) eqn:Hn.
    + destruct (IH (wcs ++ [words_of fs (join directory n)])
                   (setitem m n (words_of fs (join directory n))))
        as (m' & Hrun & Hkeys & Hin & Hout).
      exists m'. rewrite bind_returned, Hrun.
      cbn [outcome stdout fst snd map concat].
      rewrite <- app_assoc. cbn [app].
      split; [reflexivity|]. split; [|split].
      * intro k. rewrite Hkeys, in_keys_setitem. cbn [In].
        intuition congruence.
      * intros k default Hk.
        destruct (in_dec key_eq_dec k
                         (qualifying fs directory names)) as [Hq|Hq].
        -- now apply Hin.
        -- destruct Hk as [<-|Hk]; [|contradiction].
           rewrite Hout by assumption. apply get_setitem_same.
      * intros k default Hk. cbn [In] in Hk.
        rewrite Hout by tauto. apply get_setitem_other. intuition.
    + rewrite bind_returned.
      destruct (IH wcs m) as (m' & Hrun & Hrest).
      exists m'. rewrite Hrun. split; [reflexivity | exact Hrest].
Qed.

Lemma qualifying_incl (names : list str) (k : str) :
  In k (qualifying fs directory names) -> In k names.
Proof. unfold qualifying. rewrite filter_In. tauto. Qed.

Lemma NoDup_qualifying (names : list str) :
  NoDup names -> NoDup (qualifying fs directory names).
Proof. apply NoDup_filter. Qed.

(** With distinct names, none of them a key yet, every assignment adds
    an item at the end of the mapping. *)
Lemma scan_distinct (names : list str) :
  forall (word_counts : list Z) (file_word_map : dict str Z),
    NoDup names ->
    (forall k, In k names -> ~ In k (keys file_word_map)) ->
    for_in names (scan_entry fs directory) (word_counts, file_word_map)
    = (Return (word_counts ++ scan_counts fs directory names,
               file_word_map ++ scan_items fs directory names),
       scan_errors fs directory names).
Proof.
  unfold scan_counts, scan_items, scan_errors.
  induction names as [|n names IH]; intros wcs m Hnd Hfresh.
  - cbn. now rewrite !app_nil_r.
  - inversion Hnd as [|? ? Hn Hnd']; subst.
    cbn [for_in]. rewrite scan_entry_eq, qualifying_cons.
    destruct (isfile fs (join directory n)) eqn:Hf.
    + rewrite bind_returned, IH; cbn [outcome stdout fst snd map concat].
      * rewrite setitem_fresh by (apply Hfresh; now left).
        now rewrite <- !app_assoc.
      * assumption.
      * intros k Hk. rewrite in_keys_setitem.
        intros [->|Hk']; [contradiction|].
        apply (Hfresh k); [now right | assumption].
    + rewrite bind_returned, IH; cbn [outcome stdout fst snd];
        [reflexivity | assumption |].
      intros k Hk. apply Hfresh. now right.
Qed.

Lemma values_scan_items (names : list str) :
  values (scan_items fs directory names) = scan_counts fs directory names.
Proof.
  unfold values, scan_items, scan_counts. rewrite map_map. reflexivity.
Qed.

Lemma keys_scan_items (names : list str) :
  keys (scan_items fs directory names) = qualifying fs directory names.
Proof.
  unfold keys, scan_items. rewrite map_map. cbn. apply map_id.
Qed.

Lemma analyze_listed (names : list str) :
  listdir fs directory = Return names ->
  analyze_directory_word_counts fs directory
  = bind (for_in names (scan_entry fs directory) ([], [])) report.
Proof.
  intro H. unfold analyze_directory_word_counts.
  now rewrite H, bind_lift_return.
Qed.

Lemma analyze_listdir_raises (e : exc) :
  listdir fs directory = Raise e ->
  analyze_directory_word_counts fs directory = (Raise e, []).
Proof.
  intro H. unfold analyze_directory_word_counts.
  now rewrite H, bind_lift_raise.
Qed.

End Scan.

(** ** Stripping white space *)

Section Stripping.

Lemma lstrip_all_space (w : str) : forallb isspace w = true -> lstrip w = [].
Proof.
  induction w as [|c w IH]; cbn [forallb lstrip]; [reflexivity|].
  intro H. apply andb_true_iff in H as [-> Hw]. auto.
Qed.

Lemma lstrip_space_app (w s : str) :
  forallb isspace w = true -> lstrip (w ++ s) = lstrip s.
Proof.
  induction w as [|c w IH]; cbn [forallb lstrip app]; [reflexivity|].
  intro H. apply andb_true_iff in H as [-> Hw]. auto.
Qed.

Lemma forallb_rev {A : Type} (f : A -> bool) (l : list A) :
  forallb f l = true -> forallb f (rev l) = true.
Proof.
  rewrite !forallb_forall. intros H x Hx. apply H. now apply in_rev.
Qed.

Lemma rstrip_app_space (s w : str) :
  forallb isspace w = true -> rstrip (s ++ w) = rstrip s.
Proof.
  intro H. unfold rstrip. rewrite rev_app_distr.
  rewrite lstrip_space_app by now apply forallb_rev. reflexivity.
Qed.

Lemma strip_app_space (s w : str) :
  forallb isspace w = true -> strip (s ++ w) = strip s.
Proof.
  intro H. unfold strip.
  induction s as [|c s IH]; cbn [lstrip app].
  - now rewrite lstrip_all_space.
  - destruct (isspace c); [exact IH|].
    now rewrite app_comm_cons, rstrip_app_space.
Qed.

Lemma strip_surrounded (w1 p w2 : str) :
  forallb isspace w1 = true -> forallb isspace w2 = true ->
  strip (w1 ++ p ++ w2) = strip p.
Proof.
  intros H1 H2. unfold strip at 1. rewrite lstrip_space_app by assumption.
  now apply strip_app_space.
Qed.

End Stripping.

(** ** Which entries are kept *)

Section Entries.

Variable fs : filesystem.

Lemma isfile_true_iff (path : str) :
  isfile fs path = true <-> resolves_to_regular fs path.
Proof.
  unfold isfile, resolves_to_regular.
  destruct (stat fs path) as [[c|l| |t]|]; split;
    try discriminate; try reflexivity; try (intros [c' H]; discriminate).
  intros _. now exists c.
Qed.

Lemma stat_not_link (path : str) (n : node) :
  lookup fs path = Some n ->
  (forall target, n <> Symlink target) ->
  stat fs path = Some n.
Proof.
  intros H Hn. unfold stat. cbn [follow]. rewrite H.
  destruct n; try reflexivity. now elim (Hn target).
Qed.

Lemma stat_link (path target : str) :
  lookup fs path = Some (Symlink target) ->
  stat fs path = follow 39 fs target.
Proof. intro H. unfold stat. cbn [follow]. now rewrite H. Qed.

Lemma stat_missing (path : str) : lookup fs path = None -> stat fs path = None.
Proof. intro H. unfold stat. cbn [follow]. now rewrite H. Qed.

Lemma isfile_directory (path : str) (listing : result (list str)) :
  lookup fs path = Some (Directory listing) -> isfile fs path = false.
Proof.
  intro H. unfold isfile. rewrite (stat_not_link _ _ H); [reflexivity|].
  discriminate.
Qed.

Lemma isfile_special (path : str) :
  lookup fs path = Some Special -> isfile fs path = false.
Proof.
  intro H. unfold isfile. rewrite (stat_not_link _ _ H); [reflexivity|].
  discriminate.
Qed.

Lemma isfile_link (path target : str) :
  lookup fs path = Some (Symlink target) ->
  isfile fs path
  = match follow 39 fs target with
    | Some (RegularFile _) => true
    | _ => false
    end.
Proof. intro H. unfold isfile. now rewrite (stat_link _ _ H). Qed.

Lemma scan_counts_skip (directory : str) (l1 l2 : list str) (k : str) :
  isfile fs (join directory k) = false ->
  scan_counts fs directory (l1 ++ k :: l2)
  = scan_counts fs directory (l1 ++ l2).
Proof.
  intro H. unfold scan_counts, qualifying.
  rewrite !filter_app. cbn [filter]. now rewrite H.
Qed.

End Entries.

(** ** [statistics.mode] *)

Section Mode.

Import statistics.

Lemma Counter_fold (data : list Z) : Counter data = fold_left count_step data [].
Proof. reflexivity. Qed.

(** Counting [data] into a table [c0]: the keys stay distinct, they are
    the old keys and the values met, and each count grows by the number
    of occurrences. *)
Lemma fold_count_step (data : list Z) :
  forall c0 : dict Z Z,
    NoDup (keys c0) ->
    let c := fold_left count_step data c0 in
    NoDup (keys c)
    /\ (forall k, In k (keys c) <-> In k (keys c0) \/ In k data)
    /\ (forall k, get c k 0 = get c0 k 0 + occurrences data k).
Proof.
  unfold occurrences.
  induction data as [|x data IH]; intros c0 Hnd; cbn [fold_left].
  - cbn. repeat split; try tauto; lia.
  - destruct (IH (count_step c0 x)) as (H1 & H2 & H3).
    { now apply NoDup_keys_setitem. }
    split; [exact H1|]. split.
    + intro k. rewrite H2. unfold count_step. rewrite in_keys_setitem.
      cbn [In]. intuition.
    + intro k. rewrite H3. unfold count_step. cbn [count_occ].
      destruct (Z.eq_dec x k) as [->|Hne].
      * rewrite get_setitem_same. lia.
      * rewrite get_setitem_other by congruence. lia.
Qed.

Lemma Counter_spec (data : list Z) :
  NoDup (keys (Counter data))
  /\ (forall k, In k (keys (Counter data)) <-> In k data)
  /\ (forall k c, In (k, c) (items (Counter data)) ->
                  c = occurrences data k).
Proof.
  destruct (fold_count_step data [] (NoDup_nil _)) as (H1 & H2 & H3).
  rewrite <- Counter_fold in *.
  split; [exact H1|]. split.
  - intro k. rewrite H2. cbn. tauto.
  - intros k c Hin. rewrite <- (get_of_item _ _ _ 0 H1 Hin), H3.
    reflexivity.
Qed.

(** The item [max] returns is one of the items, and no item has a
    greater count. *)
Lemma max_by_count_spec (rest : list (Z * Z)) :
  forall best : Z * Z,
    In (max_by_count best rest) (best :: rest)
    /\ forall item, In item (best :: rest) ->
                    snd item <= snd (max_by_count best rest).
Proof.
  unfold max_by_count.
  induction rest as [|x rest IH]; intro best; cbn [fold_left].
  - split; [now left|]. intros item [<-|[]]. lia.
  - destruct (IH (if snd best <? snd x then x else best)) as [Hin Hmax].
    split.
    + destruct Hin as [Hin|Hin]; [|right; now right].
      rewrite <- Hin. destruct (snd best <? snd x); cbn; tauto.
    + intros item Hitem.
      assert (Hb : snd best <= snd (if snd best <? snd x then x else best)
                   /\ snd x <= snd (if snd best <? snd x then x else best)).
      { destruct (Z.ltb_spec (snd best) (snd x)); lia. }
      pose proof (Hmax _ (or_introl eq_refl)) as Hge.
      destruct Hitem as [<-|[<-|Hitem]]; try lia.
      apply Hmax. now right.
Qed.

(** On data that is not empty [mode] returns one of the values: it never
    raises. *)
Lemma mode_returns (x : Z) (data : list Z) :
  exists v, mode (x :: data) = Return v /\ In v (x :: data).
Proof.
  unfold mode, most_common_1.
  destruct (Counter_spec (x :: data)) as (_ & Hkeys & _).
  remember (Counter (x :: data)) as c eqn:Ec.
  destruct c as [|item rest].
  - exfalso. apply (proj2 (Hkeys x)). now left.
  - exists (fst (max_by_count item rest)). split; [reflexivity|].
    apply Hkeys. unfold keys. apply in_map.
    apply max_by_count_spec.
Qed.

(** A value that occurs strictly more often than every other value is
    the mode. *)
Lemma mode_strict_majority (data : list Z) (v : Z) :
  In v data ->
  (forall u, u <> v -> occurrences data u < occurrences data v) ->
  mode data = Return v.
Proof.
  intros Hv Hmax. unfold mode, most_common_1.
  destruct (Counter_spec data) as (Hnd & Hkeys & Hcount).
  remember (Counter data) as c eqn:Ec.
  destruct c as [|item rest].
  - exfalso. now apply (proj2 (Hkeys v)).
  - destruct (max_by_count_spec rest item) as [Hin Hge].
    set (r := max_by_count item rest) in *.
    cbn [fst]. f_equal.
    destruct (Z.eq_dec (fst r) v) as [E|Hne]; [exact E|exfalso].
    apply Hkeys in Hv. unfold keys in Hv. apply in_map_iff in Hv.
    destruct Hv as ([v' cv] & Hfst & Hvin). cbn in Hfst. subst v'.
    pose proof (Hcount _ _ Hvin) as Hcv.
    pose proof (Hge _ Hvin) as Hle. cbn [snd] in Hle.
    destruct r as [u cu]. cbn [fst snd] in *.
    pose proof (Hcount _ _ Hin) as Hcu.
    specialize (Hmax u Hne). lia.
Qed.

(** What [mode] returns occurs at least as often as every value. *)
Lemma mode_most_frequent (data : list Z) (v : Z) :
  mode data = Return v ->
  In v data /\ forall u, occurrences data u <= occurrences data v.
Proof.
  unfold mode, most_common_1.
  destruct (Counter_spec data) as (Hnd & Hkeys & Hcount).
  remember (Counter data) as c eqn:Ec.
  destruct c as [|item rest]; [discriminate|].
  destruct (max_by_count_spec rest item) as [Hin Hge].
  set (r := max_by_count item rest) in *.
  intro Hv. injection Hv as <-.
  assert (Hr : snd r = occurrences data (fst r)).
  { apply Hcount. now destruct r. }
  split.
  - apply Hkeys. unfold keys. now apply in_map.
  - intro u. rewrite <- Hr.
    destruct (in_dec Z.eq_dec u data) as [Hu|Hu].
    + apply Hkeys in Hu. unfold keys in Hu. apply in_map_iff in Hu.
      destruct Hu as ([u' cu] & Hfst & Huin). cbn in Hfst. subst u'.
      rewrite <- (Hcount _ _ Huin). apply (Hge _ Huin).
    + unfold occurrences at 1.
      rewrite (proj1 (count_occ_not_In Z.eq_dec data u) Hu).
      rewrite Hr. unfold occurrences. lia.
Qed.

(** With the [mode] of Python 3.8 and later the handler never runs on
    data that is not empty: an int is reported, never the marker. *)
Lemma mode_or_marker_reports_value (x : Z) (data : list Z) :
  exists v, mode_or_marker mode (x :: data) = (Return (ModeInt v), [])
            /\ In v (x :: data).
Proof.
  destruct (mode_returns x data) as (v & Hv & Hin).
  exists v. split; [|exact Hin].
  unfold mode_or_marker. now rewrite Hv.
Qed.

(** The handler does set the marker when [mode] raises
    [StatisticsError]. *)
Lemma handler_sets_marker (mode : list Z -> result Z) (data : list Z)
      (msg : str) :
  mode data = Raise (Exc StatisticsError msg) ->
  mode_or_marker mode data = (Return (ModeStr no_unique_mode), []).
Proof. intro H. unfold mode_or_marker. now rewrite H. Qed.

(** *** The older [mode] *)

Lemma insert_by_count_perm (x : Z * Z) (l : list (Z * Z)) :
  Permutation (insert_by_count x l) (x :: l).
Proof.
  induction l as [|y l IH]; cbn [insert_by_count]; [reflexivity|].
  destruct (snd y <=? snd x); [reflexivity|].
  rewrite IH. apply perm_swap.
Qed.

Lemma most_common_perm (c : list (Z * Z)) : Permutation (most_common c) c.
Proof.
  induction c as [|x c IH]; cbn [most_common fold_right]; [reflexivity|].
  fold (most_common c). now rewrite insert_by_count_perm, IH.
Qed.

Lemma insert_by_count_ordered (x : Z * Z) (l : list (Z * Z)) :
  Sorted by_count_desc l -> Sorted by_count_desc (insert_by_count x l).
Proof.
  unfold by_count_desc.
  induction 1 as [|y l Hl IH Hhd]; cbn [insert_by_count].
  - repeat constructor.
  - destruct (Z.leb_spec (snd y) (snd x)) as [Hxy|Hxy].
    + repeat constructor; assumption.
    + constructor; [exact IH|].
      destruct l as [|z l]; cbn [insert_by_count].
      * constructor. lia.
      * inversion Hhd; subst.
        destruct (snd z <=? snd x); constructor; lia.
Qed.

Lemma most_common_ordered (c : list (Z * Z)) :
  StronglySorted by_count_desc (most_common c).
Proof.
  apply Sorted_StronglySorted.
  - intros a b d. unfold by_count_desc. lia.
  - induction c as [|x c IH]; cbn [most_common fold_right]; [constructor|].
    now apply insert_by_count_ordered.
Qed.

(** In a table ordered by decreasing count, an item of count [maxfreq]
    under a head of count [maxfreq] puts the head of the rest into the
    prefix kept by [_counts]. *)
Lemma same_count_prefix_nonempty (maxfreq : Z) (rest : list (Z * Z))
      (item : Z * Z) :
  StronglySorted by_count_desc rest ->
  (forall x, In x rest -> snd x <= maxfreq) ->
  In item rest -> snd item = maxfreq ->
  same_count_prefix maxfreq rest <> [].
Proof.
  intros Hs Hmax Hin Hitem.
  destruct rest as [|y rest]; [destruct Hin|].
  cbn [same_count_prefix].
  assert (Hy : snd y = maxfreq).
  { pose proof (Hmax y (or_introl eq_refl)) as Hle.
    inversion Hs as [|? ? _ Hall]; subst.
    destruct Hin as [<-|Hin]; [reflexivity|].
    rewrite Forall_forall in Hall. specialize (Hall _ Hin).
    unfold by_count_desc in Hall. lia. }
  rewrite Hy, Z.eqb_refl. discriminate.
Qed.

Lemma same_count_prefix_empty (maxfreq : Z) (rest : list (Z * Z)) :
  (forall x, In x rest -> snd x < maxfreq) ->
  same_count_prefix maxfreq rest = [].
Proof.
  intro Hlt. destruct rest as [|y rest]; [reflexivity|].
  cbn [same_count_prefix].
  pose proof (Hlt y (or_introl eq_refl)).
  destruct (Z.eqb_spec (snd y) maxfreq); [lia | reflexivity].
Qed.

(** Before Python 3.8 a tie for the greatest count made [mode] raise
    [StatisticsError], and the program reported the marker. *)
Lemma tie_gave_marker_before_38 (data : list Z) (u v : Z) :
  u <> v -> In u data -> In v data ->
  occurrences data u = occurrences data v ->
  (forall w, occurrences data w <= occurrences data v) ->
  mode_or_marker mode_before_38 data
  = (Return (ModeStr no_unique_mode), []).
Proof.
  intros Huv Hu Hv Heq Hmax.
  destruct (Counter_spec data) as (Hnd & Hkeys & Hcount).
  assert (Hitem : forall w, In w data ->
                            In (w, occurrences data w) (most_common (Counter data))).
  { intros w Hw. apply (Permutation_in _ (Permutation_sym (most_common_perm _))).
    apply Hkeys in Hw. unfold keys in Hw. apply in_map_iff in Hw.
    destruct Hw as ([w' c] & Hfst & Hin). cbn in Hfst. subst w'.
    now rewrite <- (Hcount _ _ Hin). }
  assert (Hle : forall x, In x (most_common (Counter data)) ->
                          snd x <= occurrences data v).
  { intros [w c] Hin. apply (Permutation_in _ (most_common_perm _)) in Hin.
    rewrite (Hcount _ _ Hin). apply Hmax. }
  pose proof (most_common_ordered (Counter data)) as Hs.
  pose proof (Hitem u Hu) as Hiu. pose proof (Hitem v Hv) as Hiv.
  assert (Hraise : exists msg,
             mode_before_38 data = Raise (Exc StatisticsError msg)).
  { unfold mode_before_38, _counts.
    destruct (most_common (Counter data)) as [|first rest];
      [destruct Hiv|].
    inversion Hs as [|? ? Hrest Hall]; subst.
    rewrite Forall_forall in Hall. unfold by_count_desc in Hall.
    assert (Hfirst : snd first = occurrences data v).
    { pose proof (Hle first (or_introl eq_refl)).
      destruct Hiv as [E|Hiv]; [now rewrite E|].
      specialize (Hall _ Hiv). cbn [snd] in Hall. lia. }
    assert (Hne : same_count_prefix (snd first) rest <> []).
    { rewrite Hfirst.
      destruct Hiu as [Efu|Hiu]; [destruct Hiv as [Efv|Hiv]|].
      - congruence.
      - eapply same_count_prefix_nonempty; [exact Hrest| |exact Hiv|reflexivity].
        intros x Hx. apply Hle. now right.
      - eapply same_count_prefix_nonempty; [exact Hrest| |exact Hiu|].
        + intros x Hx. apply Hle. now right.
        + cbn [snd]. exact Heq. }
    destruct (same_count_prefix (snd first) rest); [contradiction|].
    eexists. reflexivity. }
  destruct Hraise as [msg Hraise].
  now apply (handler_sets_marker _ _ msg).
Qed.

(** Before and after, a strictly most frequent value is the mode. *)
Lemma strict_majority_before_38 (data : list Z) (v : Z) :
  In v data ->
  (forall u, u <> v -> occurrences data u < occurrences data v) ->
  mode_before_38 data = Return v.
Proof.
  intros Hv Hmax.
  destruct (Counter_spec data) as (Hnd & Hkeys & Hcount).
  pose proof (most_common_perm (Counter data)) as Hp.
  pose proof (most_common_ordered (Counter data)) as Hs.
  assert (Hiv : In (v, occurrences data v) (most_common (Counter data))).
  { apply (Permutation_in _ (Permutation_sym Hp)).
    apply Hkeys in Hv. unfold keys in Hv. apply in_map_iff in Hv.
    destruct Hv as ([v' c] & Hfst & Hin). cbn in Hfst. subst v'.
    now rewrite <- (Hcount _ _ Hin). }
  assert (Hother : forall x, In x (most_common (Counter data)) ->
                             x = (v, occurrences data v)
                             \/ snd x < occurrences data v).
  { intros [w c] Hin. apply (Permutation_in _ Hp) in Hin.
    rewrite (Hcount _ _ Hin).
    destruct (Z.eq_dec w v) as [->|Hne]; [now left | right].
    now apply Hmax. }
  assert (Hndt : NoDup (most_common (Counter data))).
  { apply (Permutation_NoDup (Permutation_sym Hp)).
    apply (NoDup_map_inv fst). exact Hnd. }
  unfold mode_before_38, _counts.
  destruct (most_common (Counter data)) as [|first rest]; [destruct Hiv|].
  inversion Hs as [|? ? Hrest Hall]; subst.
  rewrite Forall_forall in Hall. unfold by_count_desc in Hall.
  inversion Hndt as [|? ? Hnotin _]; subst.
  assert (Hfirst : first = (v, occurrences data v)).
  { destruct Hiv as [E|Hiv]; [exact E|].
    destruct (Hother first (or_introl eq_refl)) as [E|Hlt]; [exact E|].
    specialize (Hall _ Hiv). cbn [snd] in Hall. lia. }
  rewrite same_count_prefix_empty.
  - now rewrite Hfirst.
  - intros x Hx. destruct (Hother x (or_intror Hx)) as [E|Hlt].
    + exfalso. apply Hnotin. now rewrite Hfirst, <- E.
    + now rewrite Hfirst.
Qed.

End Mode.

(** ** Rounding to binary64 *)

Section Rounding.

Lemma pow2_num_pos (e : Z) : 0 < pow2_num e.
Proof. unfold pow2_num. apply Z.pow_pos_nonneg; lia. Qed.

Lemma pow2_den_pos (e : Z) : 0 < pow2_den e.
Proof. unfold pow2_den. apply Z.pow_pos_nonneg; lia. Qed.

Lemma pow2_of_nonneg (e : Z) :
  0 <= e -> pow2_num e = 2 ^ e /\ pow2_den e = 1.
Proof.
  intro H. unfold pow2_num, pow2_den.
  rewrite Z.max_r, Z.max_l by lia. auto.
Qed.

Lemma pow2_of_nonpos (e : Z) :
  e <= 0 -> pow2_num e = 1 /\ pow2_den e = 2 ^ (- e).
Proof.
  intro H. unfold pow2_num, pow2_den.
  rewrite Z.max_l, Z.max_r by lia. auto.
Qed.

(** [2^(e+k) = 2^k * 2^e], on the fractions. *)
Lemma pow2_shift (e k : Z) :
  0 <= k ->
  pow2_num (e + k) * pow2_den e = 2 ^ k * pow2_num e * pow2_den (e + k).
Proof.
  intro Hk.
  destruct (Z.le_gt_cases 0 e) as [He|He].
  - destruct (pow2_of_nonneg e He) as [-> ->].
    destruct (pow2_of_nonneg (e + k)) as [-> ->]; [lia|].
    rewrite Z.pow_add_r by lia. ring.
  - destruct (pow2_of_nonpos e) as [-> ->]; [lia|].
    destruct (Z.le_gt_cases 0 (e + k)) as [Hek|Hek].
    + destruct (pow2_of_nonneg (e + k) Hek) as [-> ->].
      rewrite <- Z.pow_add_r by lia.
      replace (e + k + - e) with k by lia. ring.
    + destruct (pow2_of_nonpos (e + k)) as [-> ->]; [lia|].
      replace (2 ^ k * 1 * 2 ^ (- (e + k))) with (2 ^ k * 2 ^ (- (e + k)))
        by ring.
      rewrite <- Z.pow_add_r by lia.
      replace (k + - (e + k)) with (- e) by lia. ring.
Qed.

Lemma scale2_eq (p q e : Z) :
  scale2 p q e = (p * pow2_den e, q * pow2_num e).
Proof.
  unfold scale2. destruct (Z.leb_spec 0 e) as [He|He].
  - destruct (pow2_of_nonneg e He) as [-> ->]. f_equal. ring.
  - destruct (pow2_of_nonpos e) as [-> ->]; [lia|]. f_equal. ring.
Qed.

(** *** Rounding to the nearest integer *)

Lemma round_half_even_cases (p q : Z) :
  0 < q ->
  (round_half_even p q = p / q /\ 2 * (p mod q) <= q)
  \/ (round_half_even p q = p / q + 1 /\ q <= 2 * (p mod q)).
Proof.
  intro Hq. unfold round_half_even.
  destruct (Z.compare_spec (2 * (p mod q)) q) as [E|E|E].
  - destruct (Z.even (p / q)); [left | right]; split; lia.
  - left. split; lia.
  - right. split; lia.
Qed.

(** The result is within one half of [p / q]. *)
Lemma round_half_even_bound (p q : Z) :
  0 < q ->
  - q <= 2 * (round_half_even p q * q - p) <= q.
Proof.
  intro Hq.
  pose proof (Z.div_mod p q ltac:(lia)) as Hdm.
  pose proof (Z.mod_pos_bound p q Hq) as Hr.
  destruct (round_half_even_cases p q Hq) as [[-> H]|[-> H]]; nia.
Qed.

Lemma round_half_even_exact (k q : Z) :
  0 < q -> round_half_even (k * q) q = k.
Proof.
  intro Hq. unfold round_half_even.
  rewrite Z.mod_mul, Z.div_mul by lia.
  destruct (Z.compare_spec (2 * 0) q); lia.
Qed.

(** Rounding is monotone with respect to integers. *)
Lemma round_half_even_ge (p q k : Z) :
  0 < q -> k * q <= p -> k <= round_half_even p q.
Proof.
  intros Hq H.
  pose proof (Z.div_mod p q ltac:(lia)) as Hdm.
  pose proof (Z.mod_pos_bound p q Hq) as Hr.
  destruct (round_half_even_cases p q Hq) as [[-> _]|[-> _]]; nia.
Qed.

Lemma round_half_even_le (p q k : Z) :
  0 < q -> p <= k * q -> round_half_even p q <= k.
Proof.
  intros Hq H.
  pose proof (Z.div_mod p q ltac:(lia)) as Hdm.
  pose proof (Z.mod_pos_bound p q Hq) as Hr.
  destruct (round_half_even_cases p q Hq) as [[-> _]|[-> Hh]]; nia.
Qed.

(** *** The binary exponent *)

Lemma floor_log2_range (p q : Z) :
  Z.log2 p - Z.log2 q - 1 <= floor_log2 p q <= Z.log2 p - Z.log2 q.
Proof.
  unfold floor_log2. destruct (scale2 p q (Z.log2 p - Z.log2 q)) as [p' q'].
  destruct (q' <=? p'); lia.
Qed.

(** [2^a / 2^b = 2^(a-b)] on the fractions. *)
Lemma pow2_quotient (a b : Z) :
  0 <= a -> 0 <= b -> 2 ^ a * pow2_den (a - b) = 2 ^ b * pow2_num (a - b).
Proof.
  intros Ha Hb. destruct (Z.le_gt_cases 0 (a - b)) as [Hd|Hd].
  - destruct (pow2_of_nonneg _ Hd) as [-> ->].
    rewrite <- Z.pow_add_r by lia. replace (b + (a - b)) with a by lia. ring.
  - destruct (pow2_of_nonpos (a - b)) as [-> ->]; [lia|].
    rewrite <- Z.pow_add_r by lia. replace (a + - (a - b)) with b by lia.
    ring.
Qed.

(** [2^l <= p / q < 2^(l+1)] for [l = floor_log2 p q]. *)
Lemma floor_log2_spec (p q : Z) :
  0 < p -> 0 < q ->
  q * pow2_num (floor_log2 p q) <= p * pow2_den (floor_log2 p q)
  /\ p * pow2_den (floor_log2 p q) < 2 * q * pow2_num (floor_log2 p q).
Proof.
  intros Hp Hq. unfold floor_log2. rewrite scale2_eq.
  set (a := Z.log2 p). set (b := Z.log2 q). set (d := a - b).
  pose proof (Z.log2_spec p Hp) as [Hpl Hpu].
  pose proof (Z.log2_spec q Hq) as [Hql Hqu].
  fold a in Hpl, Hpu. fold b in Hql, Hqu.
  pose proof (Z.log2_nonneg p) as Ha. pose proof (Z.log2_nonneg q) as Hb.
  fold a in Ha. fold b in Hb.
  replace (Z.succ a) with (a + 1) in Hpu by lia.
  replace (Z.succ b) with (b + 1) in Hqu by lia.
  rewrite Z.pow_add_r in Hpu, Hqu by lia. change (2 ^ 1) with 2 in *.
  pose proof (pow2_quotient a b Ha Hb) as Hk. fold d in Hk.
  pose proof (pow2_num_pos d) as HU. pose proof (pow2_den_pos d) as HD.
  assert (Hpa : 0 < 2 ^ a) by (apply Z.pow_pos_nonneg; lia).
  assert (Hpb : 0 < 2 ^ b) by (apply Z.pow_pos_nonneg; lia).
  destruct (Z.leb_spec (q * pow2_num d) (p * pow2_den d)) as [Ht|Ht].
  - split; [exact Ht|]. nia.
  - pose proof (pow2_shift (d - 1) 1 ltac:(lia)) as Hs.
    replace (d - 1 + 1) with d in Hs by lia. change (2 ^ 1) with 2 in Hs.
    pose proof (pow2_num_pos (d - 1)) as HU1.
    pose proof (pow2_den_pos (d - 1)) as HD1.
    set (U := pow2_num d) in *. set (D := pow2_den d) in *.
    set (U1 := pow2_num (d - 1)) in *. set (D1 := pow2_den (d - 1)) in *.
    set (A := 2 ^ a) in *. set (B := 2 ^ b) in *.
    split.
    + (* q * U1 <= p * D1 *)
      apply Z.lt_le_incl.
      apply (Zmult_lt_reg_r _ _ D HD).
      assert (H1 : q * U1 * D < 2 * B * U1 * D) by nia.
      assert (H2 : 2 * B * U1 * D = A * D * D1) by nia.
      assert (H3 : A * D * D1 <= p * D1 * D) by nia.
      lia.
    + apply (Zmult_lt_reg_r _ _ D HD).
      assert (H1 : p * D1 * D < q * U * D1) by nia.
      assert (H2 : q * U * D1 = 2 * q * U1 * D) by nia.
      lia.
Qed.

(** Dividing by a larger power of two keeps a strict upper bound. *)
Lemma frac_lt_shift (p q c e k : Z) :
  0 < q -> 0 < c -> 0 <= p -> 0 <= k ->
  p * pow2_den e < c * q * pow2_num e ->
  p * pow2_den (e + k) < c * q * pow2_num (e + k).
Proof.
  intros Hq Hc Hp Hk H.
  pose proof (pow2_shift e k Hk) as Hs.
  pose proof (pow2_num_pos e) as HU. pose proof (pow2_den_pos e) as HD.
  pose proof (pow2_num_pos (e + k)) as HU'.
  pose proof (pow2_den_pos (e + k)) as HD'.
  assert (H2k : 1 <= 2 ^ k)
    by (pose proof (Z.pow_pos_nonneg 2 k ltac:(lia) Hk); lia).
  set (U := pow2_num e) in *. set (D := pow2_den e) in *.
  set (U' := pow2_num (e + k)) in *. set (D' := pow2_den (e + k)) in *.
  set (T := 2 ^ k) in *.
  apply (Zmult_lt_reg_r _ _ D HD).
  assert (H1 : p * D' * D < c * q * U * D') by nia.
  assert (H2 : c * q * U * D' <= c * q * (T * U * D')) by nia.
  assert (H3 : c * q * (T * U * D') = c * q * U' * D) by nia.
  lia.
Qed.

(** *** The nearest float *)

(** How [round_binary64] arrives at its result: the exponent [e0], the
    rounded mantissa [m0], and the carry into the next exponent when the
    mantissa rounds up to [2^53]. *)
Lemma round_binary64_steps (p q m e : Z) :
  round_binary64 p q = Some (m, e) ->
  let e0 := Z.max (floor_log2 p q - 52) (-1074) in
  let m0 := round_half_even (p * pow2_den e0) (q * pow2_num e0) in
  ((m0 = 2 ^ 53 /\ m = 2 ^ 52 /\ e = e0 + 1)
   \/ (m0 <> 2 ^ 53 /\ m = m0 /\ e = e0))
  /\ e <= 971.
Proof.
  unfold round_binary64. rewrite scale2_eq. cbv zeta.
  set (e0 := Z.max (floor_log2 p q - 52) (-1074)).
  set (m0 := round_half_even (p * pow2_den e0) (q * pow2_num e0)).
  destruct (Z.eqb_spec m0 (2 ^ 53)) as [E|E].
  - destruct (Z.ltb_spec 971 (e0 + 1)) as [Hov|Hov]; [discriminate|].
    intro Hsome. injection Hsome as <- <-. split; [left; auto | lia].
  - destruct (Z.ltb_spec 971 e0) as [Hov|Hov]; [discriminate|].
    intro Hsome. injection Hsome as <- <-. split; [right; auto | lia].
Qed.

(** The float returned lies within half a unit in the last place of
    [p / q]; its mantissa has at most 53 bits, and exactly 53 unless the
    result is subnormal. *)
Lemma round_binary64_spec (p q m e : Z) :
  0 < p -> 0 < q ->
  round_binary64 p q = Some (m, e) ->
  - (q * pow2_num e) <= 2 * (m * q * pow2_num e - p * pow2_den e)
                     <= q * pow2_num e
  /\ 0 <= m < 2 ^ 53
  /\ -1074 <= e <= 971
  /\ (-1074 <= floor_log2 p q - 52 ->
      2 ^ 52 <= m
      /\ floor_log2 p q - 52 <= e <= floor_log2 p q - 51).
Proof.
  intros Hp Hq Hr.
  destruct (round_binary64_steps _ _ _ _ Hr) as [Hcase He].
  cbv zeta in Hcase.
  set (l := floor_log2 p q) in *.
  set (e0 := Z.max (l - 52) (-1074)) in *.
  pose proof (pow2_num_pos e0) as HU0. pose proof (pow2_den_pos e0) as HD0.
  set (m0 := round_half_even (p * pow2_den e0) (q * pow2_num e0)) in *.
  assert (Hq0 : 0 < q * pow2_num e0) by nia.
  pose proof (round_half_even_bound (p * pow2_den e0) _ Hq0) as Herr.
  fold m0 in Herr.
  destruct (floor_log2_spec p q Hp Hq) as [Hlo Hhi]. fold l in Hlo, Hhi.
  (* the scaled value is below 2^53 *)
  assert (Hup : p * pow2_den e0 < 2 ^ 53 * q * pow2_num e0).
  { pose proof (pow2_shift (l - 52) 52 ltac:(lia)) as Hs.
    replace (l - 52 + 52) with l in Hs by lia.
    pose proof (pow2_num_pos l). pose proof (pow2_den_pos l).
    pose proof (pow2_num_pos (l - 52)) as HU1.
    pose proof (pow2_den_pos (l - 52)) as HD1.
    assert (H1 : p * pow2_den (l - 52) < 2 ^ 53 * q * pow2_num (l - 52)).
    { apply (Zmult_lt_reg_r _ _ (pow2_den l)); [assumption|].
      change (2 ^ 53) with (2 * 2 ^ 52).
      set (T := 2 ^ 52) in *. nia. }
    replace e0 with (l - 52 + (e0 - (l - 52))) by lia.
    apply frac_lt_shift; lia. }
  assert (Hm0 : 0 <= m0 <= 2 ^ 53).
  { split.
    - apply round_half_even_ge; [assumption | nia].
    - apply round_half_even_le; [assumption | lia]. }
  (* the scaled value is at least 2^52 when the exponent is not clamped *)
  assert (Hnormal : -1074 <= l - 52 -> 2 ^ 52 <= m0 /\ e0 = l - 52).
  { intro Hn. assert (E : e0 = l - 52) by lia. split; [|exact E].
    apply round_half_even_ge; [assumption|].
    pose proof (pow2_shift e0 52 ltac:(lia)) as Hs.
    replace (e0 + 52) with l in Hs by lia.
    pose proof (pow2_num_pos l). pose proof (pow2_den_pos l).
    apply (Zmult_le_reg_r _ _ (pow2_den l)); [lia|].
    set (T := 2 ^ 52) in *. nia. }
  destruct Hcase as [(E53 & -> & ->)|(N53 & -> & ->)].
  - (* carry *)
    pose proof (pow2_shift e0 1 ltac:(lia)) as Hs. change (2 ^ 1) with 2 in Hs.
    pose proof (pow2_num_pos (e0 + 1)) as HU1.
    pose proof (pow2_den_pos (e0 + 1)) as HD1.
    rewrite E53 in Herr. change (2 ^ 53) with (2 * 2 ^ 52) in Herr.
    set (T := 2 ^ 52) in *.
    assert (HT : 0 < T) by (subst T; lia).
    set (U0 := pow2_num e0) in *. set (D0 := pow2_den e0) in *.
    set (U1 := pow2_num (e0 + 1)) in *. set (D1 := pow2_den (e0 + 1)) in *.
    split; [|split; [|split]].
    + assert (Hmul : - (q * U1) * D0
                     <= 2 * (T * q * U1 - p * D1) * D0
                     <= q * U1 * D0).
      { assert (Ha : 2 * (T * q * U1 - p * D1) * D0
                     = 2 * (2 * T * (q * U0) - p * D0) * D1) by nia.
        assert (Hb : q * U1 * D0 = 2 * (q * U0) * D1) by nia.
        rewrite Ha. nia. }
      split.
      * apply (Zmult_le_reg_r _ _ D0); lia.
      * apply (Zmult_le_reg_r _ _ D0); lia.
    + subst T. lia.
    + lia.
    + intro Hn. destruct (Hnormal Hn) as [_ E]. split; lia.
  - split; [lia|]. split; [lia|]. split; [lia|].
    intro Hn. destruct (Hnormal Hn). lia.
Qed.

(** No overflow below [2^1020]. *)
Lemma round_binary64_returns (p q : Z) :
  0 < p < 2 ^ 1020 -> 0 < q ->
  exists m e, round_binary64 p q = Some (m, e).
Proof.
  intros [Hp Hpu] Hq.
  assert (Hl : Z.log2 p < 1020) by (apply Z.log2_lt_pow2; lia).
  pose proof (Z.log2_nonneg q) as Hlq.
  pose proof (floor_log2_range p q) as Hfl.
  unfold round_binary64. rewrite scale2_eq.
  set (e0 := Z.max (floor_log2 p q - 52) (-1074)).
  assert (He0 : e0 <= 968) by lia.
  destruct (round_half_even _ _ =? 2 ^ 53).
  - destruct (Z.ltb_spec 971 (e0 + 1)); [lia|]. eauto.
  - destruct (Z.ltb_spec 971 e0); [lia|]. eauto.
Qed.

End Rounding.

(** ** Division, conversion and display of numbers *)

Section Numbers.

Lemma pow2_den_opp (e : Z) : pow2_den (- e) = pow2_num e.
Proof. unfold pow2_den, pow2_num. now rewrite Z.opp_involutive. Qed.

Lemma pow2_num_opp (e : Z) : pow2_num (- e) = pow2_den e.
Proof. reflexivity. Qed.

(** The hundredths displayed are within one half of [100 * m * 2^e]. *)
Lemma hundredths_bound (s : bool) (m e : Z) :
  - pow2_den e
  <= 2 * (hundredths (Float s m e) * pow2_den e - 100 * m * pow2_num e)
  <= pow2_den e.
Proof.
  unfold hundredths. cbn [fmant fexp].
  rewrite scale2_eq, pow2_den_opp, pow2_num_opp, Z.mul_1_l.
  apply round_half_even_bound, pow2_den_pos.
Qed.

Lemma hundredths_zero (s : bool) (e : Z) : hundredths (Float s 0 e) = 0.
Proof.
  unfold hundredths. cbn [fmant fexp]. rewrite scale2_eq.
  change (100 * 0 * pow2_den (- e)) with (0 * (1 * pow2_num (- e))).
  apply round_half_even_exact. pose proof (pow2_num_pos (- e)). lia.
Qed.

(** The heart of the accuracy of the displayed mean: a quotient below
    [2^45] of a numerator by a denominator below [2^63], rounded to
    binary64 and then to two decimals, is within one half of a hundredth
    of the exact quotient. *)
Lemma display_accurate (s : bool) (p q m e : Z) :
  0 < p < 2 ^ 45 -> 0 < q < 2 ^ 63 ->
  round_binary64 p q = Some (m, e) ->
  - q <= 2 * (hundredths (Float s m e) * q - 100 * p) <= q.
Proof.
  intros [Hp Hpu] [Hq Hqu] Hr.
  destruct (round_binary64_spec p q m e Hp Hq Hr) as (Herr & Hm & He & Hn).
  assert (Hl : -1074 <= floor_log2 p q - 52).
  { pose proof (floor_log2_range p q) as Hfl.
    pose proof (Z.log2_nonneg p).
    assert (Z.log2 q < 63) by (apply Z.log2_lt_pow2; lia). lia. }
  destruct (Hn Hl) as [Hm52 _]. clear Hn.
  pose proof (hundredths_bound s m e) as Hh.
  set (h := hundredths (Float s m e)) in *.
  pose proof (pow2_num_pos e) as HU. pose proof (pow2_den_pos e) as HD.
  set (U := pow2_num e) in *. set (D := pow2_den e) in *.
  set (W := q * U) in *.
  assert (HW : 0 < W) by (subst W; nia).
  replace (m * q * U) with (m * W) in Herr by (subst W; ring).
  (* the unit in the last place is below a hundredth over [q] *)
  assert (Hulp : 100 * W < D).
  { destruct (Z.lt_ge_cases (100 * W) D) as [Hlt|Hge]; [exact Hlt|exfalso].
    assert (H1 : (2 * m - 1) * W <= 2 * (p * D)) by lia.
    assert (H2 : (2 ^ 53 - 1) * W <= (2 * m - 1) * W) by nia.
    assert (H3 : p * D <= (2 ^ 45 - 1) * (100 * W)) by nia.
    lia. }
  assert (Hq1 : 2 * (h * q - 100 * p) * D < (q + 1) * D).
  { assert (H1 : 2 * h * D * q <= (D + 200 * (m * U)) * q) by nia.
    assert (H2 : m * U * q = m * W) by (subst W; ring).
    nia. }
  assert (Hq2 : - (q + 1) * D < 2 * (h * q - 100 * p) * D).
  { assert (H1 : (200 * (m * U) - D) * q <= 2 * h * D * q) by nia.
    assert (H2 : m * U * q = m * W) by (subst W; ring).
    nia. }
  split; nia.
Qed.

(** A quotient that needs no more bits than the mantissa offers is not
    changed by the rounding. *)
Lemma round_binary64_exact (p q m e : Z) :
  0 < p -> 0 < q ->
  (let e0 := Z.max (floor_log2 p q - 52) (-1074) in
   exists k, p * pow2_den e0 = k * (q * pow2_num e0)) ->
  round_binary64 p q = Some (m, e) ->
  exactly m e p q.
Proof.
  intros Hp Hq Hdiv Hr. unfold exactly.
  destruct (round_binary64_steps _ _ _ _ Hr) as [Hcase _].
  cbv zeta in Hcase, Hdiv.
  set (e0 := Z.max (floor_log2 p q - 52) (-1074)) in *.
  destruct Hdiv as [k Hk].
  pose proof (pow2_num_pos e0) as HU0. pose proof (pow2_den_pos e0) as HD0.
  rewrite Hk, round_half_even_exact in Hcase by nia.
  destruct Hcase as [(E & -> & ->)|(_ & -> & ->)].
  - pose proof (pow2_shift e0 1 ltac:(lia)) as Hs. change (2 ^ 1) with 2 in Hs.
    pose proof (pow2_den_pos (e0 + 1)) as HD1.
    change (2 ^ 53) with (2 * 2 ^ 52) in E.
    set (T := 2 ^ 52) in *.
    apply (Z.mul_reg_r _ _ (pow2_den e0)); [lia|]. nia.
  - nia.
Qed.

(** Halving an int up to [2^53] is exact. *)
Lemma halving_exact (s : Z) :
  0 <= s <= 2 ^ 53 ->
  exists m e, int_true_divide s 2 = Return (Float false m e)
              /\ exactly m e s 2.
Proof.
  intros [Hs Hsu]. unfold int_true_divide.
  change (2 =? 0) with false. cbv iota.
  destruct (Z.ltb_spec s 0) as [|_]; [lia|]. cbn [xorb Z.ltb].
  change (2 <? 0) with false. cbn [xorb].
  destruct (Z.eqb_spec s 0) as [->|Hne].
  - exists 0, (-1074). split; [reflexivity|]. unfold exactly. ring.
  - assert (Hpos : 0 < s) by lia.
    rewrite (Z.abs_eq s), (Z.abs_eq 2) by lia.
    destruct (round_binary64_returns s 2) as (m & e & Hr); [lia|lia|].
    rewrite Hr. exists m, e. split; [reflexivity|].
    apply round_binary64_exact; try lia; [|exact Hr].
    cbv zeta.
    pose proof (floor_log2_range s 2) as Hfl. change (Z.log2 2) with 1 in Hfl.
    assert (Hls : 0 <= Z.log2 s <= 53).
    { split; [apply Z.log2_nonneg|].
      pose proof (Z.log2_le_mono _ _ Hsu) as Hmono.
      now rewrite Z.log2_pow2 in Hmono by lia. }
    destruct (floor_log2_spec s 2 Hpos ltac:(lia)) as [Hlo _].
    set (l := floor_log2 s 2) in *.
    rewrite Z.max_l by lia.
    destruct (Z.eq_dec l 52) as [E|Hl].
    + (* s = 2^53 *)
      rewrite E in *. change (52 - 52) with 0.
      change (pow2_num 52) with (2 ^ 52) in Hlo.
      change (pow2_den 52) with 1 in Hlo.
      change (pow2_den 0) with 1. change (pow2_num 0) with 1.
      exists (2 ^ 52). lia.
    + destruct (pow2_of_nonpos (l - 52)) as [-> ->]; [lia|].
      exists (s * 2 ^ (- (l - 52) - 1)).
      replace (- (l - 52)) with (1 + (- (l - 52) - 1)) at 1 by lia.
      rewrite Z.pow_add_r by lia. change (2 ^ 1) with 2. ring.
Qed.

End Numbers.

(** ** Sums and sorting *)

Section SumSort.

Lemma sum_from (xs : list Z) (a : Z) : fold_left Z.add xs a = a + sum xs.
Proof.
  unfold sum. revert a. induction xs as [|x xs IH]; intro a; cbn [fold_left].
  - lia.
  - rewrite (IH (a + x)), (IH (0 + x)). lia.
Qed.

Lemma sum_cons (x : Z) (xs : list Z) : sum (x :: xs) = x + sum xs.
Proof. unfold sum at 1. cbn [fold_left]. now rewrite sum_from. Qed.


(** The sum is the plain sum of the elements. *)
Lemma sum_fold_right (xs : list Z) : sum xs = fold_right Z.add 0 xs.
Proof.
  induction xs as [|x xs IH]; [reflexivity|].
  rewrite sum_cons, IH. reflexivity.
Qed.

Lemma sum_nonneg (xs : list Z) : Forall (fun c => 0 <= c) xs -> 0 <= sum xs.
Proof.
  induction 1 as [|x xs Hx _ IH]; [reflexivity|]. rewrite sum_cons. lia.
Qed.

Lemma sum_bound (xs : list Z) (b : Z) :
  Forall (fun c => 0 <= c <= b) xs -> 0 <= sum xs <= len xs * b.
Proof.
  unfold len.
  induction 1 as [|x xs Hx _ IH]; [cbn; lia|].
  rewrite sum_cons. cbn [length]. nia.
Qed.

Lemma elem_le_sum (xs : list Z) (x : Z) :
  Forall (fun c => 0 <= c) xs -> In x xs -> 0 <= x <= sum xs.
Proof.
  induction 1 as [|y xs Hy Hxs IH]; [intros []|].
  rewrite sum_cons. pose proof (sum_nonneg xs Hxs).
  intros [<-|Hin]; [lia|]. specialize (IH Hin). lia.
Qed.

Lemma insert_perm (x : Z) (l : list Z) : Permutation (insert x l) (x :: l).
Proof.
  induction l as [|y l IH]; cbn [insert]; [reflexivity|].
  destruct (x <=? y); [reflexivity|].
  rewrite IH. apply perm_swap.
Qed.

Lemma sorted_perm (l : list Z) : Permutation (sorted l) l.
Proof.
  induction l as [|x l IH]; cbn [sorted fold_right]; [reflexivity|].
  fold (sorted l). now rewrite insert_perm, IH.
Qed.

Lemma insert_ordered (x : Z) (l : list Z) :
  Sorted Z.le l -> Sorted Z.le (insert x l).
Proof.
  induction 1 as [|y l Hl IH Hhd]; cbn [insert].
  - repeat constructor.
  - destruct (Z.leb_spec x y) as [Hxy|Hxy].
    + repeat constructor; assumption.
    + constructor; [exact IH|].
      destruct l as [|z l]; cbn [insert].
      * constructor. lia.
      * inversion Hhd; subst.
        destruct (x <=? z); constructor; lia.
Qed.

Lemma sorted_ordered (l : list Z) : Sorted Z.le (sorted l).
Proof.
  induction l as [|x l IH]; cbn [sorted fold_right]; [constructor|].
  now apply insert_ordered.
Qed.

(** An ordered list is determined by its elements. *)
Lemma ordered_unique (l1 l2 : list Z) :
  Sorted Z.le l1 -> Sorted Z.le l2 -> Permutation l1 l2 -> l1 = l2.
Proof.
  intros H1 H2.
  apply Sorted_StronglySorted in H1; [|intros a b c; apply Z.le_trans].
  apply Sorted_StronglySorted in H2; [|intros a b c; apply Z.le_trans].
  revert l2 H2.
  induction H1 as [|x l1 Hl1 IH Hx]; intros l2 H2 Hp.
  - apply Permutation_nil in Hp. now subst.
  - destruct H2 as [|y l2 Hl2 Hy].
    + apply Permutation_sym, Permutation_nil in Hp. discriminate.
    + assert (Exy : x = y).
      { rewrite Forall_forall in Hx, Hy.
        assert (Hyin : In y (x :: l1))
          by (apply (Permutation_in _ (Permutation_sym Hp)); now left).
        assert (Hxin : In x (y :: l2))
          by (apply (Permutation_in _ Hp); now left).
        destruct Hyin as [E|Hyin]; [exact E|].
        destruct Hxin as [E|Hxin]; [now symmetry|].
        specialize (Hx _ Hyin). specialize (Hy _ Hxin). lia. }
      subst y. f_equal. apply IH; [exact Hl2|].
      now apply Permutation_cons_inv in Hp.
Qed.

(** [sorted] returns the ordered arrangement of its argument. *)
Lemma sorted_is (data s : list Z) :
  Sorted Z.le s -> Permutation s data -> sorted data = s.
Proof.
  intros Hs Hp. apply ordered_unique.
  - apply sorted_ordered.
  - exact Hs.
  - rewrite sorted_perm. now symmetry.
Qed.

Lemma len_sorted (data : list Z) : len (sorted data) = len data.
Proof. unfold len. now rewrite (Permutation_length (sorted_perm data)). Qed.

Lemma getitem_in (xs : list Z) (i : Z) :
  0 <= i < len xs -> In (getitem xs i) xs.
Proof.
  unfold len, getitem. intro H. apply nth_In. lia.
Qed.

End SumSort.

(** ** [statistics.mean] and [statistics.median] *)

Section MeanMedian.

Import statistics.

(** What [mean] returns and what [.2f] shows of it: nothing when the
    total is zero, and otherwise the hundredths of the float nearest to
    the fraction [num / den], which is [total / n] in lowest terms. *)
Lemma mean_shown (data : list Z) :
  data <> [] -> 0 <= sum data < 2 ^ 1020 ->
  exists x h,
    mean data = Return x
    /\ format_number_2f x = Return (show_hundredths false h)
    /\ ((sum data = 0 /\ h = 0)
        \/ exists num den m e,
             0 < num <= sum data /\ 0 < den <= len data
             /\ num * len data = sum data * den
             /\ round_binary64 num den = Some (m, e)
             /\ h = hundredths (Float false m e)).
Proof.
  intros Hne [Htot Hbig]. unfold mean.
  set (total := sum data) in *. set (n := len data).
  assert (Hn : 1 <= n).
  { subst n. unfold len. destruct data; [contradiction|]. cbn [length]. lia. }
  destruct (Z.ltb_spec n 1) as [|_]; [lia|].
  pose proof (Z.gcd_nonneg total n) as Hg0.
  destruct (Z.gcd_divide_l total n) as [num Hnum].
  destruct (Z.gcd_divide_r total n) as [den Hden].
  set (g := Z.gcd total n) in *.
  assert (Hg : 0 < g) by (destruct (Z.eq_dec g 0); [nia | lia]).
  replace (total / g) with num by (rewrite Hnum at 1; now rewrite Z.div_mul by lia).
  replace (n / g) with den by (rewrite Hden at 1; now rewrite Z.div_mul by lia).
  assert (Hden1 : 1 <= den <= n) by nia.
  assert (Hnum0 : 0 <= num <= total) by nia.
  destruct (Z.eq_dec total 0) as [E0|Hpos].
  - (* total = 0: the fraction is 0/1 *)
    assert (num = 0) by nia. subst num.
    assert (Eg : g = n).
    { subst g. rewrite E0. rewrite Z.gcd_0_l. lia. }
    assert (den = 1) by nia. subst den.
    exists (PyInt 0), 0. cbn [Z.eqb format_number_2f float_of_int].
    unfold format_2f. cbn [fneg]. rewrite hundredths_zero. auto.
  - assert (Hnum1 : 0 < num) by nia.
    assert (Hnb : 0 < num < 2 ^ 1020) by lia.
    destruct (round_binary64_returns num den Hnb ltac:(lia)) as (m & e & Hr).
    assert (Hrel : num * n = total * den) by nia.
    destruct (Z.eqb_spec den 1) as [E1|N1].
    + exists (PyInt num), (hundredths (Float false m e)).
      split; [reflexivity|]. split.
      * unfold format_number_2f, float_of_int.
        destruct (Z.eqb_spec num 0) as [|_]; [lia|].
        rewrite Z.abs_eq by lia. rewrite <- E1, Hr.
        destruct (Z.ltb_spec num 0) as [|_]; [lia|]. reflexivity.
      * right. exists num, den, m, e. repeat split; try lia; assumption.
    + exists (PyFloat (Float false m e)), (hundredths (Float false m e)).
      unfold int_true_divide.
      destruct (Z.eqb_spec den 0) as [|_]; [lia|].
      destruct (Z.eqb_spec num 0) as [|_]; [lia|].
      destruct (Z.ltb_spec num 0) as [|_]; [lia|].
      destruct (Z.ltb_spec den 0) as [|_]; [lia|].
      rewrite !Z.abs_eq by lia. rewrite Hr. cbn [xorb].
      split; [reflexivity|]. split; [reflexivity|].
      right. exists num, den, m, e. repeat split; try lia; assumption.
Qed.

(** Below [2^45] words in fewer than [2^63] files the mean shown is
    within half a hundredth of [total / n]. *)
Lemma mean_shown_accurate (data : list Z) :
  data <> [] -> 0 <= sum data < 2 ^ 45 -> len data < 2 ^ 63 ->
  exists x h,
    mean data = Return x
    /\ format_number_2f x = Return (show_hundredths false h)
    /\ - len data <= 2 * (h * len data - 100 * sum data) <= len data.
Proof.
  intros Hne Htot Hn.
  destruct (mean_shown data Hne ltac:(lia)) as (x & h & Hx & Hf & Hcase).
  exists x, h. split; [exact Hx|]. split; [exact Hf|].
  assert (Hn0 : 0 <= len data) by (unfold len; lia).
  destruct Hcase as [[E0 ->]|(num & den & m & e & Hnum & Hden & Hrel & Hr & ->)].
  - rewrite E0. lia.
  - pose proof (display_accurate false num den m e ltac:(lia) ltac:(lia) Hr)
      as Hacc.
    set (h := hundredths (Float false m e)) in *.
    set (n := len data) in *. set (total := sum data) in *.
    (* scale from the lowest terms back to [total / n] *)
    assert (Hs : 2 * (h * n - 100 * total) * den
                 = 2 * (h * den - 100 * num) * n) by nia.
    split.
    + apply (Zmult_le_reg_r _ _ den); [lia|]. nia.
    + apply (Zmult_le_reg_r _ _ den); [lia|]. nia.
Qed.

(** The two middle elements of the ordered data. *)
Lemma median_cases (data : list Z) :
  data <> [] ->
  Forall (fun c => 0 <= c) data -> sum data < 2 ^ 1019 ->
  let s := sorted data in
  let n := len data in
  (n mod 2 = 1 /\ median data = Return (PyInt (getitem s (n / 2))))
  \/ (n mod 2 = 0
      /\ exists m e,
           median data = Return (PyFloat (Float false m e))
           /\ (let total := getitem s (n / 2 - 1) + getitem s (n / 2) in
               (total = 0 /\ m = 0)
               \/ (0 < total
                   /\ round_binary64 total 2 = Some (m, e)))).
Proof.
  intros Hne Hpos Hbig. cbv zeta. unfold median.
  rewrite len_sorted.
  set (n := len data).
  assert (Hn : 1 <= n).
  { subst n. unfold len. destruct data; [contradiction|]. cbn [length]. lia. }
  destruct (Z.eqb_spec n 0) as [|_]; [lia|].
  pose proof (Z.mod_pos_bound n 2 ltac:(lia)) as Hmod.
  pose proof (Z.div_mod n 2 ltac:(lia)) as Hdm.
  destruct (Z.eqb_spec (n mod 2) 1) as [E|N]; [left; auto|].
  right. split; [lia|].
  assert (Hin : forall i, 0 <= i < n -> 0 <= getitem (sorted data) i <= sum data).
  { intros i Hi. apply elem_le_sum; [exact Hpos|].
    apply (Permutation_in _ (sorted_perm data)).
    apply getitem_in. now rewrite len_sorted. }
  pose proof (Hin (n / 2 - 1) ltac:(lia)) as Ha.
  pose proof (Hin (n / 2) ltac:(lia)) as Hb.
  set (a := getitem (sorted data) (n / 2 - 1)) in *.
  set (b := getitem (sorted data) (n / 2)) in *.
  unfold int_true_divide. change (2 =? 0) with false. cbv iota.
  destruct (Z.ltb_spec (a + b) 0) as [|_]; [lia|].
  change (2 <? 0) with false. cbn [xorb].
  destruct (Z.eqb_spec (a + b) 0) as [E0|N0].
  - exists 0, (-1074). split; [reflexivity|]. left. auto.
  - rewrite Z.abs_eq by lia. change (Z.abs 2) with 2.
    destruct (round_binary64_returns (a + b) 2) as (m & e & Hr); [|lia|].
    { split; [lia|]. change (2 ^ 1020) with (2 * 2 ^ 1019). lia. }
    exists m, e. rewrite Hr. split; [reflexivity|]. right. split; [lia|].
    reflexivity.
Qed.

End MeanMedian.

(** ** The report *)

Section Report.

Lemma print_file_lines (file_word_map : dict str Z) :
  for_in (items file_word_map) print_file_line tt
  = (Return tt,
     concat (map (fun item => file_line (fst item) (snd item))
                 (items file_word_map))).
Proof.
  unfold items.
  induction file_word_map as [|[file count] rest IH]; [reflexivity|].
  cbn [for_in map concat fst snd]. unfold print_file_line at 1.
  rewrite bind_print, IH. cbn [outcome stdout fst snd].
  unfold file_line. now rewrite <- !app_assoc.
Qed.

Lemma mode_or_marker_return (mode : list Z -> result Z)
      (word_counts : list Z) (v : Z) :
  mode word_counts = Return v ->
  mode_or_marker mode word_counts = ret (ModeInt v).
Proof. intro H. unfold mode_or_marker. now rewrite H. Qed.

(** The report in closed form, once the statistics are known. *)
Lemma report_eq (word_counts : list Z) (file_word_map : dict str Z)
      (mean_words median_words : number) (mean_text : str) (mode : Z) :
  word_counts <> [] ->
  statistics.mean word_counts = Return mean_words ->
  format_number_2f mean_words = Return mean_text ->
  statistics.median word_counts = Return median_words ->
  statistics.mode word_counts = Return mode ->
  report (word_counts, file_word_map)
  = (Return tt,
     per_file_text file_word_map
     ++ summary_text (sum word_counts) mean_text
                     (str_of_number median_words) (str_of_int mode)).
Proof.
  intros Hne Hmean Hfmt Hmedian Hmode. unfold report.
  destruct word_counts as [|c cs]; [contradiction|].
  rewrite Hmean, bind_lift_return, Hmedian, bind_lift_return.
  rewrite (mode_or_marker_return _ _ _ Hmode), bind_ret_l.
  rewrite bind_print, print_file_lines, bind_returned.
  rewrite bind_print, bind_print, Hfmt, bind_lift_return.
  rewrite bind_print, bind_print.
  unfold print, write, outcome, stdout. cbn [fst snd str_of_mode].
  unfold per_file_text, summary_text.
  f_equal; now rewrite <- ?app_assoc.
Qed.

(** The report runs to its end on counts that are not negative and whose
    sum has fewer than 1020 bits. *)
Lemma report_runs (word_counts : list Z) (file_word_map : dict str Z) :
  word_counts <> [] ->
  Forall (fun c => 0 <= c) word_counts ->
  sum word_counts < 2 ^ 1019 ->
  exists mean_text median_text mode_text,
    report (word_counts, file_word_map)
    = (Return tt,
       per_file_text file_word_map
       ++ summary_text (sum word_counts) mean_text median_text mode_text).
Proof.
  intros Hne Hpos Hbig.
  pose proof (sum_nonneg _ Hpos) as Hs0.
  destruct (mean_shown word_counts Hne) as (x & h & Hx & Hf & _).
  { split; [lia|]. change (2 ^ 1020) with (2 * 2 ^ 1019). lia. }
  assert (Hmed : exists med, statistics.median word_counts = Return med).
  { destruct (median_cases word_counts Hne Hpos Hbig)
      as [[_ H]|[_ (m & e & H & _)]]; eauto. }
  destruct Hmed as [med Hmed].
  destruct word_counts as [|c cs]; [contradiction|].
  destruct (mode_returns c cs) as (v & Hv & _).
  exists (show_hundredths false h), (str_of_number med), (str_of_int v).
  apply (report_eq _ _ x med _ v); assumption.
Qed.

(** Within the limits of the interpreter no float conversion of the
    report can overflow. *)
Lemma within_limits_sum (word_counts : list Z) :
  within_limits word_counts ->
  Forall (fun c => 0 <= c) word_counts
  /\ 0 <= sum word_counts < 2 ^ 1019.
Proof.
  intros [Hlen Hb].
  pose proof (sum_bound _ _ Hb) as Hsum.
  split; [eapply Forall_impl; [|exact Hb]; cbv beta; intros; lia|].
  split; [lia|].
  assert (H0 : 0 <= len word_counts) by (unfold len; lia).
  assert (Hm : 0 < maxsize < 2 ^ 63) by (unfold maxsize; lia).
  assert (Hp : sum word_counts < 2 ^ 63 * 2 ^ 63) by nia.
  change (2 ^ 1019) with (2 ^ 63 * 2 ^ 63 * 2 ^ 893).
  pose proof (Z.pow_pos_nonneg 2 893). nia.
Qed.

Lemma word_runs_le_len (prev : bool) (text : str) :
  word_runs_from prev text <= len text.
Proof.
  unfold word_runs_from, len.
  pose proof (filter_length_le (run_start prev text) (seq 0 (length text)))
    as H.
  rewrite length_seq in H. lia.
Qed.

(** A file system whose texts fit in memory yields counts that do. *)
Lemma scan_counts_bounded (fs : filesystem) (directory : str)
      (names : list str) :
  (forall filename text,
      In filename names ->
      open_read fs (join directory filename) = Return text ->
      len text <= maxsize) ->
  Forall (fun c => 0 <= c <= maxsize) (scan_counts fs directory names).
Proof.
  intro Hfit. unfold scan_counts. apply Forall_forall. intros c Hc.
  apply in_map_iff in Hc. destruct Hc as (filename & <- & Hin).
  apply qualifying_incl in Hin.
  split; [apply words_of_nonneg|].
  unfold words_of.
  destruct (open_read fs (join directory filename)) as [text|e] eqn:Hr.
  - pose proof (word_runs_le_len true text) as Hle.
    specialize (Hfit filename text Hin Hr). unfold word_runs. lia.
  - unfold maxsize. lia.
Qed.

Lemma len_scan_counts_le (fs : filesystem) (directory : str)
      (names : list str) :
  len (scan_counts fs directory names) <= len names.
Proof.
  unfold scan_counts, qualifying, len. rewrite length_map.
  pose proof (filter_length_le
                (fun filename => isfile fs (join directory filename)) names).
  lia.
Qed.

(** The whole run on a directory that can be listed and has at least one
    qualifying entry, all within the limits of the interpreter: the error
    lines of the scan, then the report. *)
Lemma analyze_runs (fs : filesystem) (directory : str) (names : list str)
      (file_word_map : dict str Z) :
  listdir fs directory = Return names ->
  for_in names (scan_entry fs directory) ([], [])
  = (Return (scan_counts fs directory names, file_word_map),
     scan_errors fs directory names) ->
  scan_counts fs directory names <> [] ->
  len names <= maxsize ->
  (forall filename text,
      In filename names ->
      open_read fs (join directory filename) = Return text ->
      len text <= maxsize) ->
  exists mean_text median_text mode_text,
    analyze_directory_word_counts fs directory
    = (Return tt,
       scan_errors fs directory names
       ++ per_file_text file_word_map
       ++ summary_text (sum (scan_counts fs directory names))
                       mean_text median_text mode_text).
Proof.
  intros Hls Hrun Hne Hn Hfit.
  pose proof (scan_counts_bounded fs directory names Hfit) as Hb.
  pose proof (len_scan_counts_le fs directory names) as Hlen.
  destruct (within_limits_sum (scan_counts fs directory names))
    as [Hpos [_ Hbig]]; [split; [lia | exact Hb]|].
  destruct (report_runs (scan_counts fs directory names) file_word_map
                        Hne Hpos Hbig)
    as (mean_text & median_text & mode_text & Hrep).
  exists mean_text, median_text, mode_text.
  rewrite (analyze_listed _ _ _ Hls), Hrun, bind_returned, Hrep.
  reflexivity.
Qed.

End Report.

(** ** Floats as rationals *)

Section FloatValue.

Lemma pow2Q_fraction (e : Z) :
  pow2Q e == inject_Z (pow2_num e) / inject_Z (pow2_den e).
Proof.
  unfold pow2Q. destruct (Z.le_gt_cases 0 e) as [He|He].
  - destruct (pow2_of_nonneg e He) as [-> ->].
    rewrite <- Zpower_Qpower by assumption. field.
  - destruct (pow2_of_nonpos e) as [-> ->]; [lia|].
    replace e with (- - e) at 1 by lia.
    rewrite Qpower_opp, <- Zpower_Qpower by lia. field.
    intro H. unfold Qeq in H. cbn in H.
    pose proof (Z.pow_pos_nonneg 2 (- e)). lia.
Qed.

(** A float that is exactly [num / den] has that value. *)
Lemma exactly_value (m e num den : Z) :
  0 < den -> exactly m e num den ->
  float_value (Float false m e) == num # Z.to_pos den.
Proof.
  intros Hden Hex. unfold exactly in Hex.
  unfold float_value, float_abs. cbn [fneg fmant fexp].
  rewrite pow2Q_fraction.
  pose proof (pow2_num_pos e) as HU. pose proof (pow2_den_pos e) as HD.
  assert (HDq : ~ inject_Z (pow2_den e) == 0).
  { intro H. unfold Qeq in H. cbn in H. lia. }
  apply (Qmult_inj_r _ _ (inject_Z (pow2_den e) * inject_Z den)).
  { intro H. apply Qmult_integral in H. destruct H as [H|H].
    - contradiction.
    - unfold Qeq in H. cbn in H. lia. }
  transitivity (inject_Z (m * den * pow2_num e)).
  - rewrite !inject_Z_mult. field. exact HDq.
  - rewrite Hex, !inject_Z_mult.
    unfold Qeq, Qmult, inject_Z. cbn [Qnum Qden].
    rewrite !Pos2Z.inj_mul, Z2Pos.id by lia. cbn. ring.
Qed.

End FloatValue.

(** ** The standard output as a stream *)

Section Streams.

Variable sys_stdout : text_stream.

Lemma can_encode_app (a b : str) :
  can_encode sys_stdout (a ++ b) = true
  <-> can_encode sys_stdout a = true /\ can_encode sys_stdout b = true.
Proof. unfold can_encode. rewrite forallb_app. apply andb_true_iff. Qed.

Lemma can_encode_concat (parts : list str) :
  (forall part, In part parts -> can_encode sys_stdout part = true) ->
  can_encode sys_stdout (concat parts) = true.
Proof.
  induction parts as [|part parts IH]; intro H; cbn [concat]; [reflexivity|].
  apply can_encode_app. split; [apply H; now left|].
  apply IH. intros q Hq. apply H. now right.
Qed.

Lemma write_to_encodable (s : str) :
  can_encode sys_stdout s = true -> write_to sys_stdout s = write s.
Proof. intro H. unfold write_to. now rewrite H. Qed.

Lemma write_to_refused (s : str) :
  can_encode sys_stdout s = false ->
  write_to sys_stdout s
  = (Raise (Exc UnicodeEncodeError (encode_error sys_stdout s)), []).
Proof. intro H. unfold write_to. now rewrite H. Qed.

Lemma print_to_encodable (s : str) :
  can_encode sys_stdout (stdout (print s)) = true ->
  print_to sys_stdout s = print s.
Proof.
  unfold print, write, stdout. cbn [snd]. intro H.
  apply can_encode_app in H as [Hs Hn].
  unfold print_to. rewrite !write_to_encodable by assumption.
  reflexivity.
Qed.

(** A computation on the stream is the computation on a standard
    output that takes every text, whenever the stream can encode what
    the latter writes.  The next lemmas carry this through the
    sequencing of effects. *)
Lemma bind_encodable {A B : Type} (m' m : io A) (k' k : A -> io B) :
  (can_encode sys_stdout (stdout m) = true -> m' = m) ->
  (forall a, can_encode sys_stdout (stdout (k a)) = true -> k' a = k a) ->
  can_encode sys_stdout (stdout (bind m k)) = true ->
  bind m' k' = bind m k.
Proof.
  intros Hm Hk. destruct m as [[a|e] out].
  - rewrite bind_returned. unfold stdout at 1. cbn [snd]. intro H.
    apply can_encode_app in H as [Ho Hka].
    rewrite (Hm Ho), bind_returned. now rewrite (Hk a Hka).
  - rewrite bind_raised. intro H. now rewrite (Hm H).
Qed.

Lemma try_except_encodable {A : Type} (body' body : io A)
      (catches : exc -> bool) (handler' handler : exc -> io A) :
  (can_encode sys_stdout (stdout body) = true -> body' = body) ->
  (forall e, can_encode sys_stdout (stdout (handler e)) = true ->
             handler' e = handler e) ->
  can_encode sys_stdout (stdout (try_except body catches handler)) = true ->
  try_except body' catches handler' = try_except body catches handler.
Proof.
  intros Hb Hh. destruct body as [[a|e] out]; cbn [try_except].
  - intro H. now rewrite (Hb H).
  - destruct (catches e) eqn:Hc.
    + destruct (handler e) as [r out'] eqn:Hhe.
      unfold stdout. cbn [snd]. intro H.
      apply can_encode_app in H as [Ho Ho'].
      rewrite (Hb Ho). cbn [try_except]. rewrite Hc, Hh, Hhe; [reflexivity|].
      now rewrite Hhe.
    + intro H. rewrite (Hb H). cbn [try_except]. now rewrite Hc.
Qed.

Lemma for_in_encodable {S A : Type} (xs : list A)
      (body' body : S -> A -> io S) :
  (forall s x, can_encode sys_stdout (stdout (body s x)) = true ->
               body' s x = body s x) ->
  forall s, can_encode sys_stdout (stdout (for_in xs body s)) = true ->
            for_in xs body' s = for_in xs body s.
Proof.
  intro Hbody. induction xs as [|x xs IH]; intros s H; cbn [for_in] in *;
    [reflexivity|].
  apply bind_encodable; auto.
Qed.

(** The functions of the program, one by one. *)
Section OnStream.

Variable fs : filesystem.

Lemma count_words_on_stream (filepath : str) :
  can_encode sys_stdout (stdout (count_words_in_file fs filepath)) = true ->
  wordmmm_stdout.count_words_in_file sys_stdout fs filepath
  = count_words_in_file fs filepath.
Proof.
  unfold wordmmm_stdout.count_words_in_file, count_words_in_file.
  apply try_except_encodable; [reflexivity|].
  intro e. apply bind_encodable; [apply print_to_encodable | reflexivity].
Qed.

Lemma scan_entry_on_stream (directory : str)
      (vars : list Z * dict str Z) (filename : str) :
  can_encode sys_stdout (stdout (scan_entry fs directory vars filename))
  = true ->
  wordmmm_stdout.scan_entry sys_stdout fs directory vars filename
  = scan_entry fs directory vars filename.
Proof.
  destruct vars as [wcs m].
  unfold wordmmm_stdout.scan_entry, scan_entry.
  destruct (isfile fs (join directory filename)); [|reflexivity].
  apply bind_encodable; [apply count_words_on_stream | reflexivity].
Qed.

Lemma scan_on_stream (directory : str) (names : list str)
      (vars : list Z * dict str Z) :
  can_encode sys_stdout
             (stdout (for_in names (scan_entry fs directory) vars)) = true ->
  for_in names (wordmmm_stdout.scan_entry sys_stdout fs directory) vars
  = for_in names (scan_entry fs directory) vars.
Proof.
  apply for_in_encodable. intros s x. apply scan_entry_on_stream.
Qed.

Lemma report_on_stream (vars : list Z * dict str Z) :
  can_encode sys_stdout (stdout (report vars)) = true ->
  wordmmm_stdout.report sys_stdout vars = report vars.
Proof.
  destruct vars as [wcs m]. unfold wordmmm_stdout.report, report.
  destruct wcs as [|c wcs]; [apply print_to_encodable|].
  repeat first
    [ apply print_to_encodable
    | apply bind_encodable; [|intro]
    | apply for_in_encodable; intros ? [? ?]
    | reflexivity ].
Qed.

Lemma analyze_on_stream (directory : str) :
  can_encode sys_stdout
             (stdout (analyze_directory_word_counts fs directory)) = true ->
  wordmmm_stdout.analyze_directory_word_counts sys_stdout fs directory
  = analyze_directory_word_counts fs directory.
Proof.
  unfold wordmmm_stdout.analyze_directory_word_counts,
    analyze_directory_word_counts.
  apply bind_encodable; [reflexivity|]. intro names.
  apply bind_encodable; [apply scan_on_stream|].
  intro vars. apply report_on_stream.
Qed.

Lemma main_on_stream (typed : str) :
  can_encode sys_stdout (stdout (main fs typed)) = true ->
  wordmmm_stdout.main sys_stdout fs typed = main fs typed.
Proof.
  unfold wordmmm_stdout.main, main.
  apply bind_encodable; [apply write_to_encodable|].
  intros _. apply analyze_on_stream.
Qed.

End OnStream.

End Streams.

(** ** Floats up to rounding *)

Section Rounded.

Lemma float_value_fraction (m e : Z) :
  float_value (Float false m e)
  == (m * pow2_num e) # Z.to_pos (pow2_den e).
Proof.
  apply exactly_value; [apply pow2_den_pos|]. unfold exactly. ring.
Qed.

(** Half a unit in the last place of a float with a full mantissa is a
    relative error of at most [2^-53]. *)
Lemma rounded_fraction (m e p q : Z) :
  0 < q -> 2 ^ 52 <= m ->
  - (q * pow2_num e) <= 2 * (m * q * pow2_num e - p * pow2_den e)
                     <= q * pow2_num e ->
  rounded (Float false m e) p q.
Proof.
  intros Hq Hm Hr. split; [reflexivity|].
  rewrite float_value_fraction.
  pose proof (pow2_num_pos e) as HN. pose proof (pow2_den_pos e) as HD.
  set (N := pow2_num e) in *. set (D := pow2_den e) in *.
  apply Qabs_Qle_condition.
  unfold Qle, Qminus, Qplus, Qopp, Qmult. cbn [Qnum Qden].
  rewrite !Pos2Z.inj_mul, !Z2Pos.id by lia.
  change (Z.pos (2 ^ 53)) with (2 * 2 ^ 52).
  remember (2 ^ 52) as T eqn:HT.
  assert (HT0 : 0 < T) by (subst T; reflexivity).
  clearbody N D. clear HT.
  remember (m * q * N - p * D) as X eqn:HX.
  assert (HqN : 0 < q * N) by nia.
  assert (H1 : - (q * N) * T <= 2 * X * T) by nia.
  assert (H2 : 2 * X * T <= q * N * T) by nia.
  assert (H3 : q * N * T <= q * N * m) by nia.
  replace (m * N * q + - p * D) with X by lia.
  split.
  - replace (- (m * N * 1) * (D * q)) with (- (q * N * m) * D) by ring.
    replace (X * (D * (2 * T))) with (2 * X * T * D) by ring.
    apply Z.mul_le_mono_nonneg_r; lia.
  - replace (m * N * 1 * (D * q)) with (q * N * m * D) by ring.
    replace (X * (D * (2 * T))) with (2 * X * T * D) by ring.
    apply Z.mul_le_mono_nonneg_r; lia.
Qed.

Lemma rounded_of_round (p q m e : Z) :
  0 < p -> 0 < q ->
  round_binary64 p q = Some (m, e) ->
  -1074 <= floor_log2 p q - 52 ->
  rounded (Float false m e) p q.
Proof.
  intros Hp Hq Hr Hfl.
  destruct (round_binary64_spec p q m e Hp Hq Hr) as (Hb & _ & _ & Hn).
  destruct (Hn Hfl) as [Hm _].
  now apply rounded_fraction.
Qed.

Lemma rounded_zero (e q : Z) : rounded (Float false 0 e) 0 q.
Proof.
  split; [reflexivity|].
  unfold float_value, float_abs. cbn [fneg fmant fexp].
  setoid_replace (inject_Z 0 * pow2Q e)%Q with 0%Q by ring.
  unfold Qminus, Qplus, Qopp, Qabs, Qle, Qmult. cbn. lia.
Qed.

Lemma rounded_same_fraction (f : float) (p q p' q' : Z) :
  0 < q -> 0 < q' -> p * q' = p' * q ->
  rounded f p q -> rounded f p' q'.
Proof.
  intros Hq Hq' Heq [Hs Hr]. split; [exact Hs|].
  assert (E : (p' # Z.to_pos q') == (p # Z.to_pos q)).
  { unfold Qeq. cbn [Qnum Qden]. rewrite !Z2Pos.id by lia. lia. }
  now rewrite E.
Qed.

End Rounded.

(** ** The values of the report *)

Section Values.

Lemma nonempty_len (word_counts : list Z) :
  word_counts <> [] -> 1 <= len word_counts.
Proof.
  intro H. destruct word_counts; [contradiction|].
  unfold len. cbn [length]. lia.
Qed.

(** The mean shown is the total divided by the number of counts, as a
    float, with two decimals. *)
Lemma mean_rounded (word_counts : list Z) :
  word_counts <> [] -> within_limits word_counts ->
  exists (x : number) (f : float),
    statistics.mean word_counts = Return x
    /\ format_number_2f x = Return (format_2f f)
    /\ rounded f (sum word_counts) (len word_counts).
Proof.
  intros Hne Hlim.
  destruct (within_limits_sum _ Hlim) as [Hpos [Hs0 Hbig]].
  pose proof (nonempty_len _ Hne) as Hn1.
  destruct Hlim as [Hlen _]. unfold maxsize in Hlen.
  destruct (mean_shown word_counts Hne) as (x & h & Hx & Hf & Hh).
  { split; [lia|]. change (2 ^ 1020) with (2 * 2 ^ 1019). lia. }
  destruct Hh as [[Hz ->]|(num & den & m & e & Hnum & Hden & Hfr & Hr & ->)].
  - exists x, (Float false 0 (-1074)). split; [exact Hx|].
    split; [exact Hf|]. rewrite Hz. apply rounded_zero.
  - exists x, (Float false m e). split; [exact Hx|]. split; [exact Hf|].
    apply (rounded_same_fraction _ num den); try lia.
    apply rounded_of_round; try lia; [exact Hr|].
    pose proof (floor_log2_range num den) as [Hfl _].
    pose proof (Z.log2_nonneg num).
    assert (Z.log2 den < 63) by (apply Z.log2_lt_pow2; lia).
    lia.
Qed.

(** The median is the standard one. *)
Lemma median_standard (word_counts : list Z) :
  word_counts <> [] -> within_limits word_counts ->
  exists x : number,
    statistics.median word_counts = Return x
    /\ standard_median word_counts x.
Proof.
  intros Hne Hlim.
  destruct (within_limits_sum _ Hlim) as [Hpos [Hs0 Hbig]].
  pose proof (nonempty_len _ Hne) as Hn1.
  destruct (median_cases word_counts Hne Hpos Hbig) as [[Hodd Hm]|[Heven Hm]];
    cbv zeta in Hm.
  - eexists. split; [exact Hm|].
    exists (sorted word_counts).
    split; [apply sorted_ordered|]. split; [apply sorted_perm|].
    cbv zeta. rewrite len_sorted. split; [reflexivity|]. intro; lia.
  - destruct Hm as (m & e & Hm & Hcase).
    eexists. split; [exact Hm|].
    exists (sorted word_counts).
    split; [apply sorted_ordered|]. split; [apply sorted_perm|].
    cbv zeta. rewrite len_sorted. split; [intro; lia|]. intros _.
    exists (Float false m e). split; [reflexivity|].
    unfold getitem in Hcase.
    destruct Hcase as [[-> ->]|[Hpos2 Hr]]; [apply rounded_zero|].
    apply rounded_of_round; try lia; [exact Hr|].
    pose proof (floor_log2_range
                  (nth (Z.to_nat (len word_counts / 2 - 1))
                       (sorted word_counts) 0
                   + nth (Z.to_nat (len word_counts / 2))
                         (sorted word_counts) 0) 2) as [Hfl _].
    change (Z.log2 2) with 1 in Hfl.
    match type of Hfl with
    | Z.log2 ?t - _ - _ <= _ => pose proof (Z.log2_nonneg t)
    end.
    lia.
Qed.

Lemma mode_is_most_frequent (word_counts : list Z) :
  word_counts <> [] ->
  exists v : Z,
    statistics.mode word_counts = Return v /\ most_frequent word_counts v.
Proof.
  intro Hne. destruct word_counts as [|c cs]; [contradiction|].
  destruct (mode_returns c cs) as (v & Hv & _).
  exists v. split; [exact Hv|]. now apply mode_most_frequent.
Qed.

(** The report on counts within the limits of the interpreter, with
    the values it shows. *)
Lemma report_values (word_counts : list Z) (file_word_map : dict str Z) :
  word_counts <> [] -> within_limits word_counts ->
  exists (f : float) (median_words : number) (mode_words : Z),
    rounded f (sum word_counts) (len word_counts)
    /\ standard_median word_counts median_words
    /\ most_frequent word_counts mode_words
    /\ report (word_counts, file_word_map)
       = (Return tt,
          per_file_text file_word_map
          ++ summary_text (sum word_counts) (format_2f f)
                          (str_of_number median_words)
                          (str_of_int mode_words)).
Proof.
  intros Hne Hlim.
  destruct (mean_rounded _ Hne Hlim) as (x & f & Hx & Hf & Hr).
  destruct (median_standard _ Hne Hlim) as (med & Hmed & Hstd).
  destruct (mode_is_most_frequent _ Hne) as (v & Hv & Hmost).
  exists f, med, v.
  split; [exact Hr|]. split; [exact Hstd|]. split; [exact Hmost|].
  now apply (report_eq _ _ x med _ v).
Qed.

(** The counts of a scan are within the limits when the listing and
    the texts are. *)
Lemma scan_within_limits (fs : filesystem) (directory : str)
      (names : list str) :
  len names <= maxsize ->
  (forall filename text,
      In filename names ->
      open_read fs (join directory filename) = Return text ->
      len text <= maxsize) ->
  within_limits (scan_counts fs directory names).
Proof.
  intros Hn Hfit. split.
  - pose proof (len_scan_counts_le fs directory names). lia.
  - now apply scan_counts_bounded.
Qed.

End Values.

(** ** Texts of ASCII characters *)

Section Ascii.

Lemma ascii_app (a b : str) :
  forallb is_ascii a = true -> forallb is_ascii b = true ->
  forallb is_ascii (a ++ b) = true.
Proof. intros Ha Hb. rewrite forallb_app, Ha, Hb. reflexivity. Qed.

Lemma ascii_firstn (n : nat) (s : str) :
  forallb is_ascii s = true -> forallb is_ascii (firstn n s) = true.
Proof.
  intro H. rewrite <- (firstn_skipn n s), forallb_app in H.
  now apply andb_true_iff in H.
Qed.

Lemma ascii_skipn (n : nat) (s : str) :
  forallb is_ascii s = true -> forallb is_ascii (skipn n s) = true.
Proof.
  intro H. rewrite <- (firstn_skipn n s), forallb_app in H.
  now apply andb_true_iff in H.
Qed.

Lemma ascii_uint (d : Decimal.uint) :
  forallb is_ascii (lit (DecimalString.NilEmpty.string_of_uint d)) = true.
Proof. induction d; cbn; auto. Qed.

Lemma ascii_nilzero (d : Decimal.uint) :
  forallb is_ascii (lit (DecimalString.NilZero.string_of_uint d)) = true.
Proof.
  destruct d; try reflexivity;
    unfold DecimalString.NilZero.string_of_uint; apply ascii_uint.
Qed.

Lemma str_of_int_ascii (z : Z) : forallb is_ascii (str_of_int z) = true.
Proof.
  unfold str_of_int, DecimalString.NilZero.string_of_int.
  destruct (Z.to_int z) as [d|d]; [apply ascii_nilzero|].
  change (forallb is_ascii
            (45%N :: lit (DecimalString.NilZero.string_of_uint d)) = true).
  cbn [forallb]. now rewrite ascii_nilzero.
Qed.

Lemma two_digits_ascii (n : Z) : forallb is_ascii (two_digits n) = true.
Proof.
  unfold two_digits. destruct (n <? 10);
    [apply ascii_app; [reflexivity|]|]; apply str_of_int_ascii.
Qed.

Lemma show_hundredths_ascii (neg : bool) (h : Z) :
  forallb is_ascii (show_hundredths neg h) = true.
Proof.
  unfold show_hundredths.
  repeat apply ascii_app;
    auto using str_of_int_ascii, two_digits_ascii.
  now destruct neg.
Qed.

Lemma zeros_ascii (n : Z) : forallb is_ascii (zeros n) = true.
Proof.
  unfold zeros. induction (Z.to_nat n) as [|k IH]; [reflexivity|exact IH].
Qed.

Lemma layout_repr_ascii (digits : str) (decpt : Z) :
  forallb is_ascii digits = true ->
  forallb is_ascii (layout_repr digits decpt) = true.
Proof.
  intro H. unfold layout_repr.
  repeat match goal with
         | |- context [if ?b then _ else _] => destruct b
         end;
    repeat apply ascii_app;
    auto using zeros_ascii, two_digits_ascii, ascii_firstn, ascii_skipn.
Qed.

Lemma float_repr_ascii (f : float) : forallb is_ascii (float_repr f) = true.
Proof.
  unfold float_repr. apply ascii_app; [now destruct (fneg f)|].
  destruct (fmant f =? 0); [reflexivity|].
  destruct (shortest_digits _ _ _ _) as [D q].
  apply layout_repr_ascii, str_of_int_ascii.
Qed.

Lemma str_of_number_ascii (x : number) :
  forallb is_ascii (str_of_number x) = true.
Proof. destruct x; [apply str_of_int_ascii | apply float_repr_ascii]. Qed.

Lemma format_2f_ascii (f : float) : forallb is_ascii (format_2f f) = true.
Proof. apply show_hundredths_ascii. Qed.

End Ascii.

(** ** What a standard output must encode for a run *)

Section Encodable.

Variable sys_stdout : text_stream.

Hypothesis has_ascii :
  forall c, is_ascii c = true -> encodes sys_stdout c = true.

Lemma ascii_encodable (s : str) :
  forallb is_ascii s = true -> can_encode sys_stdout s = true.
Proof.
  unfold can_encode. rewrite !forallb_forall. auto.
Qed.

Lemma join_encodable (a b : str) :
  can_encode sys_stdout a = true -> can_encode sys_stdout b = true ->
  can_encode sys_stdout (join a b) = true.
Proof.
  intros Ha Hb. unfold join.
  destruct (startswith b (lit "/")); [exact Hb|].
  destruct (PyStr.eqb a [] || endswith a (lit "/"));
    repeat (apply can_encode_app; split); auto.
  now apply ascii_encodable.
Qed.

Lemma error_line_encodable (path : str) (e : exc) :
  can_encode sys_stdout path = true ->
  can_encode sys_stdout (exc_str e) = true ->
  can_encode sys_stdout (error_line path e) = true.
Proof.
  intros Hp He. unfold error_line.
  repeat (apply can_encode_app; split); auto;
    now apply ascii_encodable.
Qed.

Lemma file_line_encodable (file : str) (count : Z) :
  can_encode sys_stdout file = true ->
  can_encode sys_stdout (file_line file count) = true.
Proof.
  intro Hf. unfold file_line.
  repeat (apply can_encode_app; split); auto;
    apply ascii_encodable; auto using str_of_int_ascii.
Qed.

Lemma per_file_encodable (file_word_map : dict str Z) :
  (forall k, In k (keys file_word_map) -> can_encode sys_stdout k = true) ->
  can_encode sys_stdout (per_file_text file_word_map) = true.
Proof.
  intro Hk. unfold per_file_text.
  repeat (apply can_encode_app; split); try now apply ascii_encodable.
  apply can_encode_concat. intros part Hp.
  apply in_map_iff in Hp as ([k v] & <- & Hin). cbn [fst snd].
  apply file_line_encodable, Hk. unfold keys.
  change k with (fst (k, v)). now apply in_map.
Qed.

Lemma summary_encodable (total : Z) (mean median mode : str) :
  forallb is_ascii mean = true -> forallb is_ascii median = true ->
  forallb is_ascii mode = true ->
  can_encode sys_stdout (summary_text total mean median mode) = true.
Proof.
  intros H1 H2 H3. apply ascii_encodable. unfold summary_text.
  repeat apply ascii_app; auto using str_of_int_ascii.
Qed.

End Encodable.

(** ** Runs on a standard output that can show the listing *)

Section ShownRuns.

Variables (sys_stdout : text_stream) (fs : filesystem) (directory : str).

Lemma scan_errors_encodable (names : list str) :
  can_show sys_stdout fs directory names ->
  can_encode sys_stdout (scan_errors fs directory names) = true.
Proof.
  intros [Hascii Hshow]. unfold scan_errors.
  apply can_encode_concat. intros part Hp.
  apply in_map_iff in Hp as (filename & <- & Hq).
  unfold qualifying in Hq. apply filter_In in Hq as [Hin Hfile].
  destruct (Hshow filename Hin Hfile) as [Hname Herr].
  unfold errors_of.
  destruct (open_read fs (join directory filename)) as [text|e] eqn:Hr;
    [reflexivity|].
  destruct (Herr e eq_refl) as [Hd He].
  apply error_line_encodable; auto using join_encodable.
Qed.

(** The loop on the stream does what the loop does on a standard
    output that takes every text. *)
Lemma scan_shown (names : list str) :
  can_show sys_stdout fs directory names ->
  exists file_word_map : dict str Z,
    for_in names (wordmmm_stdout.scan_entry sys_stdout fs directory)
           ([], [])
    = (Return (scan_counts fs directory names, file_word_map),
       scan_errors fs directory names)
    /\ for_in names (scan_entry fs directory) ([], [])
       = (Return (scan_counts fs directory names, file_word_map),
          scan_errors fs directory names)
    /\ forall k, In k (keys file_word_map) ->
                 can_encode sys_stdout k = true.
Proof.
  intro Hshow.
  destruct (scan_general fs directory names [] [])
    as (m & Hrun & Hkeys & _).
  cbn [app] in Hrun. exists m.
  split; [|split; [exact Hrun|]].
  - rewrite scan_on_stream; [exact Hrun|].
    rewrite Hrun. unfold stdout. cbn [snd].
    now apply scan_errors_encodable.
  - intros k Hk. apply Hkeys in Hk as [[]|Hq].
    unfold qualifying in Hq. apply filter_In in Hq as [Hin Hfile].
    destruct Hshow as [_ Hshow]. now apply Hshow.
Qed.

(** A run without qualifying entries. *)
Lemma analyze_empty_shown (names : list str) :
  listdir fs directory = Return names ->
  scan_counts fs directory names = [] ->
  (forall c, is_ascii c = true -> encodes sys_stdout c = true) ->
  wordmmm_stdout.analyze_directory_word_counts sys_stdout fs directory
  = (Return tt, lit "No readable files found." ++ newline).
Proof.
  intros Hls Hnone Hascii.
  destruct (scan_general fs directory names [] []) as (m & Hrun & _).
  cbn [app] in Hrun.
  assert (Hse : scan_errors fs directory names = []).
  { unfold scan_errors. unfold scan_counts in Hnone.
    apply map_eq_nil in Hnone. now rewrite Hnone. }
  assert (Hperm : analyze_directory_word_counts fs directory
                  = (Return tt, lit "No readable files found." ++ newline)).
  { rewrite (analyze_listed fs directory names Hls), Hrun, bind_returned.
    rewrite Hnone, Hse. reflexivity. }
  rewrite analyze_on_stream; [exact Hperm|].
  rewrite Hperm. now apply ascii_encodable.
Qed.

(** A run with qualifying entries, within the limits of the
    interpreter: the values shown and the output. *)
Lemma analyze_shown (names : list str) (file_word_map : dict str Z) :
  listdir fs directory = Return names ->
  for_in names (scan_entry fs directory) ([], [])
  = (Return (scan_counts fs directory names, file_word_map),
     scan_errors fs directory names) ->
  scan_counts fs directory names <> [] ->
  len names <= maxsize ->
  (forall filename text,
      In filename names ->
      open_read fs (join directory filename) = Return text ->
      len text <= maxsize) ->
  can_show sys_stdout fs directory names ->
  exists (f : float) (median_words : number) (mode_words : Z),
    rounded f (sum (scan_counts fs directory names))
            (len (scan_counts fs directory names))
    /\ standard_median (scan_counts fs directory names) median_words
    /\ most_frequent (scan_counts fs directory names) mode_words
    /\ wordmmm_stdout.analyze_directory_word_counts sys_stdout fs directory
       = (Return tt,
          scan_errors fs directory names
          ++ per_file_text file_word_map
          ++ summary_text (sum (scan_counts fs directory names))
                          (format_2f f) (str_of_number median_words)
                          (str_of_int mode_words)).
Proof.
  intros Hls Hrun Hne Hn Hfit Hshow.
  pose proof (scan_within_limits fs directory names Hn Hfit) as Hlim.
  destruct (report_values _ file_word_map Hne Hlim)
    as (f & med & v & Hr & Hmed & Hmode & Hrep).
  exists f, med, v.
  split; [exact Hr|]. split; [exact Hmed|]. split; [exact Hmode|].
  assert (Hperm : analyze_directory_word_counts fs directory
                  = (Return tt,
                     scan_errors fs directory names
                     ++ per_file_text file_word_map
                     ++ summary_text (sum (scan_counts fs directory names))
                                     (format_2f f) (str_of_number med)
                                     (str_of_int v))).
  { rewrite (analyze_listed fs directory names Hls), Hrun, bind_returned.
    now rewrite Hrep. }
  rewrite analyze_on_stream; [exact Hperm|].
  rewrite Hperm. unfold stdout. cbn [snd].
  destruct (scan_shown names Hshow) as (m & _ & Hrun' & Hkeys).
  assert (m = file_word_map) as -> by congruence.
  pose proof Hshow as [Hascii _].
  apply can_encode_app. split; [now apply scan_errors_encodable|].
  apply can_encode_app. split; [now apply per_file_encodable|].
  apply summary_encodable;
    auto using format_2f_ascii, str_of_number_ascii, str_of_int_ascii.
Qed.

End ShownRuns.

(* ================================================================== *)
(** * The program against its specification *)
(* ================================================================== *)

Section WordCount.

Variable fs : filesystem.

(** C5.  For a file that can be read as UTF-8 text, [countWords] writes
    nothing and returns the number of maximal runs of non-white-space
    characters of the text; the tokens that splitting on white space
    yields are those runs; the number is non-negative, and it is zero
    for a text that is empty or all white space. *)
Theorem count_words_is_number_of_runs (filepath text : str) :
  open_read fs filepath = Return text ->
  count_words_in_file fs filepath = (Return (word_runs text), [])
  /\ split text = runs text
  /\ word_runs text = len (runs text)
  /\ 0 <= word_runs text
  /\ (forallb isspace text = true -> word_runs text = 0).
Proof.
  intro H. rewrite count_words_in_file_eq.
  unfold words_of, errors_of. rewrite H.
  split; [reflexivity|]. split; [apply split_runs|].
  split; [symmetry; apply len_runs|].
  split; [apply word_runs_from_nonneg | apply word_runs_from_all_space].
Qed.

End WordCount.

Lemma count_words_is_number_of_runs_witness :
  count_words_in_file docs_fs (lit "docs/a.txt") = (Return 3, [])
  /\ word_runs (lit "one two three") = 3.
Proof.
  destruct (count_words_is_number_of_runs
              docs_fs (lit "docs/a.txt") (lit "one two three") eq_refl)
    as (H & _).
  split; [exact H | reflexivity].
Defined.

Section Directory.

Variables (fs : filesystem) (directory : str).

(** C6.  When the directory can be listed and none of its entries is a
    qualifying regular file, the whole output is the single line
    [No readable files found.]: no per-file section, no summary, and the
    function returns normally. *)
Theorem no_files_single_line (names : list str) :
  listdir fs directory = Return names ->
  (forall filename, In filename names ->
                    isfile fs (join directory filename) = false) ->
  analyze_directory_word_counts fs directory
  = (Return tt, lit "No readable files found." ++ newline).
Proof.
  intros Hls Hnone. rewrite (analyze_listed _ _ _ Hls).
  assert (Hq : qualifying fs directory names = []).
  { unfold qualifying. clear Hls.
    induction names as [|n l IH]; [reflexivity|]. cbn [filter].
    rewrite Hnone by now left. apply IH. intros; apply Hnone; now right. }
  destruct (scan_general fs directory names [] []) as (m & Hrun & Hkeys & _).
  assert (Hm : m = []).
  { destruct m as [|[k v] m]; [reflexivity|].
    destruct (proj1 (Hkeys k)) as [[]|Hk]; [now left|].
    rewrite Hq in Hk. destruct Hk. }
  rewrite Hrun. unfold scan_counts, scan_errors. rewrite Hq, Hm.
  reflexivity.
Qed.

(** C9.  At every point of the enumeration loop, that is after any
    number [k] of entries, and so also once the loop is over, the
    sequence of counts and the mapping from file name to count have the
    same number of entries and the mapping's values are the sequence
    itself, hence the same multiset, provided the names of the listing
    are distinct.  The rest of the loop continues from that state. *)
Theorem counts_and_map_in_lockstep (names : list str) (k : nat) :
  listdir fs directory = Return names ->
  NoDup names ->
  exists (word_counts : list Z) (file_word_map : dict str Z) (out : str),
    for_in (firstn k names) (scan_entry fs directory) ([], [])
    = (Return (word_counts, file_word_map), out)
    /\ for_in names (scan_entry fs directory) ([], [])
       = bind (Return (word_counts, file_word_map), out)
              (for_in (skipn k names) (scan_entry fs directory))
    /\ length (items file_word_map) = length word_counts
    /\ values file_word_map = word_counts
    /\ Permutation (values file_word_map) word_counts.
Proof.
  intros _ Hnd.
  assert (Hpre : NoDup (firstn k names)).
  { rewrite <- (firstn_skipn k names) in Hnd.
    now apply NoDup_app_remove_r in Hnd. }
  exists (scan_counts fs directory (firstn k names)),
         (scan_items fs directory (firstn k names)),
         (scan_errors fs directory (firstn k names)).
  assert (Hrun := scan_distinct fs directory (firstn k names) [] [] Hpre
                                (fun _ _ H => H)).
  cbn [app] in Hrun.
  split; [exact Hrun|]. split.
  - rewrite <- Hrun, <- for_in_app. now rewrite firstn_skipn.
  - rewrite <- values_scan_items. unfold values, items.
    rewrite length_map. repeat split; reflexivity.
Qed.

End Directory.

Lemma no_files_single_line_witness :
  analyze_directory_word_counts bare_fs (lit "bare")
  = (Return tt, lit "No readable files found." ++ newline).
Proof.
  apply (no_files_single_line bare_fs (lit "bare") [lit "sub"; lit "tty"]).
  - reflexivity.
  - intros filename [<-|[<-|[]]]; reflexivity.
Defined.

Lemma counts_and_map_in_lockstep_witness :
  exists (word_counts : list Z) (file_word_map : dict str Z) (out : str),
    for_in (firstn 1 [lit "a.txt"; lit "b.txt"])
           (scan_entry docs_fs (lit "docs")) ([], [])
    = (Return (word_counts, file_word_map), out)
    /\ for_in [lit "a.txt"; lit "b.txt"] (scan_entry docs_fs (lit "docs"))
              ([], [])
       = bind (Return (word_counts, file_word_map), out)
              (for_in (skipn 1 [lit "a.txt"; lit "b.txt"])
                      (scan_entry docs_fs (lit "docs")))
    /\ length (items file_word_map) = length word_counts
    /\ values file_word_map = word_counts
    /\ Permutation (values file_word_map) word_counts.
Proof.
  apply (counts_and_map_in_lockstep docs_fs (lit "docs")
                                    [lit "a.txt"; lit "b.txt"] 1).
  - reflexivity.
  - repeat constructor; cbn; intuition discriminate.
Defined.

(** A text without white space at its ends is left as it is. *)
Lemma strip_trimmed (p : str) : trimmed p -> strip p = p.
Proof.
  intros [Hhead Hlast]. unfold strip.
  assert (Hl : lstrip p = p).
  { destruct p as [|c rest]; [reflexivity|].
    cbn [lstrip]. now rewrite (Hhead c rest eq_refl). }
  rewrite Hl. unfold rstrip.
  destruct (rev p) as [|c r] eqn:E.
  - apply (f_equal (@rev char)) in E. rewrite rev_involutive in E.
    now rewrite E.
  - assert (Hp : p = rev r ++ [c]).
    { rewrite <- (rev_involutive p), E. reflexivity. }
    cbn [lstrip]. rewrite (Hlast c (rev r) Hp).
    rewrite <- E. apply rev_involutive.
Qed.

(** C10.  The path typed at the prompt is stripped of leading and trailing
    white space before it is analysed: a path typed with white space around
    it gives the same run, output and outcome, as the path typed alone;
    and when the path itself neither begins nor ends with white space,
    what is left of the answer is that path, and the run is the prompt
    followed by the analysis of that very directory. *)
Theorem main_strips_typed_path (fs : filesystem) (w1 p w2 : str) :
  forallb isspace w1 = true ->
  forallb isspace w2 = true ->
  main fs (w1 ++ p ++ w2) = main fs p
  /\ (trimmed p ->
      strip (w1 ++ p ++ w2) = p
      /\ main fs (w1 ++ p ++ w2)
         = (outcome (analyze_directory_word_counts fs p),
            lit "Enter the directory path: "
            ++ stdout (analyze_directory_word_counts fs p))).
Proof.
  intros H1 H2.
  split; [unfold main; now rewrite strip_surrounded|].
  intro Hp.
  assert (Hs : strip (w1 ++ p ++ w2) = p).
  { rewrite strip_surrounded by assumption. now apply strip_trimmed. }
  split; [exact Hs|].
  unfold main. rewrite Hs. apply bind_write.
Qed.

Lemma main_strips_typed_path_witness :
  main docs_fs (lit "  " ++ lit "docs" ++ lit " 	") = main docs_fs (lit "docs")
  /\ strip (lit "  " ++ lit "docs" ++ lit " 	") = lit "docs"
  /\ main docs_fs (lit "  " ++ lit "docs" ++ lit " 	")
     = (outcome (analyze_directory_word_counts docs_fs (lit "docs")),
        lit "Enter the directory path: "
        ++ stdout (analyze_directory_word_counts docs_fs (lit "docs"))).
Proof.
  destruct (main_strips_typed_path docs_fs (lit "  ") (lit "docs") (lit " 	")
                                   eq_refl eq_refl) as [Hsame Hpath].
  split; [exact Hsame|]. apply Hpath.
  split; intros c rest H;
    change (lit "docs") with [100%N; 111%N; 99%N; 115%N] in H.
  - injection H as <- _. reflexivity.
  - apply (f_equal (@rev char)) in H. rewrite rev_app_distr in H.
    cbn [rev app] in H. injection H as <- _. reflexivity.
Defined.

(** ** Listing failures *)

(** C2 fails on the code.  [os.listdir] is called outside any [try]: when it
    raises, for a path that names nothing, that names a file, or that may
    not be listed, the exception leaves [analyzeDirectory] and nothing has
    been printed; run as a program, only the prompt has been written. *)
Theorem listing_failure_propagates
        (fs : filesystem) (directory typed : str) (e : exc) :
  listdir fs directory = Raise e ->
  analyze_directory_word_counts fs directory = (Raise e, [])
  /\ (strip typed = directory ->
      main fs typed = (Raise e, lit "Enter the directory path: ")).
Proof.
  intro H. split.
  - now apply analyze_listdir_raises.
  - intros <-. unfold main.
    rewrite bind_write, (analyze_listdir_raises _ _ _ H). reflexivity.
Qed.

Lemma listing_failure_propagates_witness :
  analyze_directory_word_counts docs_fs (lit "missing")
  = (Raise (Exc FileNotFoundError
              (lit "[Errno 2] No such file or directory: 'missing'")),
     []).
Proof.
  exact (proj1 (listing_failure_propagates
                  docs_fs (lit "missing") (lit " missing")
                  (Exc FileNotFoundError
                       (lit "[Errno 2] No such file or directory: 'missing'"))
                  eq_refl)).
Defined.

(** The same at a path that names a regular file. *)
Lemma file_as_directory_raises :
  analyze_directory_word_counts docs_fs (lit "docs/a.txt")
  = (Raise (Exc NotADirectoryError
              (lit "[Errno 20] Not a directory: 'docs/a.txt'")),
     []).
Proof. reflexivity. Qed.

(** ** Symbolic links *)

(** C3 as stated fails: a symbolic link to a regular file is counted and
    listed.  In the sample directory [alias] is a link to [notes.txt]. *)
Lemma symlink_to_regular_file_is_listed :
  lookup mixed_fs (join (lit "mixed") (lit "alias"))
  = Some (Symlink (lit "mixed/notes.txt"))
  /\ analyze_directory_word_counts mixed_fs (lit "mixed")
     = (Return tt,
        text_of_lines
          [ "Error reading mixed/blob: 'utf-8' codec can't decode byte 0xff in position 0: invalid start byte";
            "";
            "Word count per file:";
            "  notes.txt: 3 words";
            "  alias: 3 words";
            "  blob: 0 words";
            "";
            "Summary statistics:";
            "  Total words: 6";
            "  Mean words per file: 2.00";
            "  Median words per file: 3";
            "  Mode words per file: 3" ]%string).
Proof. split; vm_compute; reflexivity. Qed.

(** C3, amended.  The scan looks only at the names of the listing and
    keeps exactly those that [os.path.isfile] accepts, that is the entries
    that resolve, through symbolic links if any, to a regular file.  There
    is one count per kept entry, in listing order.  A sub-directory, a
    special file and a missing entry are never kept, and dropping such an
    entry from the listing leaves the counts unchanged; a symbolic link is
    kept exactly when its target resolves to a regular file. *)
Theorem scan_keeps_what_isfile_accepts
        (fs : filesystem) (directory : str) (names : list str) :
  listdir fs directory = Return names ->
  exists (word_counts : list Z) (file_word_map : dict str Z) (out : str),
    for_in names (scan_entry fs directory) ([], [])
    = (Return (word_counts, file_word_map), out)
    /\ word_counts
       = map (fun filename => words_of fs (join directory filename))
             (filter (fun filename => isfile fs (join directory filename))
                     names)
    /\ (forall filename,
          In filename (keys file_word_map)
          <-> In filename names
              /\ resolves_to_regular fs (join directory filename))
    /\ (forall filename,
          In filename names ->
          match lookup fs (join directory filename) with
          | Some (RegularFile _) => In filename (keys file_word_map)
          | Some (Directory _) | Some Special | None =>
              ~ In filename (keys file_word_map)
          | Some (Symlink target) =>
              In filename (keys file_word_map)
              <-> exists content,
                    follow 39 fs target = Some (RegularFile content)
          end)
    /\ (forall l1 filename l2,
          names = l1 ++ filename :: l2 ->
          isfile fs (join directory filename) = false ->
          word_counts
          = map (fun filename => words_of fs (join directory filename))
                (filter (fun filename => isfile fs (join directory filename))
                        (l1 ++ l2))).
Proof.
  intros _.
  destruct (scan_general fs directory names [] []) as (m & Hrun & Hkeys & _).
  exists (scan_counts fs directory names), m, (scan_errors fs directory names).
  assert (Hin : forall filename,
             In filename (keys m)
             <-> In filename names
                 /\ resolves_to_regular fs (join directory filename)).
  { intro k. rewrite Hkeys. unfold qualifying.
    pose proof (filter_In (fun filename => isfile fs (join directory filename))
                          k names) as Hf.
    pose proof (isfile_true_iff fs (join directory k)) as Hr.
    cbn in *. tauto. }
  split; [exact Hrun|]. split; [reflexivity|]. split; [exact Hin|]. split.
  - intros k Hk.
    destruct (lookup fs (join directory k)) as [[c|l| |t]|] eqn:Hl;
      rewrite Hin.
    + split; [exact Hk|]. exists c. apply stat_not_link; [exact Hl|].
      discriminate.
    + intros [_ Hreg]. apply isfile_true_iff in Hreg.
      now rewrite (isfile_directory _ _ _ Hl) in Hreg.
    + intros [_ Hreg]. apply isfile_true_iff in Hreg.
      now rewrite (isfile_special _ _ Hl) in Hreg.
    + unfold resolves_to_regular. rewrite (stat_link _ _ _ Hl). tauto.
    + intros [_ [c Hreg]]. now rewrite (stat_missing _ _ Hl) in Hreg.
  - intros l1 k l2 -> Hk. now apply scan_counts_skip.
Qed.

Lemma scan_keeps_what_isfile_accepts_witness :
  exists (word_counts : list Z) (file_word_map : dict str Z),
    for_in (map lit ["notes.txt"; "sub"; "tty"; "gone"; "alias"; "blob"]%string)
           (scan_entry mixed_fs (lit "mixed")) ([], [])
    = (Return (word_counts, file_word_map),
       error_line (lit "mixed/blob")
                  (Exc UnicodeDecodeError
                       (lit "'utf-8' codec can't decode byte 0xff in position 0: invalid start byte")))
    /\ word_counts = [3; 3; 0]
    /\ keys file_word_map = map lit ["notes.txt"; "alias"; "blob"]%string.
Proof.
  destruct (scan_keeps_what_isfile_accepts
              mixed_fs (lit "mixed")
              (map lit ["notes.txt"; "sub"; "tty"; "gone"; "alias"; "blob"]%string)
              eq_refl)
    as (wcs & m & out & Hrun & Hwcs & _).
  exists wcs, m. vm_compute in Hrun. injection Hrun as <- <- <-.
  repeat split; reflexivity.
Defined.

(** ** The mode *)

(** C1 fails on the code.  For every non-empty sequence of counts within
    the limits of the interpreter, [statistics.mode] returns a value and
    does not raise, so the handler that sets the marker does not run: the
    report shows as the mode one of the counts, a most frequent one, also
    when several values tie for the highest frequency.  The marker is never
    shown. *)
Theorem mode_shown_is_a_count
        (word_counts : list Z) (file_word_map : dict str Z) :
  word_counts <> [] ->
  within_limits word_counts ->
  exists (v : Z) (mean_text median_text : str),
    In v word_counts
    /\ (forall u, occurrences word_counts u <= occurrences word_counts v)
    /\ mode_or_marker statistics.mode word_counts = (Return (ModeInt v), [])
    /\ report (word_counts, file_word_map)
       = (Return tt,
          per_file_text file_word_map
          ++ summary_text (sum word_counts) mean_text median_text
                          (str_of_int v)).
Proof.
  intros Hne Hlim.
  destruct (within_limits_sum _ Hlim) as [Hpos [Hs0 Hbig]].
  destruct (mean_shown word_counts Hne) as (x & h & Hx & Hf & _).
  { split; [lia|]. change (2 ^ 1020) with (2 * 2 ^ 1019). lia. }
  assert (Hmed : exists med, statistics.median word_counts = Return med).
  { destruct (median_cases word_counts Hne Hpos Hbig)
      as [[_ H]|[_ (m & e & H & _)]]; eauto. }
  destruct Hmed as [med Hmed].
  assert (Hmode : exists v, statistics.mode word_counts = Return v).
  { destruct word_counts as [|c cs]; [contradiction|].
    destruct (mode_returns c cs) as (v & Hv & _). eauto. }
  destruct Hmode as [v Hv].
  destruct (mode_most_frequent _ _ Hv) as [Hin Hmost].
  exists v, (show_hundredths false h), (str_of_number med).
  split; [exact Hin|]. split; [exact Hmost|]. split.
  - now rewrite (mode_or_marker_return _ _ _ Hv).
  - now apply (report_eq _ _ x med _ v).
Qed.

(** The specification's own example: [a.txt] holds three words and [b.txt]
    two, the counts 3 and 2 tie with one occurrence each, and the mode
    shown is 3. *)
Lemma mode_shown_is_a_count_witness :
  exists mean_text median_text : str,
    report ([3; 2], [(lit "a.txt", 3); (lit "b.txt", 2)])
    = (Return tt,
       per_file_text [(lit "a.txt", 3); (lit "b.txt", 2)]
       ++ summary_text 5 mean_text median_text (lit "3")).
Proof.
  destruct (mode_shown_is_a_count [3; 2] [(lit "a.txt", 3); (lit "b.txt", 2)])
    as (v & mean_text & median_text & _ & _ & Hmode & Hrun).
  - discriminate.
  - split; [vm_compute; discriminate|].
    repeat constructor; vm_compute; discriminate.
  - vm_compute in Hmode. injection Hmode as <-.
    exists mean_text, median_text. exact Hrun.
Defined.

(** The whole output of that example. *)
Lemma docs_example_output :
  analyze_directory_word_counts docs_fs (lit "docs")
  = (Return tt,
     text_of_lines
       [ "";
         "Word count per file:";
         "  a.txt: 3 words";
         "  b.txt: 2 words";
         "";
         "Summary statistics:";
         "  Total words: 5";
         "  Mean words per file: 2.50";
         "  Median words per file: 2.5";
         "  Mode words per file: 3" ]%string).
Proof. vm_compute. reflexivity. Qed.

(** The specification's second example, counts 4, 4 and 7. *)
Lemma second_example_output :
  report ([4; 4; 7], [(lit "a", 4); (lit "b", 4); (lit "c", 7)])
  = (Return tt,
     text_of_lines
       [ "";
         "Word count per file:";
         "  a: 4 words";
         "  b: 4 words";
         "  c: 7 words";
         "";
         "Summary statistics:";
         "  Total words: 15";
         "  Mean words per file: 5.00";
         "  Median words per file: 4";
         "  Mode words per file: 4" ]%string).
Proof. vm_compute. reflexivity. Qed.

(** A value that occurs strictly more often than every other one is the
    mode shown. *)
Lemma strict_majority_is_shown
      (word_counts : list Z) (file_word_map : dict str Z) (v : Z) :
  within_limits word_counts ->
  In v word_counts ->
  (forall u, u <> v -> occurrences word_counts u < occurrences word_counts v) ->
  exists mean_text median_text : str,
    report (word_counts, file_word_map)
    = (Return tt,
       per_file_text file_word_map
       ++ summary_text (sum word_counts) mean_text median_text
                       (str_of_int v)).
Proof.
  intros Hlim Hin Hmax.
  pose proof (mode_strict_majority word_counts v Hin Hmax) as Hv.
  assert (Hne : word_counts <> []) by (intros ->; destruct Hin).
  destruct (within_limits_sum _ Hlim) as [Hpos [Hs0 Hbig]].
  destruct (mean_shown word_counts Hne) as (x & h & Hx & Hf & _).
  { split; [lia|]. change (2 ^ 1020) with (2 * 2 ^ 1019). lia. }
  assert (Hmed : exists med, statistics.median word_counts = Return med).
  { destruct (median_cases word_counts Hne Hpos Hbig)
      as [[_ H]|[_ (m & e & H & _)]]; eauto. }
  destruct Hmed as [med Hmed].
  exists (show_hundredths false h), (str_of_number med).
  now apply (report_eq _ _ x med _ v).
Qed.

(** ** Files that cannot be read *)



Lemma utf8_has_ascii (c : char) :
  is_ascii c = true -> encodes utf8_stdout c = true.
Proof.
  unfold is_ascii. intro H. apply N.ltb_lt in H.
  cbn [encodes utf8_stdout]. unfold is_surrogate.
  destruct (N.leb_spec 55296 c) as [Hc|_]; [lia | reflexivity].
Qed.


(** ** Total and mean *)

(** C7 as stated fails for counts beyond the mantissa of a float: with one
    file of [2^53 + 1] words the total is shown exactly, but the mean,
    which [.2f] formats through a float, is shown one word lower. *)
Lemma huge_count_mean_is_off :
  report (huge_counts, huge_map)
  = (Return tt,
     text_of_lines
       [ "";
         "Word count per file:";
         "  big.txt: 9007199254740993 words";
         "";
         "Summary statistics:";
         "  Total words: 9007199254740993";
         "  Mean words per file: 9007199254740992.00";
         "  Median words per file: 9007199254740993";
         "  Mode words per file: 9007199254740993" ]%string)
  /\ sum huge_counts = 9007199254740993
  /\ len huge_counts = 1
  /\ show_hundredths false 900719925474099200 = lit "9007199254740992.00"
  /\ ~ (- len huge_counts
        <= 2 * (900719925474099200 * len huge_counts - 100 * sum huge_counts)
        <= len huge_counts).
Proof.
  split; [vm_compute; reflexivity|].
  split; [reflexivity|]. split; [reflexivity|].
  split; [vm_compute; reflexivity|].
  vm_compute. intros [H _]. apply H. reflexivity.
Qed.

(** C7, amended.  For a non-empty sequence of counts within the limits of
    the interpreter whose sum is below [2^45], the report runs to its end,
    the total shown is the exact integer sum of the counts, and the mean
    shown, [h] hundredths, is within half a hundredth of the total divided
    by the number of files: [|h/100 - total/n| <= 1/200], whichever way a
    tie in the third decimal is broken. *)
Theorem total_and_mean_shown
        (word_counts : list Z) (file_word_map : dict str Z) :
  word_counts <> [] ->
  within_limits word_counts ->
  sum word_counts < 2 ^ 45 ->
  exists (h : Z) (median_text mode_text : str),
    report (word_counts, file_word_map)
    = (Return tt,
       per_file_text file_word_map
       ++ summary_text (sum word_counts) (show_hundredths false h)
                       median_text mode_text)
    /\ sum word_counts = fold_right Z.add 0 word_counts
    /\ - len word_counts
       <= 2 * (h * len word_counts - 100 * sum word_counts)
       <= len word_counts
    /\ (Qabs ((h # 100) - (sum word_counts # Z.to_pos (len word_counts)))
        <= 1 # 200)%Q.
Proof.
  intros Hne Hlim Hsum.
  destruct (within_limits_sum _ Hlim) as [Hpos [Hs0 _]].
  assert (Hn63 : len word_counts < 2 ^ 63)
    by (destruct Hlim as [Hlen _]; unfold maxsize in Hlen; lia).
  destruct (mean_shown_accurate word_counts Hne ltac:(lia) Hn63)
    as (x & h & Hx & Hf & Hacc).
  assert (Hmed : exists med, statistics.median word_counts = Return med).
  { destruct (median_cases word_counts Hne Hpos)
      as [[_ H]|[_ (m & e & H & _)]]; eauto.
    change (2 ^ 1019) with (2 ^ 45 * 2 ^ 974).
    pose proof (Z.pow_pos_nonneg 2 974). nia. }
  destruct Hmed as [med Hmed].
  assert (Hmode : exists v, statistics.mode word_counts = Return v).
  { destruct word_counts as [|c cs]; [contradiction|].
    destruct (mode_returns c cs) as (v & Hv & _). eauto. }
  destruct Hmode as [v Hv].
  exists h, (str_of_number med), (str_of_int v).
  split; [now apply (report_eq _ _ x med _ v)|].
  split; [apply sum_fold_right|]. split; [exact Hacc|].
  assert (Hn1 : 1 <= len word_counts).
  { unfold len. destruct word_counts; [contradiction|]. cbn [length]. lia. }
  apply Qabs_Qle_condition.
  unfold Qle, Qminus, Qplus, Qopp. cbn [Qnum Qden].
  rewrite !Pos2Z.inj_mul, !Z2Pos.id by lia.
  split; nia.
Qed.

Lemma total_and_mean_shown_witness :
  exists (h : Z) (median_text mode_text : str),
    report ([4; 4; 7], [(lit "a", 4); (lit "b", 4); (lit "c", 7)])
    = (Return tt,
       per_file_text [(lit "a", 4); (lit "b", 4); (lit "c", 7)]
       ++ summary_text 15 (show_hundredths false h) median_text mode_text)
    /\ -3 <= 2 * (h * 3 - 100 * 15) <= 3.
Proof.
  destruct (total_and_mean_shown
              [4; 4; 7] [(lit "a", 4); (lit "b", 4); (lit "c", 7)])
    as (h & median_text & mode_text & Hrun & _ & Hacc & _).
  - discriminate.
  - split; [vm_compute; discriminate|].
    repeat constructor; vm_compute; discriminate.
  - reflexivity.
  - exists h, median_text, mode_text. split; [exact Hrun | exact Hacc].
Defined.

(** ** Median *)

(** C8 as stated fails for counts beyond the mantissa of a float: the
    average of [2^53] and [2^53 + 1] is not a float, and the median shown
    is [2^53], half a word below it. *)
Lemma huge_counts_median_is_rounded :
  report (close_counts, close_map)
  = (Return tt,
     text_of_lines
       [ "";
         "Word count per file:";
         "  x.txt: 9007199254740992 words";
         "  y.txt: 9007199254740993 words";
         "";
         "Summary statistics:";
         "  Total words: 18014398509481985";
         "  Mean words per file: 9007199254740992.00";
         "  Median words per file: 9007199254740992.0";
         "  Mode words per file: 9007199254740992" ]%string)
  /\ statistics.median close_counts
     = Return (PyFloat (Float false (2 ^ 52) 1))
  /\ ~ float_value (Float false (2 ^ 52) 1)
       == (2 ^ 53 + (2 ^ 53 + 1)) # 2.
Proof.
  split; [vm_compute; reflexivity|].
  split; [vm_compute; reflexivity|].
  unfold Qeq. vm_compute. discriminate.
Qed.

(** C8, amended.  For a non-empty sequence of counts within the limits of
    the interpreter the report runs to its end and the median shown is the
    standard one over the ordered counts [s]: the middle element when their
    number is odd; when it is even, the average of the two middle elements
    as a float, which is exactly the average when their sum is at most
    [2^53] and is the average up to the rounding of a float, a relative
    error of at most [2^-53], in every case. *)
Theorem median_shown
        (word_counts : list Z) (file_word_map : dict str Z) (s : list Z) :
  word_counts <> [] ->
  within_limits word_counts ->
  Sorted Z.le s ->
  Permutation s word_counts ->
  let n := len word_counts in
  exists (median_words : number) (mean_text mode_text : str),
    report (word_counts, file_word_map)
    = (Return tt,
       per_file_text file_word_map
       ++ summary_text (sum word_counts) mean_text
                       (str_of_number median_words) mode_text)
    /\ (n mod 2 = 1 ->
        median_words = PyInt (nth (Z.to_nat (n / 2)) s 0))
    /\ (n mod 2 = 0 ->
        let two := nth (Z.to_nat (n / 2 - 1)) s 0 + nth (Z.to_nat (n / 2)) s 0 in
        exists f : float,
          median_words = PyFloat f
          /\ rounded f two 2
          /\ (two <= 2 ^ 53 -> float_value f == two # 2)).
Proof.
  intros Hne Hlim Hs Hp n.
  destruct (within_limits_sum _ Hlim) as [Hpos [Hs0 Hbig]].
  assert (Hn1 : 1 <= n).
  { subst n. unfold len. destruct word_counts; [contradiction|].
    cbn [length]. lia. }
  destruct (mean_shown word_counts Hne) as (x & h & Hx & Hf & _).
  { split; [lia|]. change (2 ^ 1020) with (2 * 2 ^ 1019). lia. }
  assert (Hmode : exists v, statistics.mode word_counts = Return v).
  { destruct word_counts as [|c cs]; [contradiction|].
    destruct (mode_returns c cs) as (v & Hv & _). eauto. }
  destruct Hmode as [v Hv].
  pose proof (sorted_is word_counts s Hs Hp) as Hsorted.
  assert (Hin : forall i, 0 <= i < n -> 0 <= getitem s i).
  { intros i Hi. rewrite Forall_forall in Hpos. apply Hpos.
    apply (Permutation_in _ Hp). apply getitem_in.
    unfold len. rewrite (Permutation_length Hp). exact Hi. }
  destruct (median_cases word_counts Hne Hpos Hbig) as [[Hodd Hm]|[Heven Hm]];
    cbv zeta in Hm; rewrite Hsorted in Hm; fold n in Hm, Hodd || fold n in Hm, Heven.
  - exists (PyInt (getitem s (n / 2))), (show_hundredths false h), (str_of_int v).
    split; [now apply (report_eq _ _ x _ _ v)|].
    split; [reflexivity|]. intro; lia.
  - destruct Hm as (m & e & Hm & Hcase).
    pose proof (Z.div_mod n 2 ltac:(lia)) as Hdm.
    pose proof (Hin (n / 2 - 1) ltac:(lia)) as Ha.
    pose proof (Hin (n / 2) ltac:(lia)) as Hb2.
    exists (PyFloat (Float false m e)), (show_hundredths false h),
           (str_of_int v).
    split; [now apply (report_eq _ _ x _ _ v)|].
    split; [intro; lia|]. intros _. cbv zeta.
    exists (Float false m e). split; [reflexivity|].
    change (nth (Z.to_nat (n / 2 - 1)) s 0) with (getitem s (n / 2 - 1)).
    change (nth (Z.to_nat (n / 2)) s 0) with (getitem s (n / 2)).
    split.
    + destruct Hcase as [[-> ->]|[Hpos2 Hr]]; [apply rounded_zero|].
      apply rounded_of_round; try lia; [exact Hr|].
      pose proof (floor_log2_range
                    (getitem s (n / 2 - 1) + getitem s (n / 2)) 2) as [Hfl _].
      change (Z.log2 2) with 1 in Hfl.
      pose proof (Z.log2_nonneg (getitem s (n / 2 - 1) + getitem s (n / 2))).
      lia.
    + intro Hsmall.
      destruct (halving_exact (getitem s (n / 2 - 1) + getitem s (n / 2)))
        as (m' & e' & Hdiv & Hex); [lia|].
      assert (Hf' : statistics.median word_counts
                    = Return (PyFloat (Float false m' e'))).
      { unfold statistics.median. rewrite len_sorted, Hsorted. fold n.
        destruct (Z.eqb_spec n 0) as [|_]; [lia|].
        destruct (Z.eqb_spec (n mod 2) 1) as [|_]; [lia|].
        now rewrite Hdiv. }
      rewrite Hm in Hf'. injection Hf' as -> ->.
      apply (exactly_value m' e' _ 2 ltac:(lia) Hex).
Qed.

Lemma median_shown_witness :
  exists (median_words : number) (mean_text mode_text : str),
    report ([3; 2], [(lit "a.txt", 3); (lit "b.txt", 2)])
    = (Return tt,
       per_file_text [(lit "a.txt", 3); (lit "b.txt", 2)]
       ++ summary_text 5 mean_text (str_of_number median_words) mode_text)
    /\ exists f : float,
         median_words = PyFloat f /\ rounded f 5 2 /\ float_value f == 5 # 2.
Proof.
  destruct (median_shown [3; 2] [(lit "a.txt", 3); (lit "b.txt", 2)] [2; 3])
    as (med & mean_text & mode_text & Hrun & _ & Heven).
  - discriminate.
  - split; [vm_compute; discriminate|].
    repeat constructor; vm_compute; discriminate.
  - repeat constructor. lia.
  - apply perm_swap.
  - exists med, mean_text, mode_text. split; [exact Hrun|].
    destruct (Heven eq_refl) as (f & Hf & Hround & Hexact).
    exists f. split; [exact Hf|]. split; [exact Hround|].
    apply Hexact. vm_compute. discriminate.
Defined.

(* ================================================================== *)
(** * Further properties of the program *)
(* ================================================================== *)

(** ** Words of a text *)

Section Words.

Lemma split_from_all_space (w : str) :
  forallb isspace w = true -> split_from [] w = [].
Proof.
  induction w as [|c w IH]; cbn [forallb split_from]; [reflexivity|].
  intro H. apply andb_true_iff in H as [-> Hw]. auto.
Qed.

Lemma split_from_space_app (ws s : str) :
  forallb isspace ws = true -> split_from [] (ws ++ s) = split_from [] s.
Proof.
  induction ws as [|c ws IH]; cbn [forallb split_from app]; [reflexivity|].
  intro H. apply andb_true_iff in H as [-> Hw]. auto.
Qed.

(** A white-space character ends the token being read: what follows is
    split on its own. *)
Lemma split_from_at_space (a b w : str) (c : char) :
  isspace c = true ->
  split_from w (a ++ c :: b) = split_from w a ++ split_from [] b.
Proof.
  intro Hc. revert w.
  induction a as [|x a IH]; intro w; cbn [app split_from].
  - rewrite Hc. destruct w; reflexivity.
  - destruct (isspace x).
    + destruct w; rewrite IH; reflexivity.
    + apply IH.
Qed.

Lemma split_from_app_space (s ws w : str) :
  forallb isspace ws = true -> split_from w (s ++ ws) = split_from w s.
Proof.
  intro H. destruct ws as [|c ws]; [now rewrite app_nil_r|].
  cbn [forallb] in H. apply andb_true_iff in H as [Hc Hws].
  rewrite (split_from_at_space _ _ _ _ Hc), (split_from_all_space _ Hws).
  apply app_nil_r.
Qed.

Lemma split_separated (a ws b : str) :
  ws <> [] -> forallb isspace ws = true ->
  split (a ++ ws ++ b) = split a ++ split b.
Proof.
  intros Hne H. unfold split.
  destruct ws as [|c ws]; [contradiction|].
  cbn [forallb] in H. apply andb_true_iff in H as [Hc Hws].
  cbn [app]. rewrite (split_from_at_space _ _ _ _ Hc).
  now rewrite (split_from_space_app _ _ Hws).
Qed.

Lemma split_padded (w1 s w2 : str) :
  forallb isspace w1 = true -> forallb isspace w2 = true ->
  split (w1 ++ s ++ w2) = split s.
Proof.
  intros H1 H2. unfold split.
  rewrite (split_from_space_app _ _ H1). now apply split_from_app_space.
Qed.

(** Two words need a character between them. *)
Lemma word_runs_from_bound (s : str) :
  2 * word_runs_from true s <= len s + 1
  /\ 2 * word_runs_from false s <= len s.
Proof.
  induction s as [|c s [IHt IHf]].
  - rewrite !word_runs_from_nil. unfold len. cbn. lia.
  - rewrite !word_runs_from_cons. unfold len in *. cbn [length].
    destruct (isspace c); cbn [negb andb]; lia.
Qed.

End Words.

(** ** Counting the words of one file, further *)

Section CountWordsMore.

Variable fs : filesystem.

(** X2.  The count of a readable file is at most half the length of its
    text, rounded up: two words need a white-space character between
    them. *)
Theorem count_at_most_half_length (filepath text : str) :
  open_read fs filepath = Return text ->
  exists n : Z,
    count_words_in_file fs filepath = (Return n, [])
    /\ 0 <= n /\ 2 * n <= len text + 1.
Proof.
  intro H. exists (word_runs text).
  rewrite count_words_in_file_eq. unfold words_of, errors_of. rewrite H.
  split; [reflexivity|]. split; [apply word_runs_from_nonneg|].
  apply word_runs_from_bound.
Qed.

(** X3.  Counts add up over texts joined by white space: a file whose
    text is the text of one file, some white space, and the text of
    another has the sum of their counts. *)
Theorem count_of_joined_texts (path1 path2 path3 a ws b : str) :
  open_read fs path1 = Return a ->
  open_read fs path2 = Return b ->
  open_read fs path3 = Return (a ++ ws ++ b) ->
  ws <> [] -> forallb isspace ws = true ->
  exists n1 n2 : Z,
    count_words_in_file fs path1 = (Return n1, [])
    /\ count_words_in_file fs path2 = (Return n2, [])
    /\ count_words_in_file fs path3 = (Return (n1 + n2), []).
Proof.
  intros H1 H2 H3 Hne Hws.
  exists (len (split a)), (len (split b)).
  rewrite !count_words_in_file_eq. unfold words_of, errors_of.
  rewrite H1, H2, H3, <- !len_split, (split_separated _ _ _ Hne Hws).
  repeat split. unfold len. rewrite length_app. do 2 f_equal. lia.
Qed.

(** X4.  White space around a text does not change the count, whichever
    white-space characters they are (blanks, tabs, line ends of any
    kind). *)
Theorem count_ignores_padding (path1 path2 w1 s w2 : str) :
  open_read fs path1 = Return s ->
  open_read fs path2 = Return (w1 ++ s ++ w2) ->
  forallb isspace w1 = true -> forallb isspace w2 = true ->
  count_words_in_file fs path2 = count_words_in_file fs path1.
Proof.
  intros H1 H2 Hw1 Hw2.
  rewrite !count_words_in_file_eq. unfold words_of, errors_of.
  rewrite H1, H2, <- !len_split, (split_padded _ _ _ Hw1 Hw2).
  reflexivity.
Qed.

End CountWordsMore.

Lemma count_at_most_half_length_witness :
  exists n : Z,
    count_words_in_file docs_fs (lit "docs/b.txt") = (Return n, [])
    /\ 0 <= n /\ 2 * n <= 9 + 1.
Proof.
  exact (count_at_most_half_length docs_fs (lit "docs/b.txt")
                                   (lit "four five") eq_refl).
Defined.

Lemma count_of_joined_texts_witness :
  exists n1 n2 : Z,
    count_words_in_file joined_fs (lit "one") = (Return n1, [])
    /\ count_words_in_file joined_fs (lit "two") = (Return n2, [])
    /\ count_words_in_file joined_fs (lit "both") = (Return (n1 + n2), []).
Proof.
  apply (count_of_joined_texts joined_fs (lit "one") (lit "two") (lit "both")
                               (lit "to be or") [10%N; 9%N] (lit "not to be"));
    try reflexivity.
  discriminate.
Defined.

Lemma count_ignores_padding_witness :
  count_words_in_file joined_fs (lit "padded")
  = count_words_in_file joined_fs (lit "one").
Proof.
  apply (count_ignores_padding joined_fs (lit "one") (lit "padded")
                               [32%N; 160%N] (lit "to be or") [13%N; 10%N]);
    reflexivity.
Defined.

(** ** The loop over the listing, further *)

Section ScanMore.

Variables (fs : filesystem) (directory : str).

Lemma for_in_ext {S A : Type} (xs : list A) (body body' : S -> A -> io S) :
  (forall s x, In x xs -> body s x = body' s x) ->
  forall s, for_in xs body s = for_in xs body' s.
Proof.
  induction xs as [|x xs IH]; intros H s; cbn [for_in]; [reflexivity|].
  rewrite H by now left. apply bind_ext. intro s'. apply IH.
  intros s0 x0 Hx0. apply H. now right.
Qed.

(** Whatever the loop is started with, the keys of the mapping stay
    distinct. *)
Lemma scan_keys_distinct (names : list str) :
  forall (word_counts word_counts' : list Z)
         (file_word_map file_word_map' : dict str Z) (out : str),
    NoDup (keys file_word_map) ->
    for_in names (scan_entry fs directory) (word_counts, file_word_map)
    = (Return (word_counts', file_word_map'), out) ->
    NoDup (keys file_word_map').
Proof.
  induction names as [|n names IH]; intros wcs wcs' m m' out Hnd Hrun.
  - cbn in Hrun. now injection Hrun as _ <- _.
  - cbn [for_in] in Hrun. rewrite scan_entry_eq in Hrun.
    destruct (isfile fs (join directory n));
      rewrite bind_returned in Hrun;
      match type of Hrun with
      | (outcome ?r, _) = _ =>
          destruct r as [res o] eqn:Hr; cbn [outcome fst] in Hrun
      end;
      injection Hrun as -> _;
      eapply IH; try exact Hr; [now apply NoDup_keys_setitem | exact Hnd].
Qed.

(** The items of the mapping after the loop: each qualifying name with
    the word count of its file, and nothing else. *)
Lemma scan_items_iff (names : list str) :
  exists file_word_map : dict str Z,
    for_in names (scan_entry fs directory) ([], [])
    = (Return (scan_counts fs directory names, file_word_map),
       scan_errors fs directory names)
    /\ forall filename count,
         In (filename, count) (items file_word_map)
         <-> In filename names
             /\ isfile fs (join directory filename) = true
             /\ count = words_of fs (join directory filename).
Proof.
  destruct (scan_general fs directory names [] [])
    as (m & Hrun & Hkeys & Hget & _).
  cbn [app] in Hrun. exists m. split; [exact Hrun|].
  pose proof (scan_keys_distinct names [] _ [] _ _ (NoDup_nil _) Hrun) as Hnd.
  assert (Hq : forall k, In k (qualifying fs directory names)
                         <-> In k names
                             /\ isfile fs (join directory k) = true).
  { intro k. unfold qualifying.
    exact (filter_In (fun filename => isfile fs (join directory filename))
                     k names). }
  intros k c. split.
  - intro Hin.
    assert (Hk : In k (qualifying fs directory names)).
    { destruct (proj1 (Hkeys k)) as [[]|Hk]; [|exact Hk].
      unfold keys. apply (in_map fst) in Hin. exact Hin. }
    destruct (proj1 (Hq k) Hk) as [Hn Hf].
    split; [exact Hn|]. split; [exact Hf|].
    rewrite <- (Hget k 0 Hk). symmetry. now apply get_of_item.
  - intros (Hn & Hf & ->).
    assert (Hk : In k (qualifying fs directory names)) by (apply Hq; auto).
    rewrite <- (Hget k 0 Hk). apply in_items_get. apply Hkeys. now right.
Qed.

(** X5.  Entries that do not qualify are skipped without a trace: from
    any state the loop over the listing does, prints and leaves what the
    loop over the qualifying entries alone does. *)
Theorem skipped_entries_leave_no_trace
        (names : list str) (vars : list Z * dict str Z) :
  for_in names (scan_entry fs directory) vars
  = for_in (filter (fun filename => isfile fs (join directory filename))
                   names)
           (scan_entry fs directory) vars.
Proof.
  revert vars. induction names as [|n names IH]; intros [wcs m];
    [reflexivity|].
  cbn [for_in filter].
  destruct (isfile fs (join directory n)) eqn:Hn.
  - cbn [for_in]. apply bind_ext. intro vars. apply IH.
  - rewrite scan_entry_eq, Hn, bind_returned.
    rewrite <- IH. now destruct (for_in names _ _).
Qed.

(** X6.  After the loop the mapping holds, for every name of the listing
    that qualifies, the word count of that file, and it holds no other
    item: a name that is listed twice has one item. *)
Theorem mapping_holds_the_counts (names : list str) :
  exists (word_counts : list Z) (file_word_map : dict str Z) (out : str),
    for_in names (scan_entry fs directory) ([], [])
    = (Return (word_counts, file_word_map), out)
    /\ NoDup (keys file_word_map)
    /\ forall filename count,
         In (filename, count) (items file_word_map)
         <-> In filename names
             /\ isfile fs (join directory filename) = true
             /\ count = words_of fs (join directory filename).
Proof.
  destruct (scan_items_iff names) as (m & Hrun & Hitems).
  exists (scan_counts fs directory names), m,
         (scan_errors fs directory names).
  split; [exact Hrun|]. split; [|exact Hitems].
  exact (scan_keys_distinct names [] _ [] _ _ (NoDup_nil _) Hrun).
Qed.

(** X7.  The layout of a run on a directory with distinct names and at
    least one qualifying entry, within the limits of the interpreter and
    on a standard output that can encode what is printed: first the
    error lines of the unreadable files, in listing order, then the
    per-file section with one line per qualifying entry, in listing
    order, then the summary. *)
Theorem output_follows_listing_order
        (sys_stdout : text_stream) (names : list str) :
  listdir fs directory = Return names ->
  NoDup names ->
  filter (fun filename => isfile fs (join directory filename)) names
  <> [] ->
  len names <= maxsize ->
  (forall filename text,
      In filename names ->
      open_read fs (join directory filename) = Return text ->
      len text <= maxsize) ->
  can_show sys_stdout fs directory names ->
  let files :=
    filter (fun filename => isfile fs (join directory filename)) names in
  exists mean_text median_text mode_text : str,
    wordmmm_stdout.analyze_directory_word_counts sys_stdout fs directory
    = (Return tt,
       concat (map (fun filename => errors_of fs (join directory filename))
                   files)
       ++ (newline ++ lit "Word count per file:" ++ newline
           ++ concat (map (fun filename =>
                             lit "  " ++ filename ++ lit ": "
                             ++ str_of_int
                                  (words_of fs (join directory filename))
                             ++ lit " words" ++ newline)
                          files))
       ++ summary_text
            (sum (map (fun filename => words_of fs (join directory filename))
                      files))
            mean_text median_text mode_text).
Proof.
  intros Hls Hnd Hne Hn Hfit Hshow files.
  pose proof (scan_distinct fs directory names [] [] Hnd (fun _ _ H => H))
    as Hrun.
  cbn [app] in Hrun.
  destruct (analyze_shown sys_stdout fs directory names _ Hls Hrun)
    as (f & median_words & mode_words & _ & _ & _ & Hall);
    [|exact Hn|exact Hfit|exact Hshow|].
  { unfold scan_counts, qualifying. intro E.
    apply map_eq_nil in E. contradiction. }
  exists (format_2f f), (str_of_number median_words), (str_of_int mode_words).
  rewrite Hall.
  unfold per_file_text, scan_items, scan_errors, scan_counts, qualifying,
    items, file_line.
  fold files. rewrite map_map. reflexivity.
Qed.

End ScanMore.

Lemma output_follows_listing_order_witness :
  exists mean_text median_text mode_text : str,
    wordmmm_stdout.analyze_directory_word_counts utf8_stdout docs_fs (lit "docs")
    = (Return tt,
       (newline ++ lit "Word count per file:" ++ newline
        ++ lit "  a.txt: 3 words" ++ newline
        ++ lit "  b.txt: 2 words" ++ newline)
       ++ summary_text 5 mean_text median_text mode_text).
Proof.
  destruct (output_follows_listing_order
              docs_fs (lit "docs") utf8_stdout
              (map lit ["a.txt"; "b.txt"]%string))
    as (mean_text & median_text & mode_text & Hrun).
  - reflexivity.
  - repeat constructor; cbn; intuition discriminate.
  - vm_compute. discriminate.
  - vm_compute. discriminate.
  - intros filename text Hin Hread.
    assert (Hlen : len text <= 13).
    { cbn in Hin. destruct Hin as [<-|[<-|[]]];
        vm_compute in Hread; injection Hread as <-; vm_compute; discriminate. }
    unfold maxsize. lia.
  - split; [exact utf8_has_ascii|].
    intros filename Hin _. cbn in Hin.
    destruct Hin as [<-|[<-|[]]]; (split; [reflexivity|]);
      intros e Hr; vm_compute in Hr; discriminate.
  - exists mean_text, median_text, mode_text. exact Hrun.
Defined.

(** ** The statistics and the order of the counts *)

Section StatisticsMore.

Import statistics.

Lemma sum_perm (l l' : list Z) : Permutation l l' -> sum l = sum l'.
Proof.
  intro H. rewrite !sum_fold_right.
  induction H; cbn [fold_right]; lia.
Qed.

Lemma len_perm (l l' : list Z) : Permutation l l' -> len l = len l'.
Proof. intro H. unfold len. now rewrite (Permutation_length H). Qed.

Lemma sorted_of_perm (l l' : list Z) :
  Permutation l l' -> sorted l = sorted l'.
Proof.
  intro H. apply sorted_is; [apply sorted_ordered|].
  transitivity l'; [apply sorted_perm | now symmetry].
Qed.

Lemma occurrences_perm (l l' : list Z) (k : Z) :
  Permutation l l' -> occurrences l k = occurrences l' k.
Proof.
  intro H. unfold occurrences. f_equal.
  now apply (proj1 (Permutation_count_occ Z.eq_dec l l')).
Qed.

(** [Counter] keeps its keys in order of first occurrence: a step only
    ever adds a key at the end. *)
Lemma keys_count_step (c : dict Z Z) (x : Z) :
  exists extra, keys (count_step c x) = keys c ++ extra.
Proof.
  unfold count_step. destruct (in_dec Z.eq_dec x (keys c)) as [Hin|Hout].
  - exists []. rewrite keys_setitem_present by assumption.
    now rewrite app_nil_r.
  - exists [x]. rewrite setitem_fresh by assumption.
    unfold keys. now rewrite map_app.
Qed.

Lemma keys_fold_count_step (data : list Z) :
  forall c : dict Z Z,
  exists extra, keys (fold_left count_step data c) = keys c ++ extra.
Proof.
  induction data as [|x data IH]; intro c; cbn [fold_left].
  - exists []. now rewrite app_nil_r.
  - destruct (IH (count_step c x)) as [e1 H1].
    destruct (keys_count_step c x) as [e2 H2].
    exists (e2 ++ e1). now rewrite H1, H2, app_assoc.
Qed.

Lemma Counter_first_new (pre post : list Z) (v : Z) :
  ~ In v pre ->
  exists (A : list (Z * Z)) (x : Z * Z) (B : list (Z * Z)),
    Counter (pre ++ v :: post) = A ++ x :: B
    /\ fst x = v
    /\ forall a, In a A -> In (fst a) pre.
Proof.
  intro Hv.
  destruct (Counter_spec pre) as (_ & Hkeys & _).
  assert (Hfresh : ~ In v (keys (Counter pre))) by now rewrite Hkeys.
  unfold Counter at 1. rewrite fold_left_app. cbn [fold_left].
  fold (Counter pre).
  assert (Hstep : count_step (Counter pre) v
                  = Counter pre ++ [(v, get (Counter pre) v 0 + 1)]).
  { unfold count_step. now apply setitem_fresh. }
  rewrite Hstep.
  destruct (keys_fold_count_step
              post (Counter pre ++ [(v, get (Counter pre) v 0 + 1)]))
    as [extra He].
  unfold keys in He. rewrite map_app in He. cbn [map fst] in He.
  rewrite <- app_assoc in He. cbn [app] in He.
  apply map_eq_app in He as (A & L & HAL & HA & HL).
  destruct L as [|x B]; [discriminate|].
  cbn [map] in HL. injection HL as Hx _.
  exists A, x, B. split; [exact HAL|]. split; [exact Hx|].
  intros a Ha. apply Hkeys. unfold keys. rewrite <- HA.
  now apply in_map.
Qed.

Lemma max_by_count_keeps (rest : list (Z * Z)) (best : Z * Z) :
  (forall item, In item rest -> snd item <= snd best) ->
  max_by_count best rest = best.
Proof.
  unfold max_by_count.
  induction rest as [|r rest IH]; intro H; cbn [fold_left]; [reflexivity|].
  assert (Hr : (snd best <? snd r) = false).
  { apply Z.ltb_ge. apply H. now left. }
  rewrite Hr. apply IH. intros item Hi. apply H. now right.
Qed.

Lemma most_common_1_first (A B : list (Z * Z)) (x : Z * Z) :
  (forall a, In a A -> snd a < snd x) ->
  (forall b, In b B -> snd b <= snd x) ->
  most_common_1 (A ++ x :: B) = [x].
Proof.
  intros HA HB. destruct A as [|a A]; cbn [app most_common_1].
  - now rewrite max_by_count_keeps.
  - f_equal. unfold max_by_count. rewrite fold_left_app. cbn [fold_left].
    fold (max_by_count a A).
    destruct (max_by_count_spec A a) as [Hin _].
    assert (Hlt : (snd (max_by_count a A) <? snd x) = true).
    { apply Z.ltb_lt. now apply HA. }
    rewrite Hlt. now apply max_by_count_keeps.
Qed.

(** X8.  The total, the mean and the median do not depend on the order
    in which the directory was listed, and neither does the frequency of
    the mode: two orders of the same counts can show different modes only
    when these occur equally often. *)
Theorem statistics_ignore_order (word_counts word_counts' : list Z) :
  Permutation word_counts word_counts' ->
  sum word_counts = sum word_counts'
  /\ statistics.mean word_counts = statistics.mean word_counts'
  /\ statistics.median word_counts = statistics.median word_counts'
  /\ forall v v',
       statistics.mode word_counts = Return v ->
       statistics.mode word_counts' = Return v' ->
       occurrences word_counts v = occurrences word_counts v'.
Proof.
  intro H. split; [now apply sum_perm|]. split; [|split].
  - unfold statistics.mean.
    now rewrite (sum_perm _ _ H), (len_perm _ _ H).
  - unfold statistics.median. now rewrite (sorted_of_perm _ _ H).
  - intros v v' Hv Hv'.
    apply mode_most_frequent in Hv as [_ Hv].
    apply mode_most_frequent in Hv' as [_ Hv'].
    specialize (Hv v'). specialize (Hv' v).
    rewrite <- !(occurrences_perm _ _ _ H) in Hv'. lia.
Qed.

(** X9.  Which of several equally frequent counts is shown as the mode:
    the one that comes first in the sequence of counts.  A count that no
    other count exceeds in frequency, and that every earlier count falls
    short of, is the value [statistics.mode] returns. *)
Theorem mode_is_first_most_frequent (pre post : list Z) (v : Z) :
  (forall u, In u pre ->
             occurrences (pre ++ v :: post) u
             < occurrences (pre ++ v :: post) v) ->
  (forall u, occurrences (pre ++ v :: post) u
             <= occurrences (pre ++ v :: post) v) ->
  statistics.mode (pre ++ v :: post) = Return v.
Proof.
  intros Hpre Hall.
  assert (Hv : ~ In v pre).
  { intro Hin. specialize (Hpre v Hin). lia. }
  destruct (Counter_first_new pre post v Hv) as (A & x & B & HC & Hx & HA).
  destruct (Counter_spec (pre ++ v :: post)) as (_ & _ & Hcount).
  unfold items in Hcount. rewrite HC in Hcount.
  assert (Hsnd : forall item, In item (A ++ x :: B) ->
                   snd item = occurrences (pre ++ v :: post) (fst item)).
  { intros [k c] Hi. now apply Hcount. }
  assert (Hsx : snd x = occurrences (pre ++ v :: post) v).
  { rewrite (Hsnd x) by apply in_elt. now rewrite Hx. }
  unfold statistics.mode. rewrite HC, most_common_1_first.
  - now rewrite Hx.
  - intros a Ha. rewrite Hsx, (Hsnd a) by (apply in_or_app; now left).
    apply Hpre. now apply HA.
  - intros b Hb. rewrite Hsx, (Hsnd b) by (apply in_or_app; right; now right).
    apply Hall.
Qed.

End StatisticsMore.

Lemma statistics_ignore_order_witness :
  sum [3; 2; 7] = sum [7; 3; 2]
  /\ statistics.mean [3; 2; 7] = statistics.mean [7; 3; 2]
  /\ statistics.median [3; 2; 7] = statistics.median [7; 3; 2]
  /\ forall v v',
       statistics.mode [3; 2; 7] = Return v ->
       statistics.mode [7; 3; 2] = Return v' ->
       occurrences [3; 2; 7] v = occurrences [3; 2; 7] v'.
Proof.
  apply (statistics_ignore_order [3; 2; 7] [7; 3; 2]).
  apply Permutation_sym. apply (Permutation_cons_append [3; 2] 7).
Defined.

Lemma mode_is_first_most_frequent_witness :
  statistics.mode ([5] ++ 3 :: [2; 3; 2]) = Return 3.
Proof.
  apply (mode_is_first_most_frequent [5] [2; 3; 2] 3).
  - intros u [<-|[]]. vm_compute. reflexivity.
  - intro u. unfold occurrences. cbn [app count_occ].
    repeat destruct (Z.eq_dec _ _); subst; try discriminate; cbn; lia.
Defined.

(** ** The report, further *)

Section ReportMore.

(** A report on counts that are all zero. *)
Lemma report_of_zeros (word_counts : list Z) (file_word_map : dict str Z) :
  word_counts <> [] ->
  Forall (fun c => c = 0) word_counts ->
  exists median_text,
    report (word_counts, file_word_map)
    = (Return tt,
       per_file_text file_word_map
       ++ summary_text 0 (lit "0.00") median_text (lit "0"))
    /\ (median_text = lit "0" \/ median_text = lit "0.0").
Proof.
  intros Hne Hzero.
  assert (Hin : forall c, In c word_counts -> c = 0).
  { now apply Forall_forall. }
  assert (Hnn : Forall (fun c => 0 <= c) word_counts).
  { apply Forall_forall. intros c Hc. rewrite (Hin c Hc). lia. }
  assert (Hsum : sum word_counts = 0).
  { clear Hne Hin Hnn. induction Hzero as [|c l Hc _ IH]; [reflexivity|].
    rewrite sum_cons. lia. }
  assert (Hlen : 0 < len word_counts).
  { destruct word_counts; [contradiction|]. unfold len. cbn [length]. lia. }
  destruct (mean_shown word_counts Hne) as (x & h & Hmean & Hfmt & Hh).
  { rewrite Hsum. split; [lia|]. apply Z.pow_pos_nonneg; lia. }
  assert (h = 0) as ->.
  { destruct Hh as [[_ Hh]|(num & den & m & e & Hnum & _)]; [exact Hh|lia]. }
  assert (Hmode : exists v, statistics.mode word_counts = Return v /\ v = 0).
  { destruct word_counts as [|c l]; [contradiction|].
    destruct (mode_returns c l) as (v & Hv & Hvin).
    exists v. split; [exact Hv|]. now apply Hin. }
  destruct Hmode as (v & Hmode & ->).
  assert (Hsorted : forall i, 0 <= i < len word_counts ->
                              getitem (sorted word_counts) i = 0).
  { intros i Hi. apply Hin.
    apply (Permutation_in _ (sorted_perm word_counts)).
    apply getitem_in. now rewrite len_sorted. }
  destruct (median_cases word_counts Hne Hnn) as [[Hodd Hmed]|[Heven Hmed]].
  { rewrite Hsum. apply Z.pow_pos_nonneg; lia. }
  - exists (lit "0"). split; [|now left].
    rewrite (report_eq _ _ _ _ _ _ Hne Hmean Hfmt Hmed Hmode), Hsum.
    cbn [str_of_number]. rewrite Hsorted; [reflexivity|].
    split; [apply Z.div_pos; lia | apply Z.div_lt_upper_bound; lia].
  - destruct Hmed as (m & e & Hmed & Hm).
    exists (lit "0.0"). split; [|now right].
    rewrite (report_eq _ _ _ _ _ _ Hne Hmean Hfmt Hmed Hmode), Hsum.
    assert (m = 0) as ->.
    { cbv zeta in Hm. destruct Hm as [[_ Hm]|[Hpos _]]; [exact Hm|].
      assert (H2 : 2 <= len word_counts).
      { destruct (Z.eq_dec (len word_counts) 1) as [E|E];
          [rewrite E in Heven; discriminate | lia]. }
      rewrite !Hsorted in Hpos; [lia| |].
      - split; [apply Z.div_pos; lia | apply Z.div_lt_upper_bound; lia].
      - split; [|assert (len word_counts / 2 < len word_counts)
                   by (apply Z.div_lt_upper_bound; lia); lia].
        assert (1 <= len word_counts / 2)
          by (apply Z.div_le_lower_bound; lia).
        lia. }
    reflexivity.
Qed.

(** [f"{k:.2f}"] for an int that a float holds exactly. *)
Lemma format_whole (k : Z) :
  0 <= k < 2 ^ 53 ->
  format_number_2f (PyInt k) = Return (str_of_int k ++ lit ".00").
Proof.
  intros [Hk0 Hk].
  destruct (Z.eq_dec k 0) as [->|Hnz]; [reflexivity|].
  assert (Hpos : 0 < k) by lia.
  destruct (round_binary64_returns k 1) as (m & e & Hr); [|lia|].
  { split; [lia|]. eapply Z.lt_trans; [exact Hk|].
    apply Z.pow_lt_mono_r; lia. }
  assert (Hex : exactly m e k 1).
  { apply (round_binary64_exact k 1 m e Hpos); [lia| |exact Hr].
    cbv zeta.
    assert (He0 : Z.max (floor_log2 k 1 - 52) (-1074) <= 0).
    { pose proof (floor_log2_range k 1) as [_ Hfl].
      assert (Z.log2 k < 53) by (apply Z.log2_lt_pow2; lia).
      change (Z.log2 1) with 0 in Hfl. lia. }
    destruct (pow2_of_nonpos _ He0) as [-> _].
    eexists. rewrite !Z.mul_1_r. reflexivity. }
  unfold format_number_2f, float_of_int.
  assert (Hk1 : (k =? 0) = false) by now apply Z.eqb_neq.
  assert (Hk2 : (k <? 0) = false) by now apply Z.ltb_ge.
  rewrite Hk1, Hk2, (Z.abs_eq k), Hr by lia.
  unfold format_2f. cbn [fneg].
  assert (Hh : hundredths (Float false m e) = k * 100).
  { unfold hundredths. cbn [fmant fexp]. rewrite scale2_eq.
    rewrite pow2_den_opp, pow2_num_opp, Z.mul_1_l.
    unfold exactly in Hex. rewrite Z.mul_1_r in Hex.
    replace (100 * m * pow2_num e) with (k * 100 * pow2_den e) by lia.
    apply round_half_even_exact. apply pow2_den_pos. }
  rewrite Hh. unfold show_hundredths.
  rewrite Z.div_mul, Z.mod_mul by lia. reflexivity.
Qed.

(** [statistics.mean] of counts whose total is a multiple of their
    number: the quotient, as an int. *)
Lemma whole_mean (word_counts : list Z) (k : Z) :
  word_counts <> [] ->
  sum word_counts = k * len word_counts ->
  statistics.mean word_counts = Return (PyInt k).
Proof.
  intros Hne Hsum.
  assert (Hlen : 0 < len word_counts).
  { destruct word_counts; [contradiction|]. unfold len. cbn [length]. lia. }
  unfold statistics.mean. cbv zeta. rewrite Hsum.
  assert (Hn : (len word_counts <? 1) = false) by (apply Z.ltb_ge; lia).
  rewrite Hn.
  rewrite Z.gcd_comm, (Z.mul_comm k), Z.gcd_mul_diag_l by lia.
  rewrite (Z.mul_comm (len word_counts) k), Z.div_mul, Z.div_same by lia.
  reflexivity.
Qed.

(** X10.  A mean that is a whole number below 2^53 is shown exactly, as
    that number followed by [.00]: when the total of the counts is [k]
    times their number, the report shows the total and the mean [k.00]. *)
Theorem whole_mean_is_shown_exactly
        (word_counts : list Z) (file_word_map : dict str Z) (k : Z) :
  word_counts <> [] ->
  within_limits word_counts ->
  sum word_counts = k * len word_counts ->
  k < 2 ^ 53 ->
  exists median_text mode_text : str,
    report (word_counts, file_word_map)
    = (Return tt,
       per_file_text file_word_map
       ++ summary_text (k * len word_counts) (str_of_int k ++ lit ".00")
                       median_text mode_text).
Proof.
  intros Hne Hlim Hsum Hk.
  destruct (within_limits_sum _ Hlim) as [Hnn [Hs0 Hs1]].
  assert (Hlen : 0 < len word_counts).
  { destruct word_counts; [contradiction|]. unfold len. cbn [length]. lia. }
  assert (Hk0 : 0 <= k) by nia.
  pose proof (whole_mean _ _ Hne Hsum) as Hmean.
  pose proof (format_whole k (conj Hk0 Hk)) as Hfmt.
  assert (Hmed : exists x, statistics.median word_counts = Return x).
  { destruct (median_cases word_counts Hne Hnn Hs1)
      as [[_ Hmed]|[_ (m & e & Hmed & _)]]; eauto. }
  destruct Hmed as [x Hmed].
  assert (Hmode : exists v, statistics.mode word_counts = Return v).
  { destruct word_counts as [|c l]; [contradiction|].
    destruct (mode_returns c l) as (v & Hv & _). eauto. }
  destruct Hmode as [v Hmode].
  exists (str_of_number x), (str_of_int v).
  rewrite (report_eq _ _ _ _ _ _ Hne Hmean Hfmt Hmed Hmode).
  now rewrite Hsum.
Qed.

End ReportMore.

Lemma whole_mean_is_shown_exactly_witness :
  exists median_text mode_text : str,
    report ([4; 4; 7], [(lit "x", 4); (lit "y", 4); (lit "z", 7)])
    = (Return tt,
       per_file_text [(lit "x", 4); (lit "y", 4); (lit "z", 7)]
       ++ summary_text (5 * len [4; 4; 7]) (str_of_int 5 ++ lit ".00")
                       median_text mode_text).
Proof.
  apply (whole_mean_is_shown_exactly [4; 4; 7]).
  - discriminate.
  - split; [vm_compute; discriminate|].
    repeat constructor; vm_compute; discriminate.
  - reflexivity.
  - reflexivity.
Defined.

(** ** Whole runs *)

Section RunsMore.

Variable fs : filesystem.

Lemma join_trailing_slash (d filename : str) :
  d <> [] -> endswith d (lit "/") = false ->
  join (d ++ lit "/") filename = join d filename.
Proof.
  intros Hd Hend. unfold join.
  destruct (startswith filename (lit "/")); [reflexivity|].
  assert (He : endswith (d ++ lit "/") (lit "/") = true).
  { unfold endswith. rewrite rev_app_distr.
    change (rev (lit "/")) with [47%N]. now destruct (rev d). }
  assert (Hd' : PyStr.eqb d [] = false).
  { unfold PyStr.eqb.
    match goal with
    | |- context [list_eq_dec ?dec ?a ?b] => destruct (list_eq_dec dec a b)
    end; [contradiction|reflexivity]. }
  rewrite He, Hend, Hd', orb_true_r. cbn [orb].
  now rewrite <- app_assoc.
Qed.

(** X11.  A directory all of whose files fail to be read still gets the
    full report, not the line for an empty directory, on a standard
    output that can encode what is printed: after one error line per
    file, every file is listed with [0 words], the total is 0, the mean
    [0.00], the mode 0, and the median 0 (an odd number of files) or 0.0
    (an even number). *)
Theorem unreadable_directory_reports_zeros
        (sys_stdout : text_stream) (directory : str) (names : list str) :
  listdir fs directory = Return names ->
  filter (fun filename => isfile fs (join directory filename)) names
  <> [] ->
  (forall filename,
      In filename names ->
      isfile fs (join directory filename) = true ->
      exists e, open_read fs (join directory filename) = Raise e) ->
  can_show sys_stdout fs directory names ->
  exists (file_word_map : dict str Z) (median_text : str),
    wordmmm_stdout.analyze_directory_word_counts sys_stdout fs directory
    = (Return tt,
       concat (map (fun filename => errors_of fs (join directory filename))
                   (filter (fun filename =>
                              isfile fs (join directory filename)) names))
       ++ per_file_text file_word_map
       ++ summary_text 0 (lit "0.00") median_text (lit "0"))
    /\ (median_text = lit "0" \/ median_text = lit "0.0")
    /\ (forall filename count,
           In (filename, count) (items file_word_map) <->
           In filename names
           /\ isfile fs (join directory filename) = true /\ count = 0).
Proof.
  intros Hls Hne Hbad Hshow.
  destruct (scan_items_iff fs directory names) as (m & Hrun & Hitems).
  destruct (scan_shown sys_stdout fs directory names Hshow)
    as (m' & _ & Hrun' & Hkeys).
  assert (m' = m) as -> by congruence.
  assert (Hw : forall filename,
             In filename names ->
             isfile fs (join directory filename) = true ->
             words_of fs (join directory filename) = 0).
  { intros n Hn Hf. destruct (Hbad n Hn Hf) as [e He].
    unfold words_of. now rewrite He. }
  assert (Hzero : Forall (fun c => c = 0) (scan_counts fs directory names)).
  { apply Forall_forall. intros c Hc. unfold scan_counts in Hc.
    apply in_map_iff in Hc as (n & <- & Hn).
    unfold qualifying in Hn. apply filter_In in Hn as [Hn Hf]. auto. }
  assert (Hne' : scan_counts fs directory names <> []).
  { unfold scan_counts, qualifying. intro E. apply map_eq_nil in E.
    contradiction. }
  destruct (report_of_zeros _ m Hne' Hzero) as (median_text & Hrep & Hmed).
  assert (Hperm : analyze_directory_word_counts fs directory
                  = (Return tt,
                     scan_errors fs directory names
                     ++ per_file_text m
                     ++ summary_text 0 (lit "0.00") median_text (lit "0"))).
  { rewrite (analyze_listed fs directory names Hls), Hrun, bind_returned.
    now rewrite Hrep. }
  exists m, median_text. split; [|split; [exact Hmed|]].
  - rewrite analyze_on_stream; [exact Hperm|].
    rewrite Hperm. unfold stdout. cbn [snd].
    pose proof Hshow as [Hascii _].
    apply can_encode_app. split; [now apply scan_errors_encodable|].
    apply can_encode_app. split; [now apply per_file_encodable|].
    apply summary_encodable; [exact Hascii|reflexivity| |reflexivity].
    now destruct Hmed as [->| ->].
  - intros n c. rewrite Hitems. split.
    + intros (Hn & Hf & ->). auto.
    + intros (Hn & Hf & ->). rewrite Hw by assumption. auto.
Qed.

(** X12.  Within the limits of the interpreter and on a standard output
    that can encode what is printed, a run can fail in one way only: it
    raises exactly when [os.listdir] does, with the same exception, and
    returns normally otherwise. *)
Theorem only_the_listing_can_raise
        (sys_stdout : text_stream) (directory : str) :
  (forall names,
      listdir fs directory = Return names ->
      len names <= maxsize
      /\ (forall filename text,
             In filename names ->
             open_read fs (join directory filename) = Return text ->
             len text <= maxsize)
      /\ can_show sys_stdout fs directory names) ->
  outcome (wordmmm_stdout.analyze_directory_word_counts
             sys_stdout fs directory)
  = match listdir fs directory with
    | Return _ => Return tt
    | Raise e => Raise e
    end.
Proof.
  intro Hlim. destruct (listdir fs directory) as [names|e] eqn:Hls.
  - destruct (Hlim names eq_refl) as (Hn & Hfit & Hshow).
    destruct (scan_general fs directory names [] []) as (m & Hrun & _).
    cbn [app] in Hrun.
    destruct (scan_counts fs directory names) as [|c l] eqn:Hc.
    + rewrite (analyze_empty_shown sys_stdout fs directory names Hls Hc);
        [reflexivity | apply Hshow].
    + destruct (analyze_shown sys_stdout fs directory names m Hls)
        as (f & med & v & _ & _ & _ & H);
        rewrite ?Hc; try assumption; try discriminate.
      rewrite Hc in H. now rewrite H.
  - unfold wordmmm_stdout.analyze_directory_word_counts.
    now rewrite Hls, bind_lift_raise.
Qed.

(** X13.  An empty or all-white-space answer to the prompt is stripped
    to the empty path, which names nothing: the program writes the prompt
    and ends with the [FileNotFoundError] of [os.listdir('')]. *)
Theorem blank_answer_raises (typed : str) :
  forallb isspace typed = true ->
  lookup fs [] = None ->
  main fs typed
  = (Raise (os_error fs FileNotFoundError []),
     lit "Enter the directory path: ").
Proof.
  intros Hblank Hnone. unfold main.
  assert (Hstrip : strip typed = []).
  { unfold strip. now rewrite lstrip_all_space. }
  rewrite Hstrip, bind_write.
  rewrite (analyze_listdir_raises fs [] (os_error fs FileNotFoundError [])).
  - reflexivity.
  - unfold listdir. now rewrite (stat_missing fs [] Hnone).
Qed.

(** X14.  A trailing slash on the directory path changes nothing:
    [os.path.join] adds no second separator, so when the directory lists
    the same with and without the slash, the run is the same. *)
Theorem trailing_slash_changes_nothing (directory : str) :
  directory <> [] ->
  endswith directory (lit "/") = false ->
  listdir fs (directory ++ lit "/") = listdir fs directory ->
  analyze_directory_word_counts fs (directory ++ lit "/")
  = analyze_directory_word_counts fs directory.
Proof.
  intros Hd Hend Hls. unfold analyze_directory_word_counts.
  rewrite Hls. apply bind_ext. intro names.
  f_equal. apply for_in_ext. intros [wcs m] n _.
  unfold scan_entry. now rewrite join_trailing_slash.
Qed.





End RunsMore.

Lemma unreadable_directory_reports_zeros_witness :
  exists (file_word_map : dict str Z) (median_text : str),
    wordmmm_stdout.analyze_directory_word_counts utf8_stdout locked_fs
                                                 (lit "vault")
    = (Return tt,
       (lit "Error reading vault/k1: [Errno 13] Permission denied: 'vault/k1'"
        ++ newline
        ++ lit "Error reading vault/k2: [Errno 13] Permission denied: 'vault/k2'"
        ++ newline)
       ++ per_file_text file_word_map
       ++ summary_text 0 (lit "0.00") median_text (lit "0"))
    /\ (median_text = lit "0" \/ median_text = lit "0.0")
    /\ (forall filename count,
           In (filename, count) (items file_word_map) <->
           In filename (map lit ["k1"; "k2"]%string)
           /\ isfile locked_fs (join (lit "vault") filename) = true
           /\ count = 0).
Proof.
  apply (unreadable_directory_reports_zeros
           locked_fs utf8_stdout (lit "vault") (map lit ["k1"; "k2"]%string)).
  - reflexivity.
  - vm_compute. discriminate.
  - intros filename Hin _. cbn in Hin.
    destruct Hin as [<-|[<-|[]]]; eexists; vm_compute; reflexivity.
  - split; [exact utf8_has_ascii|].
    intros filename Hin _. cbn in Hin.
    destruct Hin as [<-|[<-|[]]]; (split; [reflexivity|]);
      intros e Hr; vm_compute in Hr; injection Hr as <-; split; reflexivity.
Defined.

Lemma only_the_listing_can_raise_witness :
  outcome (wordmmm_stdout.analyze_directory_word_counts
             utf8_stdout docs_fs (lit "docs"))
  = Return tt.
Proof.
  apply (only_the_listing_can_raise docs_fs utf8_stdout (lit "docs")).
  intros names Hls. vm_compute in Hls. injection Hls as <-.
  split; [vm_compute; discriminate|]. split.
  - intros filename text Hin Hread.
    assert (Hlen : len text <= 13).
    { cbn in Hin. destruct Hin as [<-|[<-|[]]];
        vm_compute in Hread; injection Hread as <-; vm_compute; discriminate. }
    unfold maxsize. lia.
  - split; [exact utf8_has_ascii|].
    intros filename Hin _. cbn in Hin.
    destruct Hin as [<-|[<-|[]]]; (split; [reflexivity|]);
      intros e Hr; vm_compute in Hr; discriminate.
Defined.

Lemma blank_answer_raises_witness :
  main docs_fs [32%N; 9%N]
  = (Raise (os_error docs_fs FileNotFoundError []),
     lit "Enter the directory path: ").
Proof.
  apply (blank_answer_raises docs_fs [32%N; 9%N]); reflexivity.
Defined.

Lemma trailing_slash_changes_nothing_witness :
  analyze_directory_word_counts slash_fs (lit "docs" ++ lit "/")
  = analyze_directory_word_counts slash_fs (lit "docs").
Proof.
  apply (trailing_slash_changes_nothing slash_fs (lit "docs"));
    [discriminate | reflexivity | reflexivity].
Defined.
